(** * kyra.ai: the transcription clients and the audio encoder

    A shallow embedding of [services/geminiService.ts] (the audio encoder,
    the single-shot transcription call and the content transformation
    call) and of the AssemblyAI client (the batch upload / start / poll
    workflow, the formatting of a transcript, the handlers and the [stop]
    function of a realtime session), followed by the properties of the
    specification stated over them.

    Conventions of the embedding.
    - A JavaScript number is a [number]: a finite value carried as an exact
      rational, or one of the two infinities, or NaN.  Every arithmetic
      operation the modelled code performs on a Float32 sample is a
      comparison or a product of a 24-bit significand with a constant
      below 2^16, which binary64 computes without rounding, so the exact
      rational is the value the engine holds.
    - Typed arrays are lists of [Z]; the wrap-around of a store into an
      [Int16Array] is written out ([ToInt16]).
    - Strings are [string]: the UTF-8 bytes of the text, decoded to
      UTF-16 code units where the code compares strings ([sort]); a
      binary string holds one character per byte.
    - An awaited operation is a run: the trace of what it does that can
      be observed (progress reports, requests, delays, fragments) and an
      [Outcome]: it returns, throws an [Error], or is still pending when
      the scripted replies of the remote service are used up.
    - The bodies of the replies of the proxy are records after the wire
      format; a property the code reads behind a guard may be absent.
    - The browser objects of a realtime session are a state ([Browser])
      on which the calls of [stop] act; whether a call throws is decided
      by a fault assignment, and in a browser none of the calls of
      [stop] does ([no_faults]). *)

From Stdlib Require Import ZArith QArith Qabs Lqa List String Ascii Bool Lia.
From Stdlib Require Import Sorted DecimalString DecimalNat.
Import ListNotations.

Local Open Scope string_scope.
Local Open Scope list_scope.
Local Open Scope Z_scope.

(* ===================================================================== *)
(** * JavaScript values used by the clients *)
(* ===================================================================== *)

Module Js.

(** ** Numbers *)

Inductive number : Type :=
| Fin (q : Q)
| PosInf
| NegInf
| NaN.

Definition of_Z (z : Z) : number := Fin (inject_Z z).

(** [Math.min] and [Math.max] on two arguments: NaN is contagious. *)
Definition Math_min (a b : number) : number :=
  match a, b with
  | NaN, _ | _, NaN => NaN
  | NegInf, _ | _, NegInf => NegInf
  | PosInf, y => y
  | x, PosInf => x
  | Fin x, Fin y => if Qle_bool x y then Fin x else Fin y
  end.

Definition Math_max (a b : number) : number :=
  match a, b with
  | NaN, _ | _, NaN => NaN
  | PosInf, _ | _, PosInf => PosInf
  | NegInf, y => y
  | x, NegInf => x
  | Fin x, Fin y => if Qle_bool x y then Fin y else Fin x
  end.

(** The product [a * b]; an infinity times zero is NaN. *)
Definition signed_inf (positive : bool) : number :=
  if positive then PosInf else NegInf.

Definition times_inf (x : Q) (positive : bool) : number :=
  match Qcompare x 0 with
  | Eq => NaN
  | Gt => signed_inf positive
  | Lt => signed_inf (negb positive)
  end.

Definition mul (a b : number) : number :=
  match a, b with
  | NaN, _ | _, NaN => NaN
  | Fin x, Fin y => Fin (x * y)
  | Fin x, PosInf | PosInf, Fin x => times_inf x true
  | Fin x, NegInf | NegInf, Fin x => times_inf x false
  | PosInf, PosInf | NegInf, NegInf => PosInf
  | PosInf, NegInf | NegInf, PosInf => NegInf
  end.

(** ** Storing a number into an [Int16Array] element (ToInt16) *)

(** Rounding towards zero. *)
Definition truncate (q : Q) : Z := Z.quot (Qnum q) (Zpos (Qden q)).

Definition wrap16 (int : Z) : Z :=
  let int16bit := int mod 65536 in
  if 32768 <=? int16bit then int16bit - 65536 else int16bit.

Definition ToInt16 (x : number) : Z :=
  match x with
  | Fin q => wrap16 (truncate q)
  | PosInf | NegInf | NaN => 0
  end.

(** ** Typed arrays *)

(** [new Int16Array(l)]: [l] elements, all zero. *)
Definition new_Int16Array (l : nat) : list Z := repeat 0 l.

(** [arr[i] = v] on a typed array: a store outside the array is ignored. *)
Fixpoint store {A : Type} (arr : list A) (i : nat) (v : A) : list A :=
  match arr, i with
  | [], _ => []
  | _ :: rest, O => v :: rest
  | a :: rest, S i' => a :: store rest i' v
  end.

(** [new Uint8Array(int16.buffer)]: the bytes of the elements, the low
    byte of each element first (the byte order of every platform the
    application runs on). *)
Definition bytes_of_int16 (v : Z) : list Z :=
  let u := v mod 65536 in [u mod 256; u / 256].

Definition Uint8Array_of_buffer (int16 : list Z) : list Z :=
  flat_map bytes_of_int16 int16.

(** [for (let i = start; i < start + n; i++) body], threading the
    variables the body assigns. *)
Fixpoint for_loop {S : Type} (n : nat) (i : nat) (body : nat -> S -> S)
    (s : S) : S :=
  match n with
  | O => s
  | Datatypes.S n' => for_loop n' (Datatypes.S i) body (body i s)
  end.

(** ** Strings *)

(** [String.fromCharCode(b)] for a byte [b]. *)
Definition fromCharCode (b : Z) : string :=
  String (ascii_of_N (Z.to_N b)) EmptyString.

Definition charCode (c : ascii) : Z := Z.of_N (N_of_ascii c).

Definition newline : string := String (ascii_of_nat 10) EmptyString.

(** [parts.join(sep)]. *)
Fixpoint join (sep : string) (parts : list string) : string :=
  match parts with
  | [] => ""
  | [p] => p
  | p :: rest => p ++ sep ++ join sep rest
  end.

(** A property that may be absent ([undefined]) rendered inside a
    template literal. *)
Definition template (v : option string) : string :=
  match v with
  | Some s => s
  | None => "undefined"
  end.

(** [v || fallback] on an optional string: [undefined] and the empty
    string are falsy. *)
Definition or_else (v : option string) (fallback : string) : string :=
  match v with
  | Some s => if String.eqb s "" then fallback else s
  | None => fallback
  end.

(** [v === s] for a property that may be absent and a string [s]. *)
Definition strict_eq (v : option string) (s : string) : bool :=
  match v with
  | Some s' => String.eqb s' s
  | None => false
  end.

(** ** The code units of a string, and the order of [sort] *)

(** A string of the program is a sequence of UTF-16 code units, and
    that is what the default comparison of [sort] reads.  Here a string
    holds the UTF-8 bytes of the text, so its code units are found by
    decoding: a character up to U+FFFF is one unit, a character above is
    a pair of surrogates. *)

(** The payload of a continuation byte [10xxxxxx]. *)
Definition continuation (c : ascii) : option Z :=
  let b := charCode c in
  if (128 <=? b) && (b <? 192) then Some (b - 128) else None.

(** [k] continuation bytes after the bits [acc] of the leading byte. *)
Fixpoint continuations (k : nat) (acc : Z) (s : string)
    : option (Z * string) :=
  match k with
  | O => Some (acc, s)
  | S k' =>
      match s with
      | String c rest =>
          match continuation c with
          | Some x => continuations k' (acc * 64 + x) rest
          | None => None
          end
      | EmptyString => None
      end
  end.

(** A sequence encodes a character only in its shortest form, and no
    surrogate. *)
Definition scalar (low high : Z) (r : option (Z * string))
    : option (Z * string) :=
  match r with
  | Some (cp, rest) =>
      if (low <=? cp) && (cp <=? high)
         && negb ((55296 <=? cp) && (cp <=? 57343))
      then Some (cp, rest) else None
  | None => None
  end.

(** The character that starts with the byte [c0], and the bytes after
    it. *)
Definition next_code_point (c0 : ascii) (rest : string)
    : option (Z * string) :=
  let b0 := charCode c0 in
  if b0 <? 128 then Some (b0, rest)
  else if b0 <? 192 then None
  else if b0 <? 224 then scalar 128 2047 (continuations 1 (b0 - 192) rest)
  else if b0 <? 240 then scalar 2048 65535 (continuations 2 (b0 - 224) rest)
  else if b0 <? 248 then
    scalar 65536 1114111 (continuations 3 (b0 - 240) rest)
  else None.

Definition units_of_code_point (cp : Z) : list Z :=
  if cp <? 65536 then [cp]
  else [55296 + (cp - 65536) / 1024; 56320 + (cp - 65536) mod 1024].

(** Decoding, one character for each unit of fuel.  A byte that starts
    no character is read as U+FFFD, as a text decoder does. *)
Fixpoint decode (fuel : nat) (s : string) : list Z :=
  match fuel, s with
  | S fuel', String c0 rest =>
      match next_code_point c0 rest with
      | Some (cp, rest') => units_of_code_point cp ++ decode fuel' rest'
      | None => 65533 :: decode fuel' rest
      end
  | _, _ => []
  end.

Definition code_units (s : string) : list Z := decode (String.length s) s.

(** The comparison of two sequences of code units: at the first
    position where they differ, or by length when one begins the
    other. *)
Fixpoint compare_units (x y : list Z) : comparison :=
  match x, y with
  | [], [] => Eq
  | [], _ :: _ => Lt
  | _ :: _, [] => Gt
  | a :: x', b :: y' =>
      match a ?= b with
      | Eq => compare_units x' y'
      | c => c
      end
  end.

(** The comparison [sort] makes of two strings when it is given no
    comparator: that of their code units.  Two texts with the same code
    units are the same text (lemma [text_code_units]), so on the strings
    of the program nothing else is compared (lemma [SortCompare_texts]);
    the comparison of the bytes only orders byte strings that are the
    UTF-8 of no text. *)
Definition SortCompare (x y : string) : comparison :=
  match compare_units (code_units x) (code_units y) with
  | Eq => String.compare x y
  | c => c
  end.

End Js.

(* ===================================================================== *)
(** * Base64 ([btoa] and the decoder of RFC 4648) *)
(* ===================================================================== *)

Module Base64.

Definition alphabet : list ascii :=
  list_ascii_of_string
    "ABCDEFGHIJKLMNOPQRSTUVWXYZabcdefghijklmnopqrstuvwxyz0123456789+/".

Definition pad : ascii := "="%char.

(** The character of a 6-bit group. *)
Definition digit (s : Z) : ascii := nth (Z.to_nat s) alphabet pad.

Fixpoint index_from (c : ascii) (l : list ascii) (i : Z) : option Z :=
  match l with
  | [] => None
  | a :: rest => if Ascii.eqb a c then Some i else index_from c rest (i + 1)
  end.

(** The 6-bit group of a character of the alphabet. *)
Definition value (c : ascii) : option Z := index_from c alphabet 0.

(** [btoa]: three bytes become four characters; a last group of one or
    two bytes is padded with [=]. *)
Fixpoint btoa (binary : string) : string :=
  match binary with
  | EmptyString => ""
  | String a EmptyString =>
      let x := Js.charCode a in
      String (digit (x / 4)) (String (digit ((x mod 4) * 16))
        (String pad (String pad "")))
  | String a (String b EmptyString) =>
      let x := Js.charCode a in
      let y := Js.charCode b in
      String (digit (x / 4)) (String (digit ((x mod 4) * 16 + y / 16))
        (String (digit ((y mod 16) * 4)) (String pad "")))
  | String a (String b (String c rest)) =>
      let x := Js.charCode a in
      let y := Js.charCode b in
      let z := Js.charCode c in
      String (digit (x / 4)) (String (digit ((x mod 4) * 16 + y / 16))
        (String (digit ((y mod 16) * 4 + z / 64))
          (String (digit (z mod 64)) (btoa rest))))
  end.

Definition byte_char (b : Z) : ascii := ascii_of_N (Z.to_N b).

(** The decoder: groups of four characters, padding only in the last. *)
Fixpoint decode (s : string) : option string :=
  match s with
  | EmptyString => Some ""
  | String c0 (String c1 (String c2 (String c3 rest))) =>
      match value c0, value c1 with
      | Some s0, Some s1 =>
          let b0 := byte_char (s0 * 4 + s1 / 16) in
          match rest, Ascii.eqb c3 pad, Ascii.eqb c2 pad with
          | EmptyString, true, true => Some (String b0 "")
          | EmptyString, true, false =>
              match value c2 with
              | Some s2 =>
                  Some (String b0
                    (String (byte_char ((s1 mod 16) * 16 + s2 / 4)) ""))
              | None => None
              end
          | _, _, _ =>
              match value c2, value c3, decode rest with
              | Some s2, Some s3, Some tail =>
                  Some (String b0
                    (String (byte_char ((s1 mod 16) * 16 + s2 / 4))
                      (String (byte_char ((s2 mod 4) * 64 + s3)) tail)))
              | _, _, _ => None
              end
          end
      | _, _ => None
      end
  | _ => None
  end.

(** Reading a byte sequence as 16-bit signed samples, low byte first. *)
Fixpoint int16_of_bytes (s : string) : option (list Z) :=
  match s with
  | EmptyString => Some []
  | String lo (String hi rest) =>
      match int16_of_bytes rest with
      | Some tail =>
          let u := Js.charCode lo + 256 * Js.charCode hi in
          Some ((if 32768 <=? u then u - 65536 else u) :: tail)
      | None => None
      end
  | String _ EmptyString => None
  end.

(** What a receiver of the payload reads: the samples of the string. *)
Definition decode_pcm16le (data : string) : option (list Z) :=
  match decode data with
  | Some bytes => int16_of_bytes bytes
  | None => None
  end.

End Base64.


(* ===================================================================== *)
(** * Awaited operations: outcomes and the trace of requests *)
(* ===================================================================== *)

Module Async.

(** A JavaScript [Error]: what a [catch] clause reads is its message. *)
Record Error : Type := new_Error { message : string }.

Inductive Outcome (A : Type) : Type :=
| Returned (a : A)
| Threw (e : Error)
| Pending.

Arguments Returned {A} a.
Arguments Threw {A} e.
Arguments Pending {A}.

(** The parts of a [generateContent] request. *)
Inductive Part : Type :=
| inlineData (mimeType data : string)
| textPart (text : string).

Inductive RequestBody : Type :=
| NoBody
| Raw (bytes : string)
| JsonBody (fields : list (string * string)).

(** What a run does that its caller or the network can observe. *)
Inductive Event : Type :=
| Progress (status : string)
| Fetch (url method : string) (body : RequestBody)
| Delay (ms : Z)
| GenerateContent (apiKey model : string) (parts : list Part)
    (systemInstruction : option string)
| Yield (fragment : string).

(** A run: the events so far, oldest first, and how the run ends. *)
Definition M (A : Type) : Type := (list Event * Outcome A)%type.

Definition ret {A : Type} (a : A) : M A := ([], Returned a).
Definition throw {A : Type} (e : Error) : M A := ([], Threw e).
Definition pending {A : Type} : M A := ([], Pending).
Definition emit (e : Event) : M unit := ([e], Returned tt).

Definition bind {A B : Type} (m : M A) (k : A -> M B) : M B :=
  match m with
  | (t, Returned a) => let (t', r) := k a in (t ++ t', r)
  | (t, Threw e) => (t, Threw e)
  | (t, Pending) => (t, Pending)
  end.

(** [try { body } catch (error) { handler }]. *)
Definition try_catch {A : Type} (body : M A) (handler : Error -> M A) : M A :=
  match body with
  | (t, Threw e) => let (t', r) := handler e in (t ++ t', r)
  | settled => settled
  end.

(** [await p] for a promise that has already settled one way or the other. *)
Definition await {A : Type} (p : A + Error) : M A :=
  match p with
  | inl a => ret a
  | inr e => throw e
  end.

Definition events {A : Type} (m : M A) : list Event := fst m.
Definition outcome {A : Type} (m : M A) : Outcome A := snd m.

Module Notations.
Notation "x <- m ;; k" := (bind m (fun x => k))
  (at level 61, m at next level, right associativity).
Notation "m ;; k" := (bind m (fun _ => k))
  (at level 61, right associativity).
End Notations.

End Async.

(* ===================================================================== *)
(** * services/geminiService.ts *)
(* ===================================================================== *)

Module Gemini.

Import Js Async Async.Notations.

(** ** getApiKey and transcribeAudioFile *)

(** [process.env.API_KEY]: [None] when [process] is not defined (the read
    throws a ReferenceError, which [getApiKey] catches), otherwise the
    variable, which may itself be absent. *)
Definition getApiKey (process_env : option (option string)) : option string :=
  match process_env with
  | Some API_KEY => API_KEY
  | None => Some ""
  end.

(** A response, or a chunk of a streamed response: its [text] getter. *)
Module GenerateContentResponse.
Record t : Type := { text : option string }.
End GenerateContentResponse.

(** The generative text provider: its answer to one request. *)
Definition Provider : Type :=
  string -> string -> list Part -> option string ->
  Outcome GenerateContentResponse.t.

Definition generateContent (provider : Provider) (apiKey model : string)
    (parts : list Part) (systemInstruction : option string)
    : M GenerateContentResponse.t :=
  ([GenerateContent apiKey model parts systemInstruction],
   provider apiKey model parts systemInstruction).

Definition transcribeAudioFile (provider : Provider)
    (process_env : option (option string))
    (base64Data mimeType : string) (apiKey : option string) : M string :=
  let ai := or_else apiKey (or_else (getApiKey process_env) "") in
  response <-
    generateContent provider ai "gemini-2.0-flash"
      [ inlineData mimeType base64Data;
        textPart "Please provide a highly accurate word-for-word transcript of this audio. No summary, just text." ]
      None ;;
  ret (or_else (GenerateContentResponse.text response) "Transcription failed.").

(** ** The tone and language instructions of transformContentStream *)

(** [toneMap] and [languageMap] are object literals, so a property read
    that finds no own property continues in [Object.prototype]. *)
Definition Object_prototype : list string :=
  [ "constructor"; "__defineGetter__"; "__defineSetter__"; "hasOwnProperty";
    "__lookupGetter__"; "__lookupSetter__"; "isPrototypeOf";
    "propertyIsEnumerable"; "toString"; "valueOf"; "__proto__";
    "toLocaleString" ].

(** The value of a property read on such a literal: one of its own
    strings, or the member of [Object.prototype] of that name (a function,
    or for [__proto__] the prototype object itself). *)
Inductive Property : Type :=
| Own (s : string)
| Inherited (name : string).

Fixpoint own_property (obj : list (string * string)) (key : string)
    : option string :=
  match obj with
  | [] => None
  | (k, v) :: rest => if String.eqb k key then Some v else own_property rest key
  end.

Definition get_property (obj : list (string * string)) (key : string)
    : option Property :=
  match own_property obj key with
  | Some v => Some (Own v)
  | None =>
      if existsb (String.eqb key) Object_prototype
      then Some (Inherited key)
      else None
  end.

(** [v || w] on property values: functions and objects are truthy, the
    empty string and [undefined] are not. *)
Definition or_property (v w : option Property) : option Property :=
  match v with
  | Some (Own s) => if String.eqb s "" then w else v
  | Some (Inherited _) => v
  | None => w
  end.

Definition toneMap : list (string * string) :=
  [ ("professional", "Use a professional, business-appropriate tone.");
    ("casual", "Use a casual, relaxed conversational tone.");
    ("friendly", "Use a warm, friendly, and approachable tone.") ].

Definition languageMap : list (string * string) :=
  [ ("en", "Write the output in English.");
    ("zh", "Write the output in Simplified Chinese (中文).");
    ("ms", "Write the output in Bahasa Melayu.");
    ("ta", "Write the output in Tamil (தமிழ்).") ].

Record Options : Type := {
  summaryLength : option string;
  customPrompt : option string;
  tone : option string;
  language : option string;
  styleGuide : option string
}.

Definition toneInstruction (options : Options) : option Property :=
  or_property (get_property toneMap (or_else (tone options) "professional"))
              (get_property toneMap "professional").

Definition languageInstruction (options : Options) : option Property :=
  or_property (get_property languageMap (or_else (language options) "en"))
              (get_property languageMap "en").

Definition styleInstruction (options : Options) : string :=
  match styleGuide options with
  | Some guide =>
      if String.eqb guide "" then ""
      else newline ++ newline
           ++ "ADDITIONAL STYLE GUIDE - Follow these custom writing style rules:"
           ++ newline ++ guide ++ newline ++ newline
  | None => ""
  end.

(** A property value inside a template literal.  The text of a built-in
    function is the engine's, so it is a parameter. *)
Definition render (native : string -> string) (p : option Property) : string :=
  match p with
  | Some (Own s) => s
  | Some (Inherited name) => native name
  | None => "undefined"
  end.

(** The system instruction before the switch on the format. *)
Definition systemInstruction (native : string -> string) (options : Options)
    : string :=
  "You are an expert content shaper. "
  ++ render native (toneInstruction options) ++ " "
  ++ render native (languageInstruction options)
  ++ styleInstruction options
  ++ " IMPORTANT: Output plain text only. Never use markdown formatting like **, ##, *, or any other markdown syntax. ".

(** What the switch on the format appends.  The two long templates, of
    the meeting notes and of the action items, are parameters. *)
Definition formatInstruction (meeting action_items : string)
    (format : string) (options : Options) : string :=
  if String.eqb format "BEAUTIFY" then
    "Clean filler words, fix grammar, keep meaning identical. Output clean plain text."
  else if String.eqb format "EMAIL" then
    let emailLength :=
      if strict_eq (summaryLength options) "SHORT" then
        "Keep it very brief - 2-3 sentences max. Just the essential message."
      else if strict_eq (summaryLength options) "MEDIUM" then
        "Keep it concise - one short paragraph."
      else "Can be more detailed but still professional and to the point." in
    "Transform this into an email format. Include a subject line at the top. "
    ++ emailLength
    ++ " CRITICAL: Do NOT add information that wasn't in the original. Do NOT make assumptions or elaborate beyond what was said. Only restructure what's given into email format. Plain text only."
  else if String.eqb format "SUMMARY" then
    let lengthDesc :=
      if strict_eq (summaryLength options) "SHORT" then "max 1-2 sentences"
      else if strict_eq (summaryLength options) "MEDIUM" then "2-3 sentences"
      else "one paragraph with key points" in
    "Summarize to " ++ lengthDesc
    ++ ". Only include what was actually said. Do NOT add assumptions. Plain text only."
  else if String.eqb format "SOCIAL" then
    "Create a social media post for LinkedIn/X. Use plain text with emojis for visual appeal. ONLY use information from the input - do NOT add assumptions or elaborate. Keep it under 280 characters. NO asterisks, NO markdown."
  else if String.eqb format "MEETING" then meeting
  else if String.eqb format "ACTION_ITEMS" then action_items
  else if String.eqb format "CUSTOM" then
    or_else (customPrompt options) "Polish the following text."
    ++ " Output plain text only."
  else "".

(** The streaming provider: the async iterable it resolves with, as the
    chunks it delivers and the error that ends the stream, if any. *)
Definition StreamProvider : Type :=
  string -> string -> list Part -> option string ->
  Outcome (list GenerateContentResponse.t * option Error).

Definition generateContentStream (provider : StreamProvider)
    (apiKey model : string) (parts : list Part)
    (systemInstruction : option string)
    : M (list GenerateContentResponse.t * option Error) :=
  ([GenerateContent apiKey model parts systemInstruction],
   provider apiKey model parts systemInstruction).

(** [for await (const chunk of result) yield chunk.text || ""]. *)
Fixpoint yield_chunks (chunks : list GenerateContentResponse.t) : M unit :=
  match chunks with
  | [] => ret tt
  | chunk :: rest =>
      emit (Yield (or_else (GenerateContentResponse.text chunk) "")) ;;
      yield_chunks rest
  end.

Definition transformContentStream (provider : StreamProvider)
    (native : string -> string) (meeting action_items : string)
    (process_env : option (option string))
    (text format : string) (options : Options) (apiKey : option string)
    : M unit :=
  let ai := or_else apiKey (or_else (getApiKey process_env) "") in
  let systemInstruction :=
    (systemInstruction native options
     ++ formatInstruction meeting action_items format options)%string in
  result <-
    generateContentStream provider ai "gemini-2.0-flash" [textPart text]
      (Some systemInstruction) ;;
  yield_chunks (fst result) ;;
  match snd result with
  | Some e => throw e
  | None => ret tt
  end.

(** ** createPcmBlob *)

Record PcmBlob : Type := {
  data : string;
  mimeType : string
}.

(** The value stored into [int16[i]]:
    [Math.max(-1, Math.min(1, data[i])) * 32767], converted by the store. *)
Definition pcm_sample (x : number) : Z :=
  ToInt16 (mul (Math_max (of_Z (-1)) (Math_min (of_Z 1) x)) (of_Z 32767)).

Definition createPcmBlob (data : list number) : PcmBlob :=
  let l := List.length data in
  let int16 :=
    for_loop l 0
      (fun i int16 => store int16 i (pcm_sample (nth i data NaN)))
      (new_Int16Array l) in
  let uint8 := Uint8Array_of_buffer int16 in
  let binary :=
    for_loop (List.length uint8) 0
      (fun i binary => (binary ++ fromCharCode (nth i uint8 0))%string)
      "" in
  Build_PcmBlob (Base64.btoa binary) "audio/pcm;rate=16000".

End Gemini.

(* ===================================================================== *)
(** * The AssemblyAI client: batch workflow *)
(* ===================================================================== *)

Module Assembly.

Import Js Async Async.Notations.

Module DiarizedUtterance.
Record t : Type := {
  speaker : string;
  text : string;
  start : number;
  end_ : number;
  confidence : number
}.
End DiarizedUtterance.

Module Status.
Inductive t : Type := completed | error.
End Status.

Module DiarizedTranscript.
Record t : Type := {
  text : string;
  utterances : list DiarizedUtterance.t;
  speakers : list string;
  status : Status.t;
  error : option string
}.
End DiarizedTranscript.

(** An element of the [utterances] array of a status reply. *)
Module RawUtterance.
Record t : Type := {
  speaker : string;
  text : string;
  start : number;
  end_ : number;
  confidence : number
}.
End RawUtterance.

(** The JSON body of a reply of the proxy.  A property the code guards
    with [||] or compares may be absent; the ones it copies without a
    guard have their declared type. *)
Module Payload.
Record t : Type := {
  error : option string;
  upload_url : option string;
  id : option string;
  status : option string;
  text : string;
  utterances : option (list RawUtterance.t)
}.
End Payload.

(** What [fetch] settles with: a rejection, or a response whose body
    either parses ([json()] resolves) or does not ([json()] rejects). *)
Record Response : Type := {
  ok : bool;
  json : Payload.t + Error
}.

Inductive Reply : Type :=
| NetworkError (e : Error)
| Http (response : Response).

(** The remote service as the run sees it: for each endpoint the replies
    it gives, in order.  A request past the end of a list never settles. *)
Record Remote : Type := {
  upload : list Reply;
  transcribe : list Reply;
  poll : list Reply
}.

Definition Blob : Type := string.

Definition fetch (url method : string) (body : RequestBody)
    (reply : option Reply) : M Response :=
  emit (Fetch url method body) ;;
  match reply with
  | None => pending
  | Some (NetworkError e) => throw e
  | Some (Http response) => ret response
  end.

Definition uploadAudio (remote : Remote) (audioBlob : Blob)
    : M (option string) :=
  response <-
    fetch "/api/assembly-upload" "POST" (Raw audioBlob)
      (hd_error (upload remote)) ;;
  if negb (ok response) then
    error <- await (json response) ;;
    throw (new_Error (or_else (Payload.error error) "Upload failed"))
  else
    data <- await (json response) ;;
    ret (Payload.upload_url data).

(** [JSON.stringify({ audio_url: audioUrl })] drops an undefined value. *)
Definition audio_url_body (audioUrl : option string) : RequestBody :=
  match audioUrl with
  | Some u => JsonBody [("audio_url", u)]
  | None => JsonBody []
  end.

Definition startTranscription (remote : Remote) (audioUrl : option string)
    : M (option string) :=
  response <-
    fetch "/api/assembly-transcribe" "POST" (audio_url_body audioUrl)
      (hd_error (transcribe remote)) ;;
  if negb (ok response) then
    error <- await (json response) ;;
    throw (new_Error (or_else (Payload.error error) "Transcription start failed"))
  else
    data <- await (json response) ;;
    ret (Payload.id data).

Definition status_url (transcriptId : option string) : string :=
  "/api/assembly-status?id=" ++ template transcriptId.

(** The [while (true)] loop of [pollTranscription], one iteration per
    reply of the status endpoint. *)
Fixpoint poll_loop (url : string) (replies : list Reply) : M Payload.t :=
  match replies with
  | [] => _ <- fetch url "GET" NoBody None ;; pending
  | reply :: later =>
      response <- fetch url "GET" NoBody (Some reply) ;;
      if negb (ok response) then
        error <- await (json response) ;;
        throw (new_Error (or_else (Payload.error error) "Polling failed"))
      else
        data <- await (json response) ;;
        if strict_eq (Payload.status data) "completed" then
          ret data
        else if strict_eq (Payload.status data) "error" then
          throw (new_Error
                   ("Transcription failed: " ++ template (Payload.error data)))
        else
          emit (Delay 3000) ;;
          poll_loop url later
  end.

Definition pollTranscription (remote : Remote) (transcriptId : option string)
    : M Payload.t :=
  poll_loop (status_url transcriptId) (poll remote).

(** [new Set(values)], as the array a spread of it gives: the values in
    the order of their first occurrence. *)
Definition Set_add (set : list string) (v : string) : list string :=
  if existsb (String.eqb v) set then set else set ++ [v].

Definition new_Set (values : list string) : list string :=
  fold_left Set_add values [].

(** [array.sort()] with the default comparison of strings, code unit by
    code unit.  The order is total, so every sorting algorithm gives the
    result of this insertion sort. *)
Fixpoint sort_insert (v : string) (sorted : list string) : list string :=
  match sorted with
  | [] => [v]
  | w :: rest =>
      match SortCompare v w with
      | Gt => w :: sort_insert v rest
      | _ => v :: sorted
      end
  end.

Definition sort (array : list string) : list string :=
  fold_right sort_insert [] array.

(** [onProgress?.(status)]: the callback, when there is one, is told. *)
Definition report (onProgress : bool) (status : string) : M unit :=
  if onProgress then emit (Progress status) else ret tt.

Definition format_utterance (u : RawUtterance.t) : DiarizedUtterance.t :=
  {| DiarizedUtterance.speaker := RawUtterance.speaker u;
     DiarizedUtterance.text := RawUtterance.text u;
     DiarizedUtterance.start := RawUtterance.start u;
     DiarizedUtterance.end_ := RawUtterance.end_ u;
     DiarizedUtterance.confidence := RawUtterance.confidence u |}.

(** Step 4 of the workflow: the transcript made from the payload the
    poll returned. *)
Definition format_result (result : Payload.t) : DiarizedTranscript.t :=
  let utterances :=
    map format_utterance
      (match Payload.utterances result with Some us => us | None => [] end) in
  let speakers := sort (new_Set (map DiarizedUtterance.speaker utterances)) in
  {| DiarizedTranscript.text := Payload.text result;
     DiarizedTranscript.utterances := utterances;
     DiarizedTranscript.speakers := speakers;
     DiarizedTranscript.status := Status.completed;
     DiarizedTranscript.error := None |}.

(** The body of the [try] block. *)
Definition workflow (remote : Remote) (audioFile : Blob) (onProgress : bool)
    : M DiarizedTranscript.t :=
  report onProgress "Uploading audio..." ;;
  uploadUrl <- uploadAudio remote audioFile ;;
  report onProgress "Starting speaker detection..." ;;
  transcriptId <- startTranscription remote uploadUrl ;;
  report onProgress "Processing audio (this may take a moment)..." ;;
  result <- pollTranscription remote transcriptId ;;
  ret (format_result result).

(** The object the [catch] clause returns. *)
Definition failed (error : Error) : DiarizedTranscript.t :=
  {| DiarizedTranscript.text := "";
     DiarizedTranscript.utterances := [];
     DiarizedTranscript.speakers := [];
     DiarizedTranscript.status := Status.error;
     DiarizedTranscript.error := Some (message error) |}.

Definition transcribeWithDiarization (remote : Remote) (audioFile : Blob)
    (onProgress : bool) : M DiarizedTranscript.t :=
  try_catch (workflow remote audioFile onProgress)
            (fun error => ret (failed error)).

Definition utterance_line (u : DiarizedUtterance.t) : string :=
  "Speaker " ++ DiarizedUtterance.speaker u ++ ": " ++ DiarizedUtterance.text u.

Definition formatDiarizedTranscript (result : DiarizedTranscript.t) : string :=
  match DiarizedTranscript.status result with
  | Status.error => "Error: " ++ template (DiarizedTranscript.error result)
  | Status.completed =>
      if (List.length (DiarizedTranscript.utterances result) =? 0)%nat then
        DiarizedTranscript.text result
      else
        join (newline ++ newline)
             (map utterance_line (DiarizedTranscript.utterances result))
  end.

End Assembly.

(* ===================================================================== *)
(** * The AssemblyAI client: realtime session *)
(* ===================================================================== *)

Module Realtime.

Import Js Async.

(** ** The audio frame handler *)

(** The value stored into [int16Data[i]]:
    [Math.max(-32768, Math.min(32767, inputData[i] * 32768))], converted
    by the store. *)
Definition frame_sample (x : number) : Z :=
  ToInt16 (Math_max (of_Z (-32768))
             (Math_min (of_Z 32767) (mul x (of_Z 32768)))).

(** The base64 text of one frame. *)
Definition frame_base64 (inputData : list number) : string :=
  let int16Data :=
    for_loop (List.length inputData) 0
      (fun i int16Data => store int16Data i (frame_sample (nth i inputData NaN)))
      (new_Int16Array (List.length inputData)) in
  let uint8 := Uint8Array_of_buffer int16Data in
  let binary :=
    for_loop (List.length uint8) 0
      (fun i binary => (binary ++ fromCharCode (nth i uint8 0))%string)
      "" in
  Base64.btoa binary.

(** ** The message handler *)

(** The result of [JSON.parse]. *)
#[local] Unset Elimination Schemes.
Inductive JSON : Type :=
| JNull
| JBool (b : bool)
| JNumber (n : number)
| JString (s : string)
| JArray (items : list JSON)
| JObject (fields : list (string * JSON)).
#[local] Set Elimination Schemes.

Fixpoint field (fields : list (string * JSON)) (key : string) : option JSON :=
  match fields with
  | [] => None
  | (k, v) :: rest => if String.eqb k key then Some v else field rest key
  end.

(** [data.key] for one of the two keys the handler reads, neither of
    which a prototype defines: reading a property of [null] throws, a
    value that is not an object has no such property. *)
Definition get (data : JSON) (key : string) : Outcome (option JSON) :=
  match data with
  | JNull => Threw (new_Error "Cannot read properties of null")
  | JObject fields => Returned (field fields key)
  | JBool _ | JNumber _ | JString _ | JArray _ => Returned None
  end.

Definition truthy (v : option JSON) : bool :=
  match v with
  | None | Some JNull => false
  | Some (JBool b) => b
  | Some (JNumber (Fin q)) => negb (Qeq_bool q 0)
  | Some (JNumber NaN) => false
  | Some (JNumber _) => true
  | Some (JString s) => negb (String.eqb s "")
  | Some (JArray _) | Some (JObject _) => true
  end.

(** [v === s] for a string literal [s]. *)
Definition is_string (v : option JSON) (s : string) : bool :=
  match v with
  | Some (JString s') => String.eqb s' s
  | _ => false
  end.

(** The calls a handler makes to the callbacks of the caller. *)
Inductive Callback : Type :=
| onTranscript (text : option JSON) (isFinal : bool)
| onError (error : string).

(** [socket.onmessage], from the result of [JSON.parse(event.data)] on. *)
Definition onmessage (parsed : JSON + Error) : list Callback * Outcome unit :=
  match parsed with
  | inr syntax_error => ([], Threw syntax_error)
  | inl data =>
      match get data "message_type", get data "text" with
      | Returned message_type, Returned text =>
          if is_string message_type "FinalTranscript" && truthy text then
            ([onTranscript text true], Returned tt)
          else if is_string message_type "PartialTranscript" && truthy text then
            ([onTranscript text false], Returned tt)
          else
            ([], Returned tt)
      | Threw e, _ | _, Threw e => ([], Threw e)
      | _, _ => ([], Pending)
      end
  end.

(** [socket.onerror] and [socket.onclose]. *)
Definition onerror : list Callback := [onError "WebSocket connection error"].

Definition onclose (code : Z) (reason : string) : list Callback :=
  if code =? 1000 then []
  else [onError ("Connection closed: "
                   ++ (if String.eqb reason "" then "Unknown reason" else reason))].

(** ** The browser objects of a session *)

Inductive ReadyState : Type := CONNECTING | OPEN | CLOSING | CLOSED.

Inductive ClientMessage : Type :=
| audio_data (base64 : string)
| terminate_session.

Inductive TrackState : Type := live | ended.

Inductive Call : Type :=
| socket_send (m : ClientMessage)
| socket_close
| processor_disconnect
| source_disconnect
| audioContext_close
| track_stop (i : nat).

Record Browser : Type := {
  readyState : ReadyState;
  tracks : list TrackState;     (* the tracks of the microphone stream *)
  calls : list Call;            (* the calls made, oldest first *)
  sent : list ClientMessage;    (* the messages handed to the socket *)
  released : list nat;          (* the tracks released, oldest first *)
  closed : bool;                (* the audio context has been closed *)
  unhandled : list Error        (* the rejections of promises that
                                   nobody awaits, oldest first *)
}.

(** The variables the closures of a session share: [null] until the
    [onopen] handler has assigned them. *)
Record Variables : Type := {
  processor : bool;
  source : bool;
  audioContext : bool;
  stream : bool
}.

(** A statement: the browser after it, and whether it completed. *)
Definition Cmd : Type := Browser -> Browser * Outcome unit.

Definition skip : Cmd := fun b => (b, Returned tt).

Definition and_then (c1 c2 : Cmd) : Cmd :=
  fun b =>
    match c1 b with
    | (b', Returned _) => c2 b'
    | stopped => stopped
    end.

Definition is_open (s : ReadyState) : bool :=
  match s with OPEN => true | _ => false end.

Definition log (c : Call) (b : Browser) : Browser :=
  {| readyState := readyState b; tracks := tracks b;
     calls := calls b ++ [c]; sent := sent b; released := released b;
     closed := closed b; unhandled := unhandled b |}.

(** What a call does when the browser carries it out.  Sending on a
    socket that is still connecting throws; on a closing or closed socket
    the message is dropped.  Closing a socket, disconnecting a node and
    stopping a track that has ended change nothing when repeated.
    [audioContext.close()] marks the context closed and returns a
    promise; on a context already closed the call fails, by rejecting
    that promise with an [InvalidStateError].  The caller does not await
    the promise, so the failure is not an exception of the caller. *)
Definition effect (c : Call) (b : Browser) : Browser * Outcome unit :=
  match c with
  | socket_send m =>
      match readyState b with
      | CONNECTING => (b, Threw (new_Error "InvalidStateError"))
      | OPEN =>
          ({| readyState := OPEN; tracks := tracks b; calls := calls b;
              sent := sent b ++ [m]; released := released b;
              closed := closed b; unhandled := unhandled b |}, Returned tt)
      | CLOSING | CLOSED => (b, Returned tt)
      end
  | socket_close =>
      ({| readyState :=
            match readyState b with
            | CONNECTING | OPEN | CLOSING => CLOSING
            | CLOSED => CLOSED
            end;
          tracks := tracks b; calls := calls b; sent := sent b;
          released := released b;
          closed := closed b; unhandled := unhandled b |}, Returned tt)
  | processor_disconnect | source_disconnect => (b, Returned tt)
  | audioContext_close =>
      ({| readyState := readyState b; tracks := tracks b; calls := calls b;
          sent := sent b; released := released b;
          closed := true;
          unhandled :=
            if closed b
            then unhandled b ++ [new_Error "InvalidStateError"]
            else unhandled b |}, Returned tt)
  | track_stop i =>
      match nth_error (tracks b) i with
      | Some live =>
          ({| readyState := readyState b; tracks := store (tracks b) i ended;
              calls := calls b; sent := sent b;
              released := released b ++ [i];
              closed := closed b; unhandled := unhandled b |}, Returned tt)
      | _ => (b, Returned tt)
      end
  end.

(** A call under a fault assignment: a call the assignment makes fail
    throws and has no other effect. *)
Definition perform (faults : Call -> option Error) (c : Call) : Cmd :=
  fun b =>
    match faults c with
    | Some e => (log c b, Threw e)
    | None => effect c (log c b)
    end.

Definition no_faults : Call -> option Error := fun _ => None.

(** [array.forEach(f)]. *)
Fixpoint forEach {A : Type} (array : list A) (f : A -> Cmd) : Cmd :=
  match array with
  | [] => skip
  | a :: rest => and_then (f a) (forEach rest f)
  end.

(** [stream.getTracks()]: the tracks of the stream, by position. *)
Definition getTracks (b : Browser) : list nat :=
  List.seq 0 (List.length (tracks b)).

(** [stream.getTracks().forEach(track => track.stop())]. *)
Definition stop_tracks (faults : Call -> option Error) : Cmd :=
  fun b => forEach (getTracks b) (fun track => perform faults (track_stop track)) b.

(** [if (condition) c] and [if (socket.readyState === WebSocket.OPEN) c]. *)
Definition when (condition : bool) (c : Cmd) : Cmd :=
  if condition then c else skip.

Definition when_open (c : Cmd) : Cmd :=
  fun b => if is_open (readyState b) then c b else skip b.

Infix ">>" := and_then (at level 61, right associativity).

(** The [stop] function of the session.  A variable that is not [null]
    is an object, so [if (processor)] tests whether it is assigned. *)
Definition stop (faults : Call -> option Error) (vars : Variables) : Cmd :=
  when_open (perform faults (socket_send terminate_session)) >>
  perform faults socket_close >>
  when (processor vars) (perform faults processor_disconnect) >>
  when (source vars) (perform faults source_disconnect) >>
  when (audioContext vars) (perform faults audioContext_close) >>
  when (stream vars) (stop_tracks faults).

(** The audio frame handler: a frame is sent only on an open socket. *)
Definition onaudioprocess (faults : Call -> option Error)
    (inputData : list number) : Cmd :=
  when_open
    (perform faults (socket_send (audio_data (frame_base64 inputData)))).

End Realtime.

(* ===================================================================== *)
(** * The words of the specification *)
(* ===================================================================== *)

Module Spec.

Import Js.

(** The 16-bit signed integer range. *)
Definition int16_range (v : Z) : Prop := -32768 <= v <= 32767.

(** The binary string of a byte sequence, one character per byte. *)
Definition binary_of (uint8 : list Z) : string :=
  fold_right (fun b s => String (Base64.byte_char b) s) "" uint8.

(** A sample clamped to [-1, 1].  NaN has no clamped value. *)
Definition clamp (x : number) : option Q :=
  match x with
  | Fin q =>
      Some (if Qle_bool q (inject_Z (-1)) then inject_Z (-1)
            else if Qle_bool (inject_Z 1) q then inject_Z 1
            else q)
  | PosInf => Some (inject_Z 1)
  | NegInf => Some (inject_Z (-1))
  | NaN => None
  end.

(** [s] is within one least significant bit of the sample clamped and
    scaled to the 16-bit range; a NaN sample is encoded as silence. *)
Definition within_one_lsb (x : number) (s : Z) : Prop :=
  match clamp x with
  | Some c => (Qabs (inject_Z s - c * inject_Z 32767) <= 1)%Q
  | None => s = 0
  end.

(** The rendering of a transcript in status error, in the words of
    the specification: the error message. *)
Definition renders_error_message : Prop :=
  forall (t : Assembly.DiarizedTranscript.t) (message : string),
    Assembly.DiarizedTranscript.status t = Assembly.Status.error ->
    Assembly.DiarizedTranscript.error t = Some message ->
    Assembly.formatDiarizedTranscript t = message.

(** The order of [sort] on strings, by code units, and its strict
    part. *)
Definition string_le (a b : string) : Prop := SortCompare a b <> Gt.
Definition string_lt (a b : string) : Prop := SortCompare a b = Lt.

(** The code units of the first string come before those of the
    second. *)
Definition code_units_lt (a b : string) : Prop :=
  compare_units (code_units a) (code_units b) = Lt.

(** The UTF-8 bytes of a character. *)
Definition utf8 (cp : Z) : string :=
  if cp <? 128 then String (Base64.byte_char cp) ""
  else if cp <? 2048 then
    String (Base64.byte_char (192 + cp / 64))
      (String (Base64.byte_char (128 + cp mod 64)) "")
  else if cp <? 65536 then
    String (Base64.byte_char (224 + cp / 4096))
      (String (Base64.byte_char (128 + (cp / 64) mod 64))
         (String (Base64.byte_char (128 + cp mod 64)) ""))
  else
    String (Base64.byte_char (240 + cp / 262144))
      (String (Base64.byte_char (128 + (cp / 4096) mod 64))
         (String (Base64.byte_char (128 + (cp / 64) mod 64))
            (String (Base64.byte_char (128 + cp mod 64)) ""))).

(** A character: a code point that is no surrogate. *)
Definition character (cp : Z) : Prop :=
  0 <= cp <= 1114111 /\ ~ (55296 <= cp <= 57343).

(** A text: the UTF-8 bytes of a sequence of characters. *)
Definition text (s : string) : Prop :=
  exists cps : list Z,
    Forall character cps /\
    s = fold_right (fun cp r => (utf8 cp ++ r)%string) "" cps.

(** A reply of the status endpoint after which the poll goes on: a
    success whose body parses and reports neither terminal status. *)
Definition waiting (r : Assembly.Reply) : Prop :=
  exists data,
    r = Assembly.Http {| Assembly.ok := true; Assembly.json := inl data |} /\
    Js.strict_eq (Assembly.Payload.status data) "completed" = false /\
    Js.strict_eq (Assembly.Payload.status data) "error" = false.

(** A successful reply carrying the payload [data]. *)
Definition reply_with (data : Assembly.Payload.t) : Assembly.Reply :=
  Assembly.Http {| Assembly.ok := true; Assembly.json := inl data |}.

(** The delays of a run, oldest first. *)
Fixpoint delays (trace : list Async.Event) : list Z :=
  match trace with
  | [] => []
  | Async.Delay ms :: rest => ms :: delays rest
  | _ :: rest => delays rest
  end.

(** The requests of a run, oldest first. *)
Fixpoint fetches (trace : list Async.Event) : list string :=
  match trace with
  | [] => []
  | Async.Fetch url _ _ :: rest => url :: fetches rest
  | _ :: rest => fetches rest
  end.

(** The trace of a poll that meets [n] replies that are not terminal
    and then a terminal one. *)
Definition rounds (url : string) (n : nat) : list Async.Event :=
  List.concat
    (repeat [Async.Fetch url "GET" Async.NoBody; Async.Delay 3000] n)
  ++ [Async.Fetch url "GET" Async.NoBody].

(** One line per utterance, [Speaker <label>: <text>], in the order of
    the utterances, with an empty line between two lines. *)
Fixpoint lines (utterances : list Assembly.DiarizedUtterance.t) : string :=
  match utterances with
  | [] => ""
  | [u] =>
      "Speaker " ++ Assembly.DiarizedUtterance.speaker u ++ ": "
      ++ Assembly.DiarizedUtterance.text u
  | u :: rest =>
      ("Speaker " ++ Assembly.DiarizedUtterance.speaker u ++ ": "
       ++ Assembly.DiarizedUtterance.text u)
      ++ Js.newline ++ Js.newline ++ lines rest
  end.

(** The positions of the live tracks among [ts], which start at
    position [k]. *)
Fixpoint live_from (k : nat) (ts : list Realtime.TrackState) : list nat :=
  match ts with
  | [] => []
  | Realtime.live :: rest => k :: live_from (S k) rest
  | Realtime.ended :: rest => live_from (S k) rest
  end.

Definition live_tracks (ts : list Realtime.TrackState) : list nat :=
  live_from 0 ts.

(** The cleanup step of [stop] that fails: the close of the audio
    context, when there is one and it has been closed before. *)
Definition close_failure (vars : Realtime.Variables) (closed : bool)
    : list Async.Error :=
  if Realtime.audioContext vars && closed
  then [Async.new_Error "InvalidStateError"] else [].

(** The calls of one [stop], in order, for a session whose variables
    are [vars], on a socket in state [s] with [n] tracks. *)
Definition stop_calls (vars : Realtime.Variables) (s : Realtime.ReadyState)
    (n : nat) : list Realtime.Call :=
  (if Realtime.is_open s
   then [Realtime.socket_send Realtime.terminate_session] else [])
  ++ [Realtime.socket_close]
  ++ (if Realtime.processor vars then [Realtime.processor_disconnect] else [])
  ++ (if Realtime.source vars then [Realtime.source_disconnect] else [])
  ++ (if Realtime.audioContext vars then [Realtime.audioContext_close] else [])
  ++ (if Realtime.stream vars
      then map Realtime.track_stop (List.seq 0 n) else []).

(** A message of the given type with a text that is not falsy. *)
Definition carries (message_type : string) (text : Realtime.JSON)
    (data : Realtime.JSON) : Prop :=
  exists fields,
    data = Realtime.JObject fields /\
    Realtime.field fields "message_type"
    = Some (Realtime.JString message_type) /\
    Realtime.field fields "text" = Some text /\
    Realtime.truthy (Some text) = true.

(** The relay the specification describes: every final transcript
    message reaches the callback, whatever its text. *)
Definition every_final_transcript_relayed : Prop :=
  forall (fields : list (string * Realtime.JSON)),
    Realtime.field fields "message_type"
    = Some (Realtime.JString "FinalTranscript") ->
    fst (Realtime.onmessage (inl (Realtime.JObject fields)))
    = [Realtime.onTranscript (Realtime.field fields "text") true].

(** A statement that ends either normally or at a call the fault
    assignment makes fail, which is then the last call made. *)
Definition ends_at_fault (faults : Realtime.Call -> option Async.Error)
    (c : Realtime.Cmd) : Prop :=
  forall b b' e,
    c b = (b', Async.Threw e) ->
    exists call prior,
      faults call = Some e /\ Realtime.calls b' = prior ++ [call].

End Spec.

(* ===================================================================== *)
(** * Concrete inputs *)
(* ===================================================================== *)

Module Examples.

Import Js Async.

(** ** The batch workflow *)

Definition utterance (speaker text : string) : Assembly.RawUtterance.t :=
  {| Assembly.RawUtterance.speaker := speaker;
     Assembly.RawUtterance.text := text;
     Assembly.RawUtterance.start := of_Z 0;
     Assembly.RawUtterance.end_ := of_Z 1000;
     Assembly.RawUtterance.confidence := Fin (9 # 10) |}.

(** A body of the proxy: the speakers B, A, B talk in turn. *)
Definition body (status : string) (error : option string)
    : Assembly.Payload.t :=
  {| Assembly.Payload.error := error;
     Assembly.Payload.upload_url := Some "https://cdn.example/upload/1";
     Assembly.Payload.id := Some "job-42";
     Assembly.Payload.status := Some status;
     Assembly.Payload.text := "hello there hi again";
     Assembly.Payload.utterances :=
       Some [utterance "B" "hello"; utterance "A" "there";
             utterance "B" "hi again"] |}.

(** A body reporting [status] and no error. *)
Definition payload (status : string) : Assembly.Payload.t :=
  body status None.

(** The body of a job that failed. *)
Definition failure : Assembly.Payload.t :=
  body "error" (Some "audio too short").

Definition reply (status : string) : Assembly.Reply :=
  Spec.reply_with (payload status).

(** A response with an error status code and an error text. *)
Definition rejected (error : string) : Assembly.Reply :=
  Assembly.Http
    {| Assembly.ok := false;
       Assembly.json := inl (body "" (Some error)) |}.

(** The job completes at the third poll. *)
Definition completing : Assembly.Remote :=
  {| Assembly.upload := [reply "uploaded"];
     Assembly.transcribe := [reply "queued"];
     Assembly.poll := [reply "processing"; reply "processing";
                       reply "completed"] |}.

(** A job whose speakers are labelled with the characters U+FF21, of
    the one code unit FF21, and U+1F600, of the code units D83D DE00. *)
Definition wide_labels : Assembly.Payload.t :=
  {| Assembly.Payload.error := None;
     Assembly.Payload.upload_url := None;
     Assembly.Payload.id := None;
     Assembly.Payload.status := Some "completed";
     Assembly.Payload.text := "";
     Assembly.Payload.utterances :=
       Some [utterance "Ａ" "hello"; utterance "😀" "hi"] |}.

Definition completing_wide : Assembly.Remote :=
  {| Assembly.upload := [reply "uploaded"];
     Assembly.transcribe := [reply "queued"];
     Assembly.poll := [Spec.reply_with wide_labels] |}.

(** The job fails at the second poll. *)
Definition failing : Assembly.Remote :=
  {| Assembly.upload := [reply "uploaded"];
     Assembly.transcribe := [reply "queued"];
     Assembly.poll := [reply "queued"; Spec.reply_with failure] |}.

(** The proxy refuses the upload. *)
Definition refusing : Assembly.Remote :=
  {| Assembly.upload := [rejected "quota exceeded"];
     Assembly.transcribe := [];
     Assembly.poll := [] |}.

(** The upload succeeds and the job start meets a network error. *)
Definition unreachable : Assembly.Remote :=
  {| Assembly.upload := [reply "uploaded"];
     Assembly.transcribe :=
       [Assembly.NetworkError (new_Error "Failed to fetch")];
     Assembly.poll := [] |}.

(** ** The realtime session *)

(** A session in use: an open socket, one live microphone track. *)
Definition streaming : Realtime.Browser :=
  {| Realtime.readyState := Realtime.OPEN;
     Realtime.tracks := [Realtime.live];
     Realtime.calls := [];
     Realtime.sent := [];
     Realtime.released := [];
     Realtime.closed := false;
     Realtime.unhandled := [] |}.

Definition assigned : Realtime.Variables :=
  {| Realtime.processor := true;
     Realtime.source := true;
     Realtime.audioContext := true;
     Realtime.stream := true |}.

Definition final_transcript (text : string) : Realtime.JSON :=
  Realtime.JObject
    [ ("message_type", Realtime.JString "FinalTranscript");
      ("text", Realtime.JString text) ].

Definition session_begins : Realtime.JSON :=
  Realtime.JObject
    [ ("message_type", Realtime.JString "SessionBegins") ].

(** ** The content transformation client *)

Definition options (tone language : option string) : Gemini.Options :=
  {| Gemini.summaryLength := None;
     Gemini.customPrompt := None;
     Gemini.tone := tone;
     Gemini.language := language;
     Gemini.styleGuide := None |}.

(** A provider that answers every request with an empty text. *)
Definition silent : Gemini.Provider :=
  fun _ _ _ _ => Returned {| Gemini.GenerateContentResponse.text := Some "" |}.

End Examples.

(* ===================================================================== *)
(** * The AssemblyAI client: token, availability, session start *)
(* ===================================================================== *)

Module Session.

Import Js Async Async.Notations.

Definition ASSEMBLY_REALTIME_URL : string :=
  "wss://api.assemblyai.com/v2/realtime/ws".

(** The JSON body of a reply of the token endpoint. *)
Module TokenBody.
Record t : Type := {
  error : option string;
  token : option string
}.
End TokenBody.

Record Response : Type := {
  ok : bool;
  json : TokenBody.t + Error
}.

Inductive Reply : Type :=
| NetworkError (e : Error)
| Http (response : Response).

(** [fetch] on the token endpoint; without a reply it never settles. *)
Definition fetch (url method : string) (body : RequestBody)
    (reply : option Reply) : M Response :=
  emit (Fetch url method body) ;;
  match reply with
  | None => pending
  | Some (NetworkError e) => throw e
  | Some (Http response) => ret response
  end.

Definition getRealtimeToken (reply : option Reply) : M (option string) :=
  response <- fetch "/api/assembly-token" "POST" NoBody reply ;;
  if negb (ok response) then
    error <- await (json response) ;;
    throw (new_Error
             (or_else (TokenBody.error error) "Failed to get realtime token"))
  else
    data <- await (json response) ;;
    ret (TokenBody.token data).

Definition checkAssemblyAvailable (reply : option Reply) : M bool :=
  try_catch
    (response <- fetch "/api/assembly-token" "POST" NoBody reply ;;
     ret (ok response))
    (fun _ => ret false).

(** The session [startRealtimeTranscription] returns, as the URL its
    socket connects to. *)
Record RealtimeSession : Type := { socket : string }.

(** [startRealtimeTranscription], up to the return of the session: the
    calls of [onError], and the run.  [WebSocket] tells whether the
    constructor throws for a URL. *)
Definition startRealtimeTranscription (reply : option Reply)
    (WebSocket : string -> option Error)
    : list Realtime.Callback * M RealtimeSession :=
  let body :=
    token <- getRealtimeToken reply ;;
    let url :=
      (ASSEMBLY_REALTIME_URL ++ "?sample_rate=16000&token="
       ++ template token)%string in
    match WebSocket url with
    | Some e => throw e
    | None => ret {| socket := url |}
    end in
  match body with
  | (t, Threw error) =>
      ([Realtime.onError (message error)], (t, Threw error))
  | settled => ([], settled)
  end.

(** ** The [onopen] handler *)

(** The calls of the handler that can fail. *)
Inductive SetupStep : Type :=
| getUserMedia
| new_AudioContext
| createMediaStreamSource
| createScriptProcessor
| source_connect
| processor_connect.

Definition assign_stream (vars : Realtime.Variables) : Realtime.Variables :=
  {| Realtime.processor := Realtime.processor vars;
     Realtime.source := Realtime.source vars;
     Realtime.audioContext := Realtime.audioContext vars;
     Realtime.stream := true |}.

Definition assign_audioContext (vars : Realtime.Variables)
    : Realtime.Variables :=
  {| Realtime.processor := Realtime.processor vars;
     Realtime.source := Realtime.source vars;
     Realtime.audioContext := true;
     Realtime.stream := Realtime.stream vars |}.

Definition assign_source (vars : Realtime.Variables) : Realtime.Variables :=
  {| Realtime.processor := Realtime.processor vars;
     Realtime.source := true;
     Realtime.audioContext := Realtime.audioContext vars;
     Realtime.stream := Realtime.stream vars |}.

Definition assign_processor (vars : Realtime.Variables)
    : Realtime.Variables :=
  {| Realtime.processor := true;
     Realtime.source := Realtime.source vars;
     Realtime.audioContext := Realtime.audioContext vars;
     Realtime.stream := Realtime.stream vars |}.

(** The microphone stream the user grants: [granted] live tracks. *)
Definition grant (granted : nat) (b : Realtime.Browser) : Realtime.Browser :=
  {| Realtime.readyState := Realtime.readyState b;
     Realtime.tracks := repeat Realtime.live granted;
     Realtime.calls := Realtime.calls b;
     Realtime.sent := Realtime.sent b;
     Realtime.released := Realtime.released b;
     Realtime.closed := Realtime.closed b;
     Realtime.unhandled := Realtime.unhandled b |}.

(** [new AudioContext(...)]: a context that has not been closed. *)
Definition create_context (b : Realtime.Browser) : Realtime.Browser :=
  {| Realtime.readyState := Realtime.readyState b;
     Realtime.tracks := Realtime.tracks b;
     Realtime.calls := Realtime.calls b;
     Realtime.sent := Realtime.sent b;
     Realtime.released := Realtime.released b;
     Realtime.closed := false;
     Realtime.unhandled := Realtime.unhandled b |}.

(** The state of the handler: the shared variables, the browser, the
    calls of [onError]. *)
Definition Setup : Type :=
  (Realtime.Variables * Realtime.Browser * list Realtime.Callback)%type.

(** The [catch] clause of the handler. *)
Definition microphone_failed (err : Error) (vars : Realtime.Variables)
    (b : Realtime.Browser) : Setup :=
  (vars, b,
   [Realtime.onError ("Microphone access failed: " ++ message err)]).

(** [socket.onopen], from the moment [getUserMedia] settles: each step
    that succeeds assigns its variable, the first that fails ends the
    handler in its [catch] clause. *)
Definition onopen (faults : SetupStep -> option Error) (granted : nat)
    (vars : Realtime.Variables) (b : Realtime.Browser) : Setup :=
  match faults getUserMedia with
  | Some err => microphone_failed err vars b
  | None =>
  let vars := assign_stream vars in
  let b := grant granted b in
  match faults new_AudioContext with
  | Some err => microphone_failed err vars b
  | None =>
  let vars := assign_audioContext vars in
  let b := create_context b in
  match faults createMediaStreamSource with
  | Some err => microphone_failed err vars b
  | None =>
  let vars := assign_source vars in
  match faults createScriptProcessor with
  | Some err => microphone_failed err vars b
  | None =>
  let vars := assign_processor vars in
  match faults source_connect with
  | Some err => microphone_failed err vars b
  | None =>
  match faults processor_connect with
  | Some err => microphone_failed err vars b
  | None => (vars, b, [])
  end end end end end end.

(** The variables of a session before [onopen] has run. *)
Definition unassigned : Realtime.Variables :=
  {| Realtime.processor := false;
     Realtime.source := false;
     Realtime.audioContext := false;
     Realtime.stream := false |}.

End Session.

(* ===================================================================== *)
(** * App.tsx: the recording clock and the transform handler *)
(* ===================================================================== *)

Module App.

Import Js Async.

(** [n.toString()] for a non-negative integer. *)
Definition toString (n : nat) : string :=
  NilEmpty.string_of_uint (Nat.to_uint n).

(** [s.padStart(targetLength, c)] for a one-character [c]. *)
Definition padStart (s : string) (targetLength : nat) (c : ascii) : string :=
  string_of_list_ascii (repeat c (targetLength - String.length s)) ++ s.

Definition formatTime (seconds : nat) : string :=
  let mins := (seconds / 60)%nat in
  let secs := (seconds mod 60)%nat in
  padStart (toString mins) 2 "0" ++ ":" ++ padStart (toString secs) 2 "0".

(** The fragments a consumer of a stream receives, oldest first. *)
Fixpoint fragments (trace : list Event) : list string :=
  match trace with
  | [] => []
  | Yield fragment :: rest => fragment :: fragments rest
  | _ :: rest => fragments rest
  end.

(** The part of the component state the handler reads and sets. *)
Record State : Type := {
  transcript : string;
  outputFormat : string;
  summaryLength : option string;
  tone : option string;
  language : option string;
  styleGuide : option string;
  transformedOutput : string;
  error : string;
  isTransforming : bool
}.

Definition set_output (output : string) (s : State) : State :=
  {| transcript := transcript s; outputFormat := outputFormat s;
     summaryLength := summaryLength s; tone := tone s;
     language := language s; styleGuide := styleGuide s;
     transformedOutput := output; error := error s;
     isTransforming := isTransforming s |}.

Definition set_error (message : string) (s : State) : State :=
  {| transcript := transcript s; outputFormat := outputFormat s;
     summaryLength := summaryLength s; tone := tone s;
     language := language s; styleGuide := styleGuide s;
     transformedOutput := transformedOutput s; error := message;
     isTransforming := isTransforming s |}.

Definition set_transforming (flag : bool) (s : State) : State :=
  {| transcript := transcript s; outputFormat := outputFormat s;
     summaryLength := summaryLength s; tone := tone s;
     language := language s; styleGuide := styleGuide s;
     transformedOutput := transformedOutput s; error := error s;
     isTransforming := flag |}.

(** The call of [transformContentStream] the handler makes.  [apiKey] is
    the key literal of the source. *)
Definition stream_of (provider : Gemini.StreamProvider)
    (native : string -> string) (meeting action_items : string)
    (process_env : option (option string)) (apiKey : string) (s : State)
    : M unit :=
  Gemini.transformContentStream provider native meeting action_items
    process_env (transcript s) (outputFormat s)
    {| Gemini.summaryLength := summaryLength s;
       Gemini.customPrompt := None;
       Gemini.tone := tone s;
       Gemini.language := language s;
       Gemini.styleGuide := styleGuide s |}
    (Some apiKey).

(** [handleTransform]: the state it leaves and the requests it makes. *)
Definition handleTransform (provider : Gemini.StreamProvider)
    (native : string -> string) (meeting action_items : string)
    (process_env : option (option string)) (apiKey : string) (s : State)
    : State * list Event :=
  if String.eqb (transcript s) "" then (s, [])
  else
    let s := set_transforming true s in
    let s := set_output "" s in
    let s := set_error "" s in
    let stream :=
      stream_of provider native meeting action_items process_env apiKey s in
    let s :=
      fold_left
        (fun s chunk => set_output (transformedOutput s ++ chunk) s)
        (fragments (events stream)) s in
    match outcome stream with
    | Returned _ => (set_transforming false s, events stream)
    | Threw _ =>
        (set_transforming false (set_error "Failed to transform content." s),
         events stream)
    | Pending => (s, events stream)
    end.

End App.

(* ===================================================================== *)
(** * The app: recording with the speech recognition of the browser *)
(* ===================================================================== *)

Module Recorder.

Import Js Async.

(** [event.results[i]]: [isFinal] and the text of its first alternative,
    [event.results[i][0].transcript]. *)
Module SpeechRecognitionResult.
Record t : Type := { isFinal : bool; transcript : string }.
End SpeechRecognitionResult.

Module SpeechRecognitionEvent.
Record t : Type := {
  resultIndex : nat;
  results : list SpeechRecognitionResult.t
}.
End SpeechRecognitionEvent.

(** [recognition.onresult]: from the value of the variable
    [finalTranscript] of [startRecording], its new value and the text
    given to [setTranscript]. *)
Definition onresult (event : SpeechRecognitionEvent.t)
    (finalTranscript : string) : string * string :=
  let body (i : nat) (vars : string * string) : string * string :=
    let (finalTranscript, interimTranscript) := vars in
    match nth_error (SpeechRecognitionEvent.results event) i with
    | Some result =>
        if SpeechRecognitionResult.isFinal result
        then ((finalTranscript
               ++ (SpeechRecognitionResult.transcript result ++ " "))%string,
              interimTranscript)
        else (finalTranscript,
              (interimTranscript
               ++ SpeechRecognitionResult.transcript result)%string)
    | None => vars
    end in
  let (finalTranscript, interimTranscript) :=
    for_loop
      (List.length (SpeechRecognitionEvent.results event)
       - SpeechRecognitionEvent.resultIndex event)
      (SpeechRecognitionEvent.resultIndex event)
      body (finalTranscript, "") in
  (finalTranscript, (finalTranscript ++ interimTranscript)%string).

(** The result events of one recording, oldest first: the variable
    [finalTranscript] and the transcript shown after the last of them. *)
Fixpoint listen (events : list SpeechRecognitionEvent.t)
    (finalTranscript transcript : string) : string * string :=
  match events with
  | [] => (finalTranscript, transcript)
  | event :: rest =>
      let (finalTranscript, transcript) := onresult event finalTranscript in
      listen rest finalTranscript transcript
  end.

(** The calls the recorder makes on the browser. *)
Inductive Call : Type :=
| getUserMedia
| new_SpeechRecognition
| recognition_start
| recognition_stop.

(** The state of the component the recorder reads and sets, the
    reference [recognitionRef.current] (set or null) and the calls made
    so far, oldest first. *)
Record State : Type := {
  isRecording : bool;
  error : string;
  recognitionRef : bool;
  calls : list Call
}.

Definition setIsRecording (flag : bool) (s : State) : State :=
  {| isRecording := flag; error := error s;
     recognitionRef := recognitionRef s; calls := calls s |}.

Definition setError (text : string) (s : State) : State :=
  {| isRecording := isRecording s; error := text;
     recognitionRef := recognitionRef s; calls := calls s |}.

Definition set_recognitionRef (current : bool) (s : State) : State :=
  {| isRecording := isRecording s; error := error s;
     recognitionRef := current; calls := calls s |}.

Definition call (c : Call) (s : State) : State :=
  {| isRecording := isRecording s; error := error s;
     recognitionRef := recognitionRef s; calls := calls s ++ [c] |}.

(** The [catch] clause of [startRecording]. *)
Definition caught (err : Error) (s : State) : State :=
  setIsRecording false
    (setError (or_else (Some (message err)) "Microphone access denied.") s).

(** [startRecording].  [supported] tells whether the window has a
    speech recognition constructor, [media] how the promise of
    [getUserMedia] settles, and [faults] which of the synchronous calls
    throw. *)
Definition startRecording (supported : bool) (media : Outcome unit)
    (faults : Call -> option Error) (s : State) : State :=
  let s := setIsRecording true s in
  let s := setError "" s in
  if negb supported then
    setIsRecording false
      (setError "Speech recognition not supported. Try Chrome." s)
  else
    let s := call getUserMedia s in
    match media with
    | Pending => s
    | Threw err => caught err s
    | Returned _ =>
        let s := call new_SpeechRecognition s in
        match faults new_SpeechRecognition with
        | Some err => caught err s
        | None =>
            let s := set_recognitionRef true s in
            let s := call recognition_start s in
            match faults recognition_start with
            | Some err => caught err s
            | None => s
            end
        end
    end.

(** [recognition.onerror]. *)
Definition onerror (event_error : string) (s : State) : State :=
  let s :=
    if negb (String.eqb event_error "no-speech")
    then setError ("Recognition error: " ++ event_error)%string s
    else s in
  setIsRecording false s.

(** [stopRecording]. *)
Definition stopRecording (s : State) : State :=
  let s := setIsRecording false s in
  if recognitionRef s
  then set_recognitionRef false (call recognition_stop s)
  else s.

End Recorder.

(* ===================================================================== *)
(** * Notions used to state further properties *)
(* ===================================================================== *)

Module Props.

Import Js Async.

(** The progress reports of a run, oldest first. *)
Fixpoint reports (trace : list Event) : list string :=
  match trace with
  | [] => []
  | Progress status :: rest => status :: reports rest
  | _ :: rest => reports rest
  end.

(** The sample scaled by 32768 and clamped to the 16-bit range. *)
Definition scale_clamp (x : number) : option Q :=
  match x with
  | Fin q =>
      Some (if Qle_bool (q * (32768 # 1)) (-32768 # 1) then -32768 # 1
            else if Qle_bool (32767 # 1) (q * (32768 # 1)) then 32767 # 1
            else q * (32768 # 1))%Q
  | PosInf => Some (32767 # 1)%Q
  | NegInf => Some (-32768 # 1)%Q
  | NaN => None
  end.

Definition frame_within_one_lsb (x : number) (s : Z) : Prop :=
  match scale_clamp x with
  | Some c => (Qabs (inject_Z s - c) <= 1)%Q
  | None => s = 0
  end.

(** The text before the first colon, and the text after it. *)
Fixpoint split_colon (s : string) : string * option string :=
  match s with
  | EmptyString => ("", None)
  | String c rest =>
      if Ascii.eqb c ":" then ("", Some rest)
      else let (before, after) := split_colon rest in
           (String c before, after)
  end.

Definition parse_nat (s : string) : option nat :=
  option_map Nat.of_uint (NilEmpty.uint_of_string s).

(** Reading a clock text [m:s] back as seconds. *)
Definition parseTime (s : string) : option nat :=
  match split_colon s with
  | (mins, Some secs) =>
      match parse_nat mins, parse_nat secs with
      | Some m, Some n => Some (m * 60 + n)%nat
      | _, _ => None
      end
  | (_, None) => None
  end.

(** A reply of the proxy that is not a success with a body that parses:
    what the operation throws on it, given its own fallback message. *)
Definition rejection (fallback : string) (r : Assembly.Reply)
    : option Error :=
  match r with
  | Assembly.NetworkError e => Some e
  | Assembly.Http response =>
      match Assembly.json response with
      | inr e => Some e
      | inl body =>
          if Assembly.ok response then None
          else Some (new_Error (or_else (Assembly.Payload.error body) fallback))
      end
  end.

(** [-x]. *)
Definition negate (x : number) : number :=
  match x with
  | Fin q => Fin (- q)
  | PosInf => NegInf
  | NegInf => PosInf
  | NaN => NaN
  end.

(** A reply of the proxy that is a success with a body that parses. *)
Definition accepted (r : Assembly.Reply) : option Assembly.Payload.t :=
  match r with
  | Assembly.NetworkError _ => None
  | Assembly.Http response =>
      match Assembly.json response with
      | inl body => if Assembly.ok response then Some body else None
      | inr _ => None
      end
  end.

(** [onProgress?.(status)] as a piece of trace. *)
Definition reported (onProgress : bool) (status : string) : list Event :=
  if onProgress then [Progress status] else [].

(** The speaker labels of the utterances of a payload, in their order. *)
Definition labels (result : Assembly.Payload.t) : list string :=
  map Assembly.RawUtterance.speaker
    (match Assembly.Payload.utterances result with
     | Some us => us
     | None => []
     end).

(** The text of the results of an event the handler reads, those from
    [resultIndex] on: of the final ones, each followed by a space, and
    of the others. *)
Definition read (event : Recorder.SpeechRecognitionEvent.t)
    : list Recorder.SpeechRecognitionResult.t :=
  skipn (Recorder.SpeechRecognitionEvent.resultIndex event)
    (Recorder.SpeechRecognitionEvent.results event).

Definition confirmed (event : Recorder.SpeechRecognitionEvent.t) : string :=
  fold_right append ""
    (map (fun r => (Recorder.SpeechRecognitionResult.transcript r ++ " ")%string)
       (filter Recorder.SpeechRecognitionResult.isFinal (read event))).

Definition interim (event : Recorder.SpeechRecognitionEvent.t) : string :=
  fold_right append ""
    (map Recorder.SpeechRecognitionResult.transcript
       (filter (fun r => negb (Recorder.SpeechRecognitionResult.isFinal r))
          (read event))).

(** The options with another summary length. *)
Definition with_summaryLength (len : option string) (o : Gemini.Options)
    : Gemini.Options :=
  {| Gemini.summaryLength := len;
     Gemini.customPrompt := Gemini.customPrompt o;
     Gemini.tone := Gemini.tone o;
     Gemini.language := Gemini.language o;
     Gemini.styleGuide := Gemini.styleGuide o |}.

(** The requests to the model in a trace, oldest first. *)
Fixpoint requests (trace : list Event) : list Event :=
  match trace with
  | [] => []
  | GenerateContent apiKey model parts instruction :: rest =>
      GenerateContent apiKey model parts instruction :: requests rest
  | _ :: rest => requests rest
  end.

End Props.

(* ===================================================================== *)
(** * Further concrete inputs *)
(* ===================================================================== *)

Module Cases.

Import Js Async.

(** A body without any of the properties the client reads. *)
Definition bare : Assembly.Payload.t :=
  {| Assembly.Payload.error := None;
     Assembly.Payload.upload_url := None;
     Assembly.Payload.id := None;
     Assembly.Payload.status := None;
     Assembly.Payload.text := "";
     Assembly.Payload.utterances := None |}.

(** A completed job without utterances. *)
Definition done : Assembly.Payload.t :=
  {| Assembly.Payload.error := None;
     Assembly.Payload.upload_url := None;
     Assembly.Payload.id := None;
     Assembly.Payload.status := Some "completed";
     Assembly.Payload.text := "one voice only";
     Assembly.Payload.utterances := None |}.

(** A proxy that answers the upload and the job start with success and
    an empty body. *)
Definition careless : Assembly.Remote :=
  {| Assembly.upload := [Spec.reply_with bare];
     Assembly.transcribe := [Spec.reply_with bare];
     Assembly.poll := [Spec.reply_with done] |}.

(** A token reply. *)
Definition token_reply (ok : bool) (error token : option string)
    : Session.Reply :=
  Session.Http
    {| Session.ok := ok;
       Session.json := inl {| Session.TokenBody.error := error;
                              Session.TokenBody.token := token |} |}.

(** Setup faults: none, and a script processor that cannot be created. *)
Definition no_setup_faults : Session.SetupStep -> option Error :=
  fun _ => None.

Definition no_processor : Session.SetupStep -> option Error :=
  fun step =>
    match step with
    | Session.createScriptProcessor => Some (new_Error "NotSupportedError")
    | _ => None
    end.

(** A stream of three chunks, the second without text, cut by an error. *)
Definition chunk (text : option string) : Gemini.GenerateContentResponse.t :=
  {| Gemini.GenerateContentResponse.text := text |}.

Definition cut_stream : Gemini.StreamProvider :=
  fun _ _ _ _ =>
    Returned ([chunk (Some "Dear "); chunk None; chunk (Some "team")],
              Some (new_Error "stream reset")).

Definition editing : App.State :=
  {| App.transcript := "hey team";
     App.outputFormat := "EMAIL";
     App.summaryLength := Some "MEDIUM";
     App.tone := Some "professional";
     App.language := Some "en";
     App.styleGuide := None;
     App.transformedOutput := "an older output";
     App.error := "an older error";
     App.isTransforming := false |}.

Definition heard (isFinal : bool) (text : string)
    : Recorder.SpeechRecognitionResult.t :=
  {| Recorder.SpeechRecognitionResult.isFinal := isFinal;
     Recorder.SpeechRecognitionResult.transcript := text |}.

(** Two events of one recording: the second confirms the first result
    and carries a new interim one. *)
Definition first_event : Recorder.SpeechRecognitionEvent.t :=
  {| Recorder.SpeechRecognitionEvent.resultIndex := 0;
     Recorder.SpeechRecognitionEvent.results := [heard false "hello wor"] |}.

Definition second_event : Recorder.SpeechRecognitionEvent.t :=
  {| Recorder.SpeechRecognitionEvent.resultIndex := 0;
     Recorder.SpeechRecognitionEvent.results :=
       [heard true "hello world"; heard false "how"] |}.

Definition idle : Recorder.State :=
  {| Recorder.isRecording := false;
     Recorder.error := "an older error";
     Recorder.recognitionRef := false;
     Recorder.calls := [] |}.

Definition start_fails : Recorder.Call -> option Error :=
  fun c => match c with
           | Recorder.recognition_start => Some (new_Error "")
           | _ => None
           end.

Definition starts_well : Recorder.Call -> option Error := fun _ => None.

End Cases.

(* ===================================================================== *)
(** * Properties of the audio encoder *)
(* ===================================================================== *)

Section Loops.

Import Js.

Context {A : Type}.

Lemma store_middle (done : list A) (old v : A) (rest : list A) :
  store (done ++ old :: rest) (List.length done) v = done ++ v :: rest.
Proof.
  induction done as [|d done IH]; simpl; [reflexivity|].
  now rewrite IH.
Qed.

(** A loop that stores [f i] at every index fills the array with the
    values of [f], whatever the array held. *)
Lemma for_loop_store (f : nat -> A) (n : nat) :
  forall (done rest : list A),
    List.length rest = n ->
    for_loop n (List.length done) (fun i arr => store arr i (f i))
             (done ++ rest)
    = done ++ map f (List.seq (List.length done) n).
Proof.
  induction n as [|n IH]; intros done rest Hlen.
  - destruct rest; [|discriminate]. reflexivity.
  - destruct rest as [|old rest]; [discriminate|].
    simpl. rewrite store_middle.
    replace (done ++ f (List.length done) :: rest)
      with ((done ++ [f (List.length done)]) ++ rest)
      by (rewrite <- app_assoc; reflexivity).
    replace (S (List.length done))
      with (List.length (done ++ [f (List.length done)]))
      by (rewrite length_app; simpl; lia).
    rewrite IH by (simpl in Hlen; lia).
    rewrite <- app_assoc. reflexivity.
Qed.

Lemma map_nth_seq (g : A -> Z) (d : A) (l : list A) :
  map (fun i => g (nth i l d)) (List.seq 0 (List.length l)) = map g l.
Proof.
  induction l as [|a l IH]; [reflexivity|].
  simpl. f_equal. rewrite <- seq_shift, map_map. exact IH.
Qed.

End Loops.

Section Plumbing.

Import Js.

(** The conversion loop of the encoder is a map over the samples. *)
Lemma conversion_loop (g : number -> Z) (data : list number) :
  for_loop (List.length data) 0
    (fun i int16 => store int16 i (g (nth i data NaN)))
    (new_Int16Array (List.length data))
  = map g data.
Proof.
  pose proof (for_loop_store (fun i => g (nth i data NaN))
                (List.length data) [] (new_Int16Array (List.length data))) as H.
  simpl in H. rewrite H by apply repeat_length.
  apply map_nth_seq.
Qed.

Lemma append_assoc (a b c : string) : ((a ++ b) ++ c = a ++ (b ++ c))%string.
Proof. induction a; simpl; congruence. Qed.

Lemma append_empty_r (a : string) : (a ++ "" = a)%string.
Proof. induction a; simpl; congruence. Qed.

Lemma binary_loop_from (uint8 : list Z) :
  forall (n k : nat) (acc : string),
    (k + n = List.length uint8)%nat ->
    for_loop n k
      (fun i binary => (binary ++ fromCharCode (nth i uint8 0))%string) acc
    = (acc ++ Spec.binary_of (skipn k uint8))%string.
Proof.
  induction n as [|n IH]; intros k acc Hk.
  - rewrite skipn_all2 by lia. simpl. now rewrite append_empty_r.
  - simpl. rewrite IH by lia. rewrite append_assoc. f_equal.
    assert (Hlt : (k < List.length uint8)%nat) by lia.
    clear IH Hk. revert k Hlt.
    induction uint8 as [|b l IHl]; intros k Hlt; [simpl in Hlt; lia|].
    destruct k as [|k]; [reflexivity|].
    simpl. apply IHl. simpl in Hlt. lia.
Qed.

(** The string loop of the encoder appends one character per byte. *)
Lemma binary_loop (uint8 : list Z) :
  for_loop (List.length uint8) 0
    (fun i binary => (binary ++ fromCharCode (nth i uint8 0))%string) ""
  = Spec.binary_of uint8.
Proof. now rewrite binary_loop_from. Qed.

End Plumbing.

Section Base64Roundtrip.

Import Js Base64.

Lemma charCode_range (a : ascii) : 0 <= charCode a < 256.
Proof.
  unfold charCode. pose proof (N_ascii_bounded a). lia.
Qed.

Lemma byte_char_charCode (a : ascii) : byte_char (charCode a) = a.
Proof.
  unfold byte_char, charCode. rewrite N2Z.id. apply ascii_N_embedding.
Qed.

Lemma charCode_byte_char (b : Z) : 0 <= b < 256 -> charCode (byte_char b) = b.
Proof.
  intros Hb. unfold byte_char, charCode.
  rewrite N_ascii_embedding by lia. lia.
Qed.

(** Every 6-bit group has a character, which is not the padding and
    reads back as the group. *)
Lemma digits_checked :
  forallb (fun n => let s := Z.of_nat n in
             match value (digit s) with
             | Some s' => (s' =? s) && negb (Ascii.eqb (digit s) pad)
             | None => false
             end)
          (List.seq 0 64) = true.
Proof. vm_compute. reflexivity. Qed.

Lemma digit_spec (s : Z) :
  0 <= s < 64 ->
  value (digit s) = Some s /\ Ascii.eqb (digit s) pad = false.
Proof.
  intros Hs.
  pose proof (proj1 (forallb_forall _ _) digits_checked (Z.to_nat s)) as H.
  assert (Hin : In (Z.to_nat s) (List.seq 0 64)) by (apply in_seq; lia).
  specialize (H Hin). cbv beta zeta in H. rewrite Z2Nat.id in H by lia.
  destruct (value (digit s)) as [s'|]; [|discriminate].
  apply andb_true_iff in H. destruct H as [H1 H2].
  apply Z.eqb_eq in H1. subst s'.
  split; [reflexivity|]. now apply negb_true_iff.
Qed.

Lemma value_digit (s : Z) : 0 <= s < 64 -> value (digit s) = Some s.
Proof. intros H. apply (digit_spec s H). Qed.

Lemma digit_not_pad (s : Z) : 0 <= s < 64 -> Ascii.eqb (digit s) pad = false.
Proof. intros H. apply (digit_spec s H). Qed.

Lemma pad_is_pad : Ascii.eqb pad pad = true.
Proof. reflexivity. Qed.

(** Induction on a string three characters at a time. *)
Lemma string_ind3 (P : string -> Prop) :
  P "" ->
  (forall a, P (String a "")) ->
  (forall a b, P (String a (String b ""))) ->
  (forall a b c rest, P rest -> P (String a (String b (String c rest)))) ->
  forall s, P s.
Proof.
  intros H0 H1 H2 H3.
  assert (H : forall s, P s /\ (forall a, P (String a s))
                        /\ (forall a b, P (String a (String b s)))).
  { induction s as [|c s (IH0 & IH1 & IH2)].
    - repeat split; auto.
    - repeat split; auto. }
  intros s. apply (H s).
Qed.

Ltac sextets :=
  repeat match goal with
         | |- context [charCode ?a] =>
             let x := fresh "x" in
             let Hx := fresh "Hx" in
             pose proof (charCode_range a) as Hx;
             set (x := charCode a) in *; clearbody x
         end.

(** The test vectors of RFC 4648, both ways. *)
Example btoa_rfc4648 :
  map Base64.btoa ["f"; "fo"; "foo"; "foob"; "fooba"; "foobar"]
  = ["Zg=="; "Zm8="; "Zm9v"; "Zm9vYg=="; "Zm9vYmE="; "Zm9vYmFy"].
Proof. reflexivity. Qed.

Example decode_rfc4648 :
  map Base64.decode ["Zg=="; "Zm8="; "Zm9v"; "Zm9vYg=="; "Zm9vYmE="; "Zm9vYmFy"]
  = map Some ["f"; "fo"; "foo"; "foob"; "fooba"; "foobar"].
Proof. reflexivity. Qed.

Ltac divmod := Z.div_mod_to_equations; lia.

Ltac read_digits :=
  repeat match goal with
         | |- context [value (digit ?e)] => rewrite (value_digit e) by divmod
         end.

(** [decode] inverts [btoa] on every binary string. *)
Lemma decode_btoa (binary : string) : decode (btoa binary) = Some binary.
Proof.
  induction binary as [|a|a b|a b c rest IH] using string_ind3.
  - reflexivity.
  - replace (Some (String a ""))
      with (Some (String (byte_char (charCode a)) ""))
      by now rewrite byte_char_charCode.
    cbn [btoa decode]. cbv zeta. sextets.
    read_digits. rewrite pad_is_pad.
    do 2 f_equal. f_equal. divmod.
  - replace (Some (String a (String b "")))
      with (Some (String (byte_char (charCode a))
                    (String (byte_char (charCode b)) "")))
      by now rewrite !byte_char_charCode.
    cbn [btoa decode]. cbv zeta. sextets.
    read_digits. rewrite pad_is_pad.
    rewrite digit_not_pad by divmod.
    do 2 f_equal; [f_equal; divmod|]. do 2 f_equal. divmod.
  - replace (Some (String a (String b (String c rest))))
      with (Some (String (byte_char (charCode a))
                    (String (byte_char (charCode b))
                       (String (byte_char (charCode c)) rest))))
      by now rewrite !byte_char_charCode.
    cbn [btoa decode]. cbv zeta. sextets.
    read_digits.
    rewrite (digit_not_pad (x1 mod 64)) by divmod.
    rewrite IH.
    assert (E0 : x / 4 * 4 + (x mod 4 * 16 + x0 / 16) / 16 = x) by divmod.
    assert (E1 : (x mod 4 * 16 + x0 / 16) mod 16 * 16
                 + (x0 mod 16 * 4 + x1 / 64) / 4 = x0) by divmod.
    assert (E2 : (x0 mod 16 * 4 + x1 / 64) mod 4 * 64 + x1 mod 64 = x1) by divmod.
    rewrite E0, E1, E2.
    destruct (btoa rest); reflexivity.
Qed.

End Base64Roundtrip.

Section Truncation.

Import Js.

Lemma quot_rem_bounds (n d : Z) :
  0 < d ->
  (0 <= n -> d * (n ÷ d) <= n < d * (n ÷ d) + d) /\
  (n <= 0 -> d * (n ÷ d) - d < n <= d * (n ÷ d)).
Proof.
  intros Hd.
  pose proof (Z.quot_rem' n d) as E.
  split; intros Hn.
  - pose proof (Z.rem_bound_pos n d Hn Hd). lia.
  - pose proof (Z.rem_bound_pos_neg n d Hd Hn). lia.
Qed.

(** Rounding towards zero moves a non-negative number down by less than
    one and a non-positive number up by less than one. *)
Lemma truncate_nonneg (v : Q) :
  (0 <= v)%Q ->
  (inject_Z (truncate v) <= v)%Q /\ (v < inject_Z (truncate v) + 1)%Q.
Proof.
  destruct v as [n d]. unfold Qle, Qlt, truncate. simpl.
  intros Hn.
  destruct (quot_rem_bounds n (Zpos d) ltac:(lia)) as [H _].
  specialize (H ltac:(lia)). nia.
Qed.

Lemma truncate_nonpos (v : Q) :
  (v <= 0)%Q ->
  (inject_Z (truncate v) - 1 < v)%Q /\ (v <= inject_Z (truncate v))%Q.
Proof.
  destruct v as [n d]. unfold Qle, Qlt, truncate. simpl.
  intros Hn.
  destruct (quot_rem_bounds n (Zpos d) ltac:(lia)) as [_ H].
  specialize (H ltac:(lia)). nia.
Qed.

Lemma inject_Z_le (a b : Z) : (inject_Z a <= inject_Z b)%Q -> a <= b.
Proof. intros H. now rewrite <- Zle_Qle in H. Qed.

End Truncation.

Section Samples.

Import Js.

Lemma truncate_sign (v : Q) :
  ((0 <= v)%Q -> 0 <= truncate v) /\ ((v <= 0)%Q -> truncate v <= 0).
Proof.
  split; intros Hv.
  - destruct (truncate_nonneg v Hv) as [_ H].
    assert (H' : (inject_Z (-1) < inject_Z (truncate v))%Q)
      by (change (inject_Z (-1)) with (-1 # 1); lra).
    rewrite <- Zlt_Qlt in H'. lia.
  - destruct (truncate_nonpos v Hv) as [H _].
    assert (H' : (inject_Z (truncate v) < inject_Z 1)%Q)
      by (change (inject_Z 1) with (1 # 1); lra).
    rewrite <- Zlt_Qlt in H'. lia.
Qed.

(** Rounding towards zero changes a number by less than one. *)
Lemma truncate_close (v : Q) : (Qabs (inject_Z (truncate v) - v) <= 1)%Q.
Proof.
  apply Qabs_Qle_condition.
  destruct (Qlt_le_dec v 0) as [Hv | Hv].
  - destruct (truncate_nonpos v) as [H1 H2]; [lra|]. lra.
  - destruct (truncate_nonneg v Hv) as [H1 H2]. lra.
Qed.

(** Rounding towards zero keeps a number between two integers there. *)
Lemma truncate_between (lo hi : Z) (v : Q) :
  lo <= 0 <= hi ->
  (inject_Z lo <= v)%Q -> (v <= inject_Z hi)%Q ->
  lo <= truncate v <= hi.
Proof.
  intros Hz Hlo Hhi.
  destruct (truncate_sign v) as [Sp Sn].
  destruct (Qlt_le_dec v 0) as [Hv | Hv].
  - specialize (Sn ltac:(lra)).
    destruct (truncate_nonpos v) as [H1 H2]; [lra|].
    split; [|lia]. apply inject_Z_le. lra.
  - specialize (Sp Hv).
    destruct (truncate_nonneg v Hv) as [H1 H2].
    split; [lia|]. apply inject_Z_le. lra.
Qed.

Lemma wrap16_small (v : Z) : Spec.int16_range v -> wrap16 v = v.
Proof.
  unfold Spec.int16_range, wrap16. cbv zeta. intros Hv.
  destruct (32768 <=? v mod 65536) eqn:E;
    [apply Z.leb_le in E | apply Z.leb_gt in E];
    Z.div_mod_to_equations; lia.
Qed.

(** [Math.max(lo, Math.min(hi, v))] on finite numbers. *)
Lemma max_min_Fin (lo hi v : Q) :
  (lo <= hi)%Q ->
  exists a,
    Math_max (Fin lo) (Math_min (Fin hi) (Fin v)) = Fin a /\
    (lo <= a)%Q /\ (a <= hi)%Q /\
    ((v <= lo)%Q -> (a == lo)%Q) /\
    ((hi <= v)%Q -> (a == hi)%Q) /\
    ((lo <= v)%Q -> (v <= hi)%Q -> (a == v)%Q).
Proof.
  intros Hlh. unfold Math_max, Math_min.
  destruct (Qle_bool hi v) eqn:E1.
  - apply Qle_bool_iff in E1.
    destruct (Qle_bool lo hi) eqn:E2.
    + exists hi. repeat split; try lra; intros; lra.
    + assert (~ (lo <= hi)%Q) by (rewrite <- Qle_bool_iff; congruence).
      contradiction.
  - assert (H1 : (v < hi)%Q)
      by (apply Qnot_le_lt; rewrite <- Qle_bool_iff; congruence).
    destruct (Qle_bool lo v) eqn:E3.
    + apply Qle_bool_iff in E3.
      exists v. repeat split; try lra; intros; lra.
    + assert (H3 : (v < lo)%Q)
        by (apply Qnot_le_lt; rewrite <- Qle_bool_iff; congruence).
      exists lo. repeat split; try lra; intros; lra.
Qed.

(** The clamped value of the specification, by cases. *)
Lemma clamp_Fin (q : Q) :
  exists c,
    Spec.clamp (Fin q) = Some c /\
    ((q <= -1 # 1)%Q -> (c == -1 # 1)%Q) /\
    ((1 # 1 <= q)%Q -> (c == 1 # 1)%Q) /\
    ((-1 # 1 <= q)%Q -> (q <= 1 # 1)%Q -> (c == q)%Q).
Proof.
  unfold Spec.clamp.
  change (inject_Z (-1)) with (-1 # 1). change (inject_Z 1) with (1 # 1).
  eexists. split; [reflexivity|].
  destruct (Qle_bool q (-1 # 1)) eqn:E1.
  - apply Qle_bool_iff in E1. repeat split; intros; lra.
  - assert (H1 : (-1 # 1 < q)%Q)
      by (apply Qnot_le_lt; rewrite <- Qle_bool_iff; congruence).
    destruct (Qle_bool (1 # 1) q) eqn:E2.
    + apply Qle_bool_iff in E2. repeat split; intros; lra.
    + assert (H2 : (q < 1 # 1)%Q)
        by (apply Qnot_le_lt; rewrite <- Qle_bool_iff; congruence).
      repeat split; intros; lra.
Qed.

(** What the encoder stores for a finite sample: the truncation of the
    clamped sample times 32767. *)
Lemma pcm_sample_Fin (q : Q) :
  exists c',
    Gemini.pcm_sample (Fin q) = truncate (c' * (32767 # 1)) /\
    (-1 # 1 <= c')%Q /\ (c' <= 1 # 1)%Q /\
    ((q <= -1 # 1)%Q -> (c' == -1 # 1)%Q) /\
    ((1 # 1 <= q)%Q -> (c' == 1 # 1)%Q) /\
    ((-1 # 1 <= q)%Q -> (q <= 1 # 1)%Q -> (c' == q)%Q).
Proof.
  destruct (max_min_Fin (-1 # 1) (1 # 1) q ltac:(lra))
    as (c' & Hc & Hlo & Hhi & Hcases).
  exists c'. split; [|auto].
  unfold Gemini.pcm_sample, of_Z.
  change (inject_Z (-1)) with (-1 # 1). change (inject_Z 1) with (1 # 1).
  change (inject_Z 32767) with (32767 # 1).
  rewrite Hc. cbn [mul ToInt16].
  apply wrap16_small.
  assert (H : -32767 <= truncate (c' * (32767 # 1)) <= 32767).
  { apply truncate_between; [lia| |].
    - change (inject_Z (-32767)) with (-32767 # 1). lra.
    - change (inject_Z 32767) with (32767 # 1). lra. }
  unfold Spec.int16_range. lia.
Qed.

(** What the frame handler stores for a finite sample: the truncation of
    the sample times 32768, clamped to the 16-bit range. *)
Lemma frame_sample_Fin (q : Q) :
  exists a,
    Realtime.frame_sample (Fin q) = truncate a /\
    (-32768 # 1 <= a)%Q /\ (a <= 32767 # 1)%Q /\
    ((q * (32768 # 1) <= -32768 # 1)%Q -> (a == -32768 # 1)%Q) /\
    ((32767 # 1 <= q * (32768 # 1))%Q -> (a == 32767 # 1)%Q) /\
    ((-32768 # 1 <= q * (32768 # 1))%Q -> (q * (32768 # 1) <= 32767 # 1)%Q ->
     (a == q * (32768 # 1))%Q).
Proof.
  destruct (max_min_Fin (-32768 # 1) (32767 # 1) (q * (32768 # 1))
              ltac:(lra))
    as (a & Ha & Hlo & Hhi & Hcases).
  exists a. split; [|auto].
  unfold Realtime.frame_sample, of_Z.
  change (inject_Z (-32768)) with (-32768 # 1).
  change (inject_Z 32767) with (32767 # 1).
  change (inject_Z 32768) with (32768 # 1).
  cbn [mul]. rewrite Ha. cbn [ToInt16].
  apply wrap16_small.
  apply truncate_between; [lia| |].
  - change (inject_Z (-32768)) with (-32768 # 1). lra.
  - change (inject_Z 32767) with (32767 # 1). lra.
Qed.

(** Two numbers of the same sign that differ by at most one truncate to
    integers that differ by at most one. *)
Lemma truncate_neighbours (a b : Q) :
  ((0 <= a)%Q /\ (0 <= b)%Q) \/ ((a <= 0)%Q /\ (b <= 0)%Q) ->
  (-1 # 1 <= a - b)%Q -> (a - b <= 1 # 1)%Q ->
  -1 <= truncate a - truncate b <= 1.
Proof.
  intros Hsign Hlo Hhi.
  assert (K : forall x y : Z, (inject_Z x < inject_Z y + (2 # 1))%Q -> x <= y + 1).
  { intros x y H.
    assert (H' : (inject_Z x < inject_Z (y + 2))%Q).
    { rewrite inject_Z_plus. change (inject_Z 2) with (2 # 1). exact H. }
    rewrite <- Zlt_Qlt in H'. lia. }
  destruct Hsign as [[Ha Hb] | [Ha Hb]].
  - destruct (truncate_nonneg a Ha) as [A1 A2].
    destruct (truncate_nonneg b Hb) as [B1 B2].
    assert (truncate a <= truncate b + 1) by (apply K; lra).
    assert (truncate b <= truncate a + 1) by (apply K; lra).
    lia.
  - destruct (truncate_nonpos a Ha) as [A1 A2].
    destruct (truncate_nonpos b Hb) as [B1 B2].
    assert (truncate a <= truncate b + 1) by (apply K; lra).
    assert (truncate b <= truncate a + 1) by (apply K; lra).
    lia.
Qed.

End Samples.

Section Encoder.

Import Js.

Lemma pcm_sample_close (x : number) :
  Spec.within_one_lsb x (Gemini.pcm_sample x) /\
  Spec.int16_range (Gemini.pcm_sample x).
Proof.
  destruct x as [q| | |].
  - destruct (pcm_sample_Fin q) as (c' & Hs & Hlo & Hhi & C1 & C2 & C3).
    destruct (clamp_Fin q) as (c & Hc & D1 & D2 & D3).
    assert (Hcc : (c' == c)%Q).
    { destruct (Qlt_le_dec q (-1 # 1)); [|destruct (Qlt_le_dec (1 # 1) q)].
      - specialize (C1 ltac:(lra)). specialize (D1 ltac:(lra)). lra.
      - specialize (C2 ltac:(lra)). specialize (D2 ltac:(lra)). lra.
      - specialize (C3 ltac:(lra) ltac:(lra)).
        specialize (D3 ltac:(lra) ltac:(lra)). lra. }
    split.
    + unfold Spec.within_one_lsb. rewrite Hc, Hs.
      change (inject_Z 32767) with (32767 # 1).
      pose proof (truncate_close (c' * (32767 # 1))) as T.
      apply Qabs_Qle_condition in T. apply Qabs_Qle_condition. lra.
    + rewrite Hs.
      assert (H : -32767 <= truncate (c' * (32767 # 1)) <= 32767).
      { apply truncate_between; [lia| |].
        - change (inject_Z (-32767)) with (-32767 # 1). lra.
        - change (inject_Z 32767) with (32767 # 1). lra. }
      unfold Spec.int16_range. lia.
  - split; [|vm_compute; split; discriminate].
    unfold Spec.within_one_lsb. cbn [Spec.clamp].
    apply Qle_bool_iff. reflexivity.
  - split; [|vm_compute; split; discriminate].
    unfold Spec.within_one_lsb. cbn [Spec.clamp].
    apply Qle_bool_iff. reflexivity.
  - split; [reflexivity|vm_compute; split; discriminate].
Qed.

(** The bytes of the buffer read back as the stored samples. *)
Lemma int16_of_bytes_buffer (int16 : list Z) :
  Forall Spec.int16_range int16 ->
  Base64.int16_of_bytes (Spec.binary_of (Uint8Array_of_buffer int16))
  = Some int16.
Proof.
  induction 1 as [|v l Hv _ IH]; [reflexivity|].
  unfold Uint8Array_of_buffer in *. cbn [flat_map bytes_of_int16 app].
  cbv zeta. cbn [Spec.binary_of fold_right Base64.int16_of_bytes].
  fold (Spec.binary_of (flat_map bytes_of_int16 l)). rewrite IH.
  unfold Spec.int16_range in Hv.
  rewrite !charCode_byte_char by (Z.div_mod_to_equations; lia).
  do 2 f_equal.
  destruct (32768 <=? v mod 65536 mod 256 + 256 * (v mod 65536 / 256)) eqn:E;
    [apply Z.leb_le in E | apply Z.leb_gt in E];
    Z.div_mod_to_equations; lia.
Qed.

(** The payload of the encoder, as a function of the samples. *)
Lemma createPcmBlob_data (data : list number) :
  Gemini.data (Gemini.createPcmBlob data)
  = Base64.btoa
      (Spec.binary_of (Uint8Array_of_buffer (map Gemini.pcm_sample data))).
Proof.
  unfold Gemini.createPcmBlob. cbv zeta. cbn [Gemini.data].
  rewrite conversion_loop, binary_loop. reflexivity.
Qed.

Lemma frame_base64_data (inputData : list number) :
  Realtime.frame_base64 inputData
  = Base64.btoa
      (Spec.binary_of
         (Uint8Array_of_buffer (map Realtime.frame_sample inputData))).
Proof.
  unfold Realtime.frame_base64. cbv zeta.
  rewrite conversion_loop, binary_loop. reflexivity.
Qed.

(** C2.  For every sample buffer, of any length, the encoder returns the
    fixed MIME type and a base64 string that decodes to as many 16-bit
    little-endian signed samples as the buffer holds, each within one
    least significant bit of the sample clamped to [-1, 1] and scaled by
    32767 (a NaN sample is stored as 0); the string is a function of
    the samples alone, the base64 text of the bytes of the converted
    samples, which the loop appends one character at a time. *)
Theorem createPcmBlob_decodes_within_one_lsb :
  forall data : list number,
    Gemini.mimeType (Gemini.createPcmBlob data) = "audio/pcm;rate=16000" /\
    Gemini.data (Gemini.createPcmBlob data)
    = Base64.btoa
        (Spec.binary_of (Uint8Array_of_buffer (map Gemini.pcm_sample data))) /\
    exists samples : list Z,
      Base64.decode_pcm16le (Gemini.data (Gemini.createPcmBlob data))
      = Some samples /\
      List.length samples = List.length data /\
      Forall2 Spec.within_one_lsb data samples /\
      Forall Spec.int16_range samples.
Proof.
  intros data. split; [reflexivity|].
  split; [apply createPcmBlob_data|].
  exists (map Gemini.pcm_sample data).
  assert (R : Forall Spec.int16_range (map Gemini.pcm_sample data)).
  { apply Forall_map, Forall_forall. intros x _. apply pcm_sample_close. }
  repeat split.
  - rewrite createPcmBlob_data. unfold Base64.decode_pcm16le.
    rewrite decode_btoa. now apply int16_of_bytes_buffer.
  - apply length_map.
  - clear R. induction data as [|x data IH]; constructor; auto.
    apply pcm_sample_close.
  - exact R.
Qed.

(** The statement of C10 fails at the sample 0.5: the frame handler
    stores 16384 and the encoder 16383. *)
Lemma encoders_differ_at_half :
  ~ (forall x : number, Realtime.frame_sample x = Gemini.pcm_sample x).
Proof.
  intros H. specialize (H (Fin (1 # 2))). vm_compute in H. discriminate.
Qed.

(** C10, amended.  For every sample the 16-bit value of the frame
    handler and the one of the encoder differ by at most one; they are
    equal on NaN, on zero, on 1 and on +infinity.  The two encoders pack
    and encode the converted samples in the same way. *)
Theorem encoders_agree_within_one :
  (forall x : number,
     -1 <= Realtime.frame_sample x - Gemini.pcm_sample x <= 1) /\
  Realtime.frame_sample NaN = Gemini.pcm_sample NaN /\
  Realtime.frame_sample (Fin 0) = Gemini.pcm_sample (Fin 0) /\
  Realtime.frame_sample PosInf = Gemini.pcm_sample PosInf /\
  Realtime.frame_sample (Fin 1) = Gemini.pcm_sample (Fin 1) /\
  (forall samples : list number,
     Realtime.frame_base64 samples
     = Base64.btoa
         (Spec.binary_of
            (Uint8Array_of_buffer (map Realtime.frame_sample samples))) /\
     Gemini.data (Gemini.createPcmBlob samples)
     = Base64.btoa
         (Spec.binary_of
            (Uint8Array_of_buffer (map Gemini.pcm_sample samples)))).
Proof.
  split;
    [|repeat split; try reflexivity;
      [apply frame_base64_data | apply createPcmBlob_data]].
  intros [q| | |]; [|vm_compute; split; discriminate ..].
  destruct (frame_sample_Fin q) as (a & Ha & Alo & Ahi & A1 & A2 & A3).
  destruct (pcm_sample_Fin q) as (c' & Hb & Clo & Chi & C1 & C2 & C3).
  rewrite Ha, Hb.
  destruct (Qlt_le_dec q (-1 # 1)) as [Q1 | Q1].
  { specialize (A1 ltac:(lra)). specialize (C1 ltac:(lra)).
    apply truncate_neighbours; [right; lra | lra | lra]. }
  destruct (Qlt_le_dec q 0) as [Q2 | Q2].
  { specialize (A3 ltac:(lra) ltac:(lra)).
    specialize (C3 ltac:(lra) ltac:(lra)).
    apply truncate_neighbours; [right; lra | lra | lra]. }
  destruct (Qlt_le_dec (32767 # 1) (q * (32768 # 1))) as [Q3 | Q3].
  - specialize (A2 ltac:(lra)).
    destruct (Qlt_le_dec (1 # 1) q) as [Q4 | Q4].
    + specialize (C2 ltac:(lra)).
      apply truncate_neighbours; [left; lra | lra | lra].
    + specialize (C3 ltac:(lra) ltac:(lra)).
      apply truncate_neighbours; [left; lra | lra | lra].
  - specialize (A3 ltac:(lra) ltac:(lra)).
    specialize (C3 ltac:(lra) ltac:(lra)).
    apply truncate_neighbours; [left; lra | lra | lra].
Qed.

End Encoder.

(* ===================================================================== *)
(** * Properties of the batch workflow *)
(* ===================================================================== *)

Section Runs.

Import Async.

Context {A B : Type}.

Lemma outcome_bind (m : M A) (k : A -> M B) :
  outcome (bind m k)
  = match outcome m with
    | Returned a => outcome (k a)
    | Threw e => Threw e
    | Pending => Pending
    end.
Proof.
  destruct m as [t [a|e|]]; simpl; [|reflexivity..].
  destruct (k a); reflexivity.
Qed.

Lemma outcome_try_catch (m : M A) (h : Error -> M A) :
  outcome (try_catch m h)
  = match outcome m with
    | Threw e => outcome (h e)
    | settled => settled
    end.
Proof.
  destruct m as [t [a|e|]]; simpl; try reflexivity.
  destruct (h e); reflexivity.
Qed.

End Runs.

Section Polling.

Import Js Async Assembly.

Lemma outcome_report (onProgress : bool) (status : string) :
  outcome (report onProgress status) = Returned tt.
Proof. destruct onProgress; reflexivity. Qed.

(** One iteration of the poll on a reply that is not terminal: a request,
    a delay of three seconds, and the rest of the loop. *)
Lemma poll_loop_waiting (url : string) (r : Reply) (later : list Reply) :
  Spec.waiting r ->
  poll_loop url (r :: later)
  = (Fetch url "GET" NoBody :: Delay 3000 :: events (poll_loop url later),
     outcome (poll_loop url later)).
Proof.
  intros (data & -> & Hc & He).
  cbn [poll_loop]. unfold fetch, emit, bind, ret, await. cbn.
  rewrite Hc, He. cbn.
  destruct (poll_loop url later) as [t o]. destruct o; reflexivity.
Qed.

Lemma poll_loop_completed (url : string) (data : Payload.t)
    (later : list Reply) :
  Payload.status data = Some "completed" ->
  poll_loop url (Spec.reply_with data :: later)
  = ([Fetch url "GET" NoBody], Returned data).
Proof.
  intros Hs. cbn [poll_loop Spec.reply_with].
  unfold fetch, emit, bind, ret, await. cbn.
  rewrite Hs. reflexivity.
Qed.

Lemma poll_loop_error (url : string) (data : Payload.t) (later : list Reply) :
  Payload.status data = Some "error" ->
  poll_loop url (Spec.reply_with data :: later)
  = ([Fetch url "GET" NoBody],
     Threw (new_Error
              ("Transcription failed: " ++ template (Payload.error data)))).
Proof.
  intros Hs. cbn [poll_loop Spec.reply_with].
  unfold fetch, emit, bind, ret, await. cbn.
  rewrite Hs. reflexivity.
Qed.

Lemma delays_rounds (url : string) (n : nat) :
  Spec.delays (Spec.rounds url n) = repeat 3000 n.
Proof.
  unfold Spec.rounds. induction n as [|n IH]; [reflexivity|].
  cbn [repeat List.concat app Spec.delays]. now rewrite IH.
Qed.

Lemma fetches_rounds (url : string) (n : nat) :
  Spec.fetches (Spec.rounds url n) = repeat url (S n).
Proof.
  unfold Spec.rounds. induction n as [|n IH]; [reflexivity|].
  cbn [repeat List.concat app Spec.fetches] in *. now rewrite IH.
Qed.

(** The poll goes through any number of replies that are not terminal. *)
Lemma poll_loop_through (url : string) (before : list Reply)
    (rest : list Reply) (o : Outcome Payload.t) :
  Forall Spec.waiting before ->
  poll_loop url rest = ([Fetch url "GET" NoBody], o) ->
  poll_loop url (before ++ rest) = (Spec.rounds url (List.length before), o).
Proof.
  intros Hw Hrest. induction Hw as [|r before Hr _ IH]; [exact Hrest|].
  cbn [app]. rewrite (poll_loop_waiting url r _ Hr), IH. reflexivity.
Qed.

(** A poll that has met only replies that are not terminal is still
    waiting: it has not given up. *)
Lemma poll_loop_pending (url : string) (before : list Reply) :
  Forall Spec.waiting before ->
  outcome (poll_loop url before) = Pending.
Proof.
  induction 1 as [|r before Hr _ IH]; [reflexivity|].
  now rewrite (poll_loop_waiting url r _ Hr).
Qed.

End Polling.

Section Batch.

Import Js Async Assembly.

Lemma processing_is_waiting (data : Payload.t) :
  Payload.status data = Some "processing" ->
  Spec.waiting (Spec.reply_with data).
Proof.
  intros Hs. exists data. unfold strict_eq. rewrite Hs.
  repeat split; reflexivity.
Qed.

(** C5.  The poll asks for the status again after each reply that
    reports no terminal status, waiting 3000 ms in between, however many
    such replies there are: while it has met only such replies it is
    still pending; at the first reply with status completed it returns
    that payload, and at the first with status error it throws an error
    carrying the message of the provider, after as many delays as there
    were replies before.  For the replies processing, processing,
    completed it returns the third payload after exactly two delays. *)
Theorem pollTranscription_polls_until_terminal :
  forall (remote : Remote) (transcriptId : option string)
         (before : list Reply),
    Forall Spec.waiting before ->
    let url := status_url transcriptId in
    let run := pollTranscription remote transcriptId in
    (poll remote = before -> outcome run = Pending) /\
    (forall data later,
       poll remote = before ++ Spec.reply_with data :: later ->
       Payload.status data = Some "completed" ->
       run = (Spec.rounds url (List.length before), Returned data) /\
       Spec.delays (events run) = repeat 3000 (List.length before) /\
       Spec.fetches (events run) = repeat url (S (List.length before))) /\
    (forall data later,
       poll remote = before ++ Spec.reply_with data :: later ->
       Payload.status data = Some "error" ->
       run = (Spec.rounds url (List.length before),
              Threw (new_Error ("Transcription failed: "
                                ++ template (Payload.error data)))) /\
       Spec.delays (events run) = repeat 3000 (List.length before)) /\
    (forall first second third,
       poll remote
       = [Spec.reply_with first; Spec.reply_with second;
          Spec.reply_with third] ->
       Payload.status first = Some "processing" ->
       Payload.status second = Some "processing" ->
       Payload.status third = Some "completed" ->
       outcome run = Returned third /\
       Spec.delays (events run) = [3000; 3000]).
Proof.
  intros remote transcriptId before Hw url run.
  unfold run, pollTranscription. fold url.
  split; [|split; [|split]].
  - intros ->. now apply poll_loop_pending.
  - intros data later -> Hs.
    rewrite (poll_loop_through url before _ (Returned data) Hw
               (poll_loop_completed url data later Hs)).
    cbn [events fst]. rewrite delays_rounds, fetches_rounds. auto.
  - intros data later -> Hs.
    rewrite (poll_loop_through url before _ _ Hw
               (poll_loop_error url data later Hs)).
    cbn [events fst]. rewrite delays_rounds. auto.
  - intros first second third -> H1 H2 H3.
    change [Spec.reply_with first; Spec.reply_with second;
            Spec.reply_with third]
      with ([Spec.reply_with first; Spec.reply_with second]
              ++ [Spec.reply_with third]).
    rewrite (poll_loop_through url
               [Spec.reply_with first; Spec.reply_with second]
               [Spec.reply_with third] (Returned third)).
    + split; reflexivity.
    + repeat constructor; now apply processing_is_waiting.
    + now apply poll_loop_completed.
Qed.

(** The outcome of the [try] block, stage by stage. *)
Lemma workflow_outcome (remote : Remote) (audioFile : Blob)
    (onProgress : bool) :
  outcome (workflow remote audioFile onProgress)
  = match outcome (uploadAudio remote audioFile) with
    | Returned uploadUrl =>
        match outcome (startTranscription remote uploadUrl) with
        | Returned transcriptId =>
            match outcome (pollTranscription remote transcriptId) with
            | Returned result => Returned (format_result result)
            | Threw e => Threw e
            | Pending => Pending
            end
        | Threw e => Threw e
        | Pending => Pending
        end
    | Threw e => Threw e
    | Pending => Pending
    end.
Proof.
  unfold workflow.
  rewrite outcome_bind, outcome_report, outcome_bind.
  destruct (outcome (uploadAudio remote audioFile)) as [uploadUrl|e|];
    [|reflexivity..].
  rewrite outcome_bind, outcome_report, outcome_bind.
  destruct (outcome (startTranscription remote uploadUrl))
    as [transcriptId|e|]; [|reflexivity..].
  rewrite outcome_bind, outcome_report, outcome_bind.
  destruct (outcome (pollTranscription remote transcriptId));
    reflexivity.
Qed.

Lemma transcribeWithDiarization_outcome (remote : Remote) (audioFile : Blob)
    (onProgress : bool) :
  outcome (transcribeWithDiarization remote audioFile onProgress)
  = match outcome (workflow remote audioFile onProgress) with
    | Threw e => Returned (failed e)
    | settled => settled
    end.
Proof.
  unfold transcribeWithDiarization. rewrite outcome_try_catch.
  destruct (outcome (workflow remote audioFile onProgress)); reflexivity.
Qed.

(** C1.  The composite operation never throws.  A failure of the upload,
    of the job start or of the poll, whatever its cause, makes it resolve
    with the transcript of the catch clause, whose status is error and
    whose error field is the message of the failure; so does a poll that
    meets a reply with status error, with the message built from the
    error text of the provider. *)
Theorem transcribeWithDiarization_recovers :
  forall (remote : Remote) (audioFile : Blob) (onProgress : bool),
    let result :=
      outcome (transcribeWithDiarization remote audioFile onProgress) in
    let recovered (e : Error) :=
      exists t,
        result = Returned t /\
        DiarizedTranscript.status t = Status.error /\
        DiarizedTranscript.error t = Some (message e) /\
        DiarizedTranscript.utterances t = [] in
    (forall e, result <> Threw e) /\
    (forall e,
       outcome (uploadAudio remote audioFile) = Threw e -> recovered e) /\
    (forall uploadUrl e,
       outcome (uploadAudio remote audioFile) = Returned uploadUrl ->
       outcome (startTranscription remote uploadUrl) = Threw e ->
       recovered e) /\
    (forall uploadUrl transcriptId e,
       outcome (uploadAudio remote audioFile) = Returned uploadUrl ->
       outcome (startTranscription remote uploadUrl) = Returned transcriptId ->
       outcome (pollTranscription remote transcriptId) = Threw e ->
       recovered e) /\
    (forall uploadUrl transcriptId before data later,
       outcome (uploadAudio remote audioFile) = Returned uploadUrl ->
       outcome (startTranscription remote uploadUrl) = Returned transcriptId ->
       Forall Spec.waiting before ->
       poll remote = before ++ Spec.reply_with data :: later ->
       Payload.status data = Some "error" ->
       recovered (new_Error ("Transcription failed: "
                             ++ template (Payload.error data)))).
Proof.
  intros remote audioFile onProgress result recovered.
  assert (Hrec : forall e,
             outcome (workflow remote audioFile onProgress) = Threw e ->
             recovered e).
  { intros e He. exists (failed e). unfold result.
    rewrite transcribeWithDiarization_outcome, He. auto. }
  split; [|split; [|split; [|split]]].
  - intros e. unfold result. rewrite transcribeWithDiarization_outcome.
    destruct (outcome (workflow remote audioFile onProgress)); discriminate.
  - intros e Hu. apply Hrec. now rewrite workflow_outcome, Hu.
  - intros uploadUrl e Hu Hs. apply Hrec.
    now rewrite workflow_outcome, Hu, Hs.
  - intros uploadUrl transcriptId e Hu Hs Hp. apply Hrec.
    now rewrite workflow_outcome, Hu, Hs, Hp.
  - intros uploadUrl transcriptId before data later Hu Hs Hw Hpoll Herr.
    apply Hrec. rewrite workflow_outcome, Hu, Hs.
    unfold pollTranscription. rewrite Hpoll.
    rewrite (poll_loop_through _ before _ _ Hw
               (poll_loop_error _ data later Herr)).
    reflexivity.
Qed.

End Batch.

Section CodeUnitOrder.

Import Js.

Lemma compare_units_refl (x : list Z) : compare_units x x = Eq.
Proof.
  induction x as [|a x IH]; [reflexivity|].
  cbn [compare_units]. now rewrite Z.compare_refl.
Qed.

Lemma compare_units_eq (x : list Z) :
  forall y, compare_units x y = Eq -> x = y.
Proof.
  induction x as [|a x IH]; intros [|b y]; cbn [compare_units];
    try discriminate; [reflexivity|].
  destruct (Z.compare_spec a b) as [->|_|_]; try discriminate.
  intros H. now rewrite (IH y H).
Qed.

Lemma compare_units_antisym (x : list Z) :
  forall y, compare_units y x = CompOpp (compare_units x y).
Proof.
  induction x as [|a x IH]; intros [|b y]; cbn [compare_units];
    try reflexivity.
  rewrite (Z.compare_antisym a b).
  destruct (a ?= b); cbn [CompOpp]; [apply IH | reflexivity..].
Qed.

Lemma compare_units_trans (x : list Z) :
  forall y z,
    compare_units x y = Lt -> compare_units y z = Lt ->
    compare_units x z = Lt.
Proof.
  induction x as [|a x IH]; intros [|b y] [|c z]; cbn [compare_units];
    try congruence.
  destruct (Z.compare_spec a b) as [->|Hab|Hab]; try discriminate.
  - destruct (b ?= c); try discriminate; [apply IH | reflexivity].
  - intros _.
    destruct (Z.compare_spec b c) as [->|Hbc|Hbc]; try discriminate.
    + intros _. now rewrite (proj2 (Z.compare_lt_iff a c) Hab).
    + intros _. now rewrite (proj2 (Z.compare_lt_iff a c)) by lia.
Qed.

Lemma compare_lt_trans (a b c : string) :
  String.compare a b = Lt -> String.compare b c = Lt ->
  String.compare a c = Lt.
Proof.
  revert b c. induction a as [|x a IH]; intros [|y b] [|z c]; simpl;
    try congruence.
  unfold Ascii.compare.
  destruct (N.compare_spec (N_of_ascii x) (N_of_ascii y)) as [E1|L1|G1];
    destruct (N.compare_spec (N_of_ascii y) (N_of_ascii z)) as [E2|L2|G2];
    destruct (N.compare_spec (N_of_ascii x) (N_of_ascii z)) as [E3|L3|G3];
    try congruence; try lia; eauto.
Qed.

Lemma compare_refl (a : string) : String.compare a a = Eq.
Proof.
  induction a as [|x a IH]; simpl; [reflexivity|].
  unfold Ascii.compare. now rewrite N.compare_refl.
Qed.

(** The comparison of [sort] is that of a total order. *)
Lemma SortCompare_eq (a b : string) : SortCompare a b = Eq -> a = b.
Proof.
  unfold SortCompare.
  destruct (compare_units (code_units a) (code_units b)); try discriminate.
  apply String.compare_eq_iff.
Qed.

Lemma SortCompare_antisym (a b : string) :
  SortCompare b a = CompOpp (SortCompare a b).
Proof.
  unfold SortCompare.
  rewrite (compare_units_antisym (code_units a) (code_units b)).
  destruct (compare_units (code_units a) (code_units b)); cbn [CompOpp];
    [apply String.compare_antisym | reflexivity..].
Qed.

Lemma string_lt_trans (a b c : string) :
  Spec.string_lt a b -> Spec.string_lt b c -> Spec.string_lt a c.
Proof.
  unfold Spec.string_lt, SortCompare.
  destruct (compare_units (code_units a) (code_units b)) eqn:Eab;
    try discriminate;
    destruct (compare_units (code_units b) (code_units c)) eqn:Ebc;
    try discriminate; intros Hab Hbc.
  - apply compare_units_eq in Eab, Ebc.
    rewrite Eab, Ebc, compare_units_refl.
    exact (compare_lt_trans a b c Hab Hbc).
  - apply compare_units_eq in Eab. now rewrite Eab, Ebc.
  - apply compare_units_eq in Ebc. now rewrite <- Ebc, Eab.
  - now rewrite (compare_units_trans _ _ _ Eab Ebc).
Qed.

Lemma string_lt_irrefl (a : string) : ~ Spec.string_lt a a.
Proof.
  unfold Spec.string_lt, SortCompare.
  rewrite compare_units_refl, compare_refl. discriminate.
Qed.

(** ** Texts: the decoder reads the UTF-8 bytes of characters as their
    UTF-16 code units, and these determine the text *)

Ltac divmod := Z.div_mod_to_equations; lia.

Lemma continuations_length (k : nat) :
  forall acc s cp s',
    continuations k acc s = Some (cp, s') ->
    (String.length s' <= String.length s)%nat.
Proof.
  induction k as [|k IH]; intros acc s cp s'; cbn [continuations].
  - intros [= _ <-]. lia.
  - destruct s as [|c rest]; [discriminate|].
    destruct (continuation c); [|discriminate].
    intros H. apply IH in H. cbn [String.length]. lia.
Qed.

Lemma scalar_some (low high : Z) (r : option (Z * string)) cp s' :
  scalar low high r = Some (cp, s') -> r = Some (cp, s').
Proof.
  unfold scalar. destruct r as [[cp0 rest]|]; [|discriminate].
  destruct (_ && _); [auto | discriminate].
Qed.

Lemma next_code_point_length (c0 : ascii) (rest : string) cp rest' :
  next_code_point c0 rest = Some (cp, rest') ->
  (String.length rest' <= String.length rest)%nat.
Proof.
  unfold next_code_point. cbv zeta.
  repeat match goal with
         | |- context [if ?c then _ else _] => destruct c
         end;
    try discriminate;
    try (intros H; apply scalar_some, continuations_length in H; exact H).
  intros [= _ <-]. lia.
Qed.

Lemma decode_fuel (n : nat) :
  forall fuel1 fuel2 s,
    (String.length s <= n)%nat ->
    (String.length s <= fuel1)%nat -> (String.length s <= fuel2)%nat ->
    decode fuel1 s = decode fuel2 s.
Proof.
  induction n as [|n IH]; intros fuel1 fuel2 [|c0 rest] Hn H1 H2;
    cbn [String.length] in *; try lia;
    try (destruct fuel1, fuel2; reflexivity).
  destruct fuel1 as [|fuel1], fuel2 as [|fuel2]; try lia.
  cbn [decode].
  destruct (next_code_point c0 rest) as [[cp rest']|] eqn:E.
  - apply next_code_point_length in E.
    f_equal. apply IH; lia.
  - f_equal. apply IH; lia.
Qed.

Lemma code_units_step (c0 : ascii) (rest : string) :
  code_units (String c0 rest)
  = match next_code_point c0 rest with
    | Some (cp, rest') => units_of_code_point cp ++ code_units rest'
    | None => 65533 :: code_units rest
    end.
Proof.
  unfold code_units. cbn [String.length decode].
  destruct (next_code_point c0 rest) as [[cp rest']|] eqn:E.
  - apply next_code_point_length in E. f_equal.
    apply (decode_fuel (String.length rest)); lia.
  - reflexivity.
Qed.

Lemma continuation_byte (x : Z) :
  0 <= x < 64 -> continuation (Base64.byte_char (128 + x)) = Some x.
Proof.
  intros Hx. unfold continuation. cbv zeta.
  rewrite charCode_byte_char by lia.
  destruct (Z.leb_spec 128 (128 + x)); [|lia].
  destruct (Z.ltb_spec (128 + x) 192); [|lia].
  cbn [andb]. f_equal. lia.
Qed.

Lemma next_code_point_utf8 (cp : Z) (rest : string) :
  Spec.character cp ->
  match (Spec.utf8 cp ++ rest)%string with
  | String c0 r0 => next_code_point c0 r0 = Some (cp, rest)
  | EmptyString => False
  end.
Proof.
  intros [Hr Hs]. unfold Spec.utf8.
  destruct (Z.ltb_spec cp 128) as [H1|H1];
    [|destruct (Z.ltb_spec cp 2048) as [H2|H2];
      [|destruct (Z.ltb_spec cp 65536) as [H3|H3]]];
    cbn [append]; unfold next_code_point; cbv zeta;
    rewrite charCode_byte_char by divmod.
  - destruct (Z.ltb_spec cp 128); [reflexivity | lia].
  - destruct (Z.ltb_spec (192 + cp / 64) 128); [divmod|].
    destruct (Z.ltb_spec (192 + cp / 64) 192); [divmod|].
    destruct (Z.ltb_spec (192 + cp / 64) 224); [|divmod].
    cbn [continuations].
    rewrite continuation_byte by divmod.
    replace ((192 + cp / 64 - 192) * 64 + cp mod 64) with cp by divmod.
    unfold scalar.
    destruct (Z.leb_spec 128 cp); [|lia].
    destruct (Z.leb_spec cp 2047); [|lia].
    destruct (Z.leb_spec 55296 cp); [lia|]. reflexivity.
  - destruct (Z.ltb_spec (224 + cp / 4096) 128); [divmod|].
    destruct (Z.ltb_spec (224 + cp / 4096) 192); [divmod|].
    destruct (Z.ltb_spec (224 + cp / 4096) 224); [divmod|].
    destruct (Z.ltb_spec (224 + cp / 4096) 240); [|divmod].
    cbn [continuations].
    rewrite !continuation_byte by divmod.
    replace (((224 + cp / 4096 - 224) * 64 + (cp / 64) mod 64) * 64
             + cp mod 64) with cp by divmod.
    unfold scalar.
    destruct (Z.leb_spec 2048 cp); [|lia].
    destruct (Z.leb_spec cp 65535); [|lia].
    destruct (Z.leb_spec 55296 cp); destruct (Z.leb_spec cp 57343);
      try reflexivity. lia.
  - destruct (Z.ltb_spec (240 + cp / 262144) 128); [divmod|].
    destruct (Z.ltb_spec (240 + cp / 262144) 192); [divmod|].
    destruct (Z.ltb_spec (240 + cp / 262144) 224); [divmod|].
    destruct (Z.ltb_spec (240 + cp / 262144) 240); [divmod|].
    destruct (Z.ltb_spec (240 + cp / 262144) 248); [|divmod].
    cbn [continuations].
    rewrite !continuation_byte by divmod.
    replace ((((240 + cp / 262144 - 240) * 64 + (cp / 4096) mod 64) * 64
              + (cp / 64) mod 64) * 64 + cp mod 64) with cp by divmod.
    unfold scalar.
    destruct (Z.leb_spec 65536 cp); [|lia].
    destruct (Z.leb_spec cp 1114111); [|lia].
    destruct (Z.leb_spec 55296 cp); destruct (Z.leb_spec cp 57343);
      try reflexivity. lia.
Qed.

Lemma code_units_utf8 (cp : Z) (rest : string) :
  Spec.character cp ->
  code_units (Spec.utf8 cp ++ rest)
  = units_of_code_point cp ++ code_units rest.
Proof.
  intros Hc. pose proof (next_code_point_utf8 cp rest Hc) as H.
  destruct (Spec.utf8 cp ++ rest)%string as [|c0 r0]; [destruct H|].
  now rewrite code_units_step, H.
Qed.

(** The code units of a text are the UTF-16 form of its characters. *)
Lemma code_units_text (cps : list Z) :
  Forall Spec.character cps ->
  code_units (fold_right (fun cp r => (Spec.utf8 cp ++ r)%string) "" cps)
  = flat_map units_of_code_point cps.
Proof.
  induction 1 as [|cp cps Hc _ IH]; [reflexivity|].
  cbn [fold_right flat_map]. now rewrite code_units_utf8, IH.
Qed.

Lemma cons_eq {A : Type} (a b : A) (x y : list A) :
  a :: x = b :: y -> a = b /\ x = y.
Proof. intros [= -> ->]. auto. Qed.

Lemma units_injective (l1 : list Z) :
  forall l2,
    Forall Spec.character l1 -> Forall Spec.character l2 ->
    flat_map units_of_code_point l1 = flat_map units_of_code_point l2 ->
    l1 = l2.
Proof.
  induction l1 as [|a l1 IH]; intros [|b l2] H1 H2; cbn [flat_map].
  - reflexivity.
  - unfold units_of_code_point at 1. destruct (b <? 65536); discriminate.
  - unfold units_of_code_point at 1. destruct (a <? 65536); discriminate.
  - unfold units_of_code_point at 1 3.
    inversion H1 as [|? ? [Ha Sa] H1']; inversion H2 as [|? ? [Hb Sb] H2'];
      subst.
    destruct (Z.ltb_spec a 65536); destruct (Z.ltb_spec b 65536);
      cbn [app]; intros E.
    + apply cons_eq in E. destruct E as [-> E]. f_equal. now apply IH.
    + apply cons_eq in E. destruct E as [E _]. exfalso. divmod.
    + apply cons_eq in E. destruct E as [E _]. exfalso. divmod.
    + apply cons_eq in E. destruct E as [Eh E].
      apply cons_eq in E. destruct E as [El E].
      assert (a = b) by divmod.
      subst b. f_equal. now apply IH.
Qed.

(** Two texts with the same code units are the same text. *)
Lemma text_code_units (a b : string) :
  Spec.text a -> Spec.text b -> code_units a = code_units b -> a = b.
Proof.
  intros (l1 & H1 & ->) (l2 & H2 & ->).
  rewrite !code_units_text by assumption.
  intros E. now rewrite (units_injective l1 l2 H1 H2 E).
Qed.

(** On texts the comparison of [sort] is that of the code units. *)
Lemma SortCompare_texts (a b : string) :
  Spec.text a -> Spec.text b ->
  SortCompare a b = compare_units (code_units a) (code_units b).
Proof.
  intros Ha Hb. unfold SortCompare.
  destruct (compare_units (code_units a) (code_units b)) eqn:E;
    try reflexivity.
  apply compare_units_eq in E. rewrite (text_code_units a b Ha Hb E).
  apply compare_refl.
Qed.

Lemma Sorted_code_units (l : list string) :
  Sorted Spec.string_lt l -> Forall Spec.text l ->
  Sorted Spec.code_units_lt l.
Proof.
  induction 1 as [|a l Hl IH Hhd]; intros Ht; [constructor|].
  inversion Ht as [|? ? Ha Htl]; subst.
  constructor; [now apply IH|].
  destruct Hhd as [|b l' Hab]; constructor.
  inversion Htl as [|? ? Hb _]; subst.
  unfold Spec.code_units_lt. now rewrite <- SortCompare_texts.
Qed.

End CodeUnitOrder.

Section Speakers.

Import Js Async Assembly.

(** ** [new Set]: the distinct values *)

Lemma existsb_eqb_In (v : string) (l : list string) :
  existsb (String.eqb v) l = true <-> In v l.
Proof.
  rewrite existsb_exists. split.
  - intros (x & Hx & E). apply String.eqb_eq in E. now subst.
  - intros H. exists v. split; [assumption | apply String.eqb_refl].
Qed.

Lemma Set_add_In (set : list string) (v s : string) :
  In s (Set_add set v) <-> In s set \/ s = v.
Proof.
  unfold Set_add. destruct (existsb (String.eqb v) set) eqn:E.
  - apply existsb_eqb_In in E. split; [auto|]. intros [H | ->]; assumption.
  - rewrite in_app_iff. simpl. intuition.
Qed.

Lemma Set_add_NoDup (set : list string) (v : string) :
  NoDup set -> NoDup (Set_add set v).
Proof.
  intros H. unfold Set_add. destruct (existsb (String.eqb v) set) eqn:E.
  - assumption.
  - assert (Hv : ~ In v set).
    { intros Hin. apply existsb_eqb_In in Hin. congruence. }
    clear E. induction H as [|x l Hx Hl IH]; simpl.
    + constructor; [intros []|constructor].
    + constructor.
      * rewrite in_app_iff. simpl. intros [H | [-> | []]];
          [contradiction | apply Hv; now left].
      * apply IH. intros Hin. apply Hv. now right.
Qed.

Lemma fold_Set_add (values set : list string) :
  NoDup set ->
  NoDup (fold_left Set_add values set) /\
  (forall s, In s (fold_left Set_add values set) <-> In s set \/ In s values).
Proof.
  revert set. induction values as [|v values IH]; intros set Hset; simpl.
  - split; [assumption | intuition].
  - destruct (IH (Set_add set v) (Set_add_NoDup set v Hset)) as [IH1 IH2].
    split; [assumption|].
    intros s. rewrite IH2, Set_add_In. intuition.
Qed.

Lemma new_Set_NoDup (values : list string) : NoDup (new_Set values).
Proof. apply (fold_Set_add values []). constructor. Qed.

Lemma new_Set_In (values : list string) (s : string) :
  In s (new_Set values) <-> In s values.
Proof.
  unfold new_Set.
  destruct (fold_Set_add values [] (NoDup_nil _)) as [_ H].
  rewrite H. simpl. intuition.
Qed.

(** ** [sort]: a sorted rearrangement *)

Lemma sort_insert_In (v s : string) (sorted : list string) :
  In s (sort_insert v sorted) <-> s = v \/ In s sorted.
Proof.
  induction sorted as [|w rest IH]; simpl.
  - intuition.
  - destruct (SortCompare v w); simpl; try rewrite IH; intuition.
Qed.

Lemma sort_insert_NoDup (v : string) (sorted : list string) :
  ~ In v sorted -> NoDup sorted -> NoDup (sort_insert v sorted).
Proof.
  induction sorted as [|w rest IH]; simpl; intros Hv Hnd.
  - constructor; [intros []|constructor].
  - destruct (SortCompare v w); try (constructor; assumption).
    inversion Hnd as [|? ? Hw Hrest]; subst.
    constructor.
    + rewrite sort_insert_In. intros [-> | H]; [|contradiction].
      apply Hv. now left.
    + apply IH; [|assumption]. intros H. apply Hv. now right.
Qed.

Lemma sort_insert_HdRel (a v : string) (sorted : list string) :
  Spec.string_le a v -> HdRel Spec.string_le a sorted ->
  HdRel Spec.string_le a (sort_insert v sorted).
Proof.
  intros Hav Hhd. destruct sorted as [|w rest]; simpl.
  - now constructor.
  - destruct (SortCompare v w); constructor; try assumption;
      now inversion Hhd.
Qed.

Lemma sort_insert_Sorted (v : string) (sorted : list string) :
  Sorted Spec.string_le sorted ->
  Sorted Spec.string_le (sort_insert v sorted).
Proof.
  induction 1 as [|w rest Hrest IH Hhd]; simpl.
  - repeat constructor.
  - assert (Hle : SortCompare v w <> Gt ->
                  Sorted Spec.string_le (v :: w :: rest))
      by (intros Hvw; constructor; [now constructor | now constructor]).
    destruct (SortCompare v w) eqn:E; try (apply Hle; discriminate).
    constructor; [assumption|].
    apply sort_insert_HdRel; [|assumption].
    unfold Spec.string_le. rewrite SortCompare_antisym, E. discriminate.
Qed.

Lemma sort_In (array : list string) (s : string) :
  In s (sort array) <-> In s array.
Proof.
  unfold sort. induction array as [|v array IH]; simpl; [reflexivity|].
  rewrite sort_insert_In, IH. intuition.
Qed.

Lemma sort_NoDup (array : list string) : NoDup array -> NoDup (sort array).
Proof.
  unfold sort. induction 1 as [|v array Hv _ IH]; simpl; [constructor|].
  apply sort_insert_NoDup; [|assumption].
  fold (sort array). now rewrite sort_In.
Qed.

Lemma sort_Sorted (array : list string) : Sorted Spec.string_le (sort array).
Proof.
  unfold sort. induction array as [|v array IH]; simpl; [constructor|].
  now apply sort_insert_Sorted.
Qed.

Lemma le_neq_lt (a b : string) :
  Spec.string_le a b -> a <> b -> Spec.string_lt a b.
Proof.
  unfold Spec.string_le, Spec.string_lt.
  intros Hle Hne.
  destruct (SortCompare a b) eqn:E; [|reflexivity|contradiction].
  apply SortCompare_eq in E. contradiction.
Qed.

(** A sorted list without duplicates is strictly increasing. *)
Lemma Sorted_NoDup_strict (l : list string) :
  Sorted Spec.string_le l -> NoDup l -> Sorted Spec.string_lt l.
Proof.
  induction 1 as [|a l Hl IH Hhd]; intros Hnd; [constructor|].
  inversion Hnd as [|? ? Ha Hnd']; subst.
  constructor; [now apply IH|].
  destruct Hhd as [|b l' Hab]; constructor.
  apply le_neq_lt; [assumption|].
  intros ->. apply Ha. now left.
Qed.

(** The speakers of a transcript made from a payload. *)
Lemma format_result_speakers (result : Payload.t) :
  let t := format_result result in
  let labels :=
    map DiarizedUtterance.speaker (DiarizedTranscript.utterances t) in
  DiarizedTranscript.speakers t = sort (new_Set labels) /\
  Sorted Spec.string_lt (DiarizedTranscript.speakers t) /\
  NoDup (DiarizedTranscript.speakers t) /\
  (forall s, In s (DiarizedTranscript.speakers t) <-> In s labels).
Proof.
  cbv zeta. unfold format_result. cbv zeta.
  cbn [DiarizedTranscript.speakers DiarizedTranscript.utterances].
  set (labels := map DiarizedUtterance.speaker _).
  assert (Hnd : NoDup (sort (new_Set labels)))
    by apply sort_NoDup, new_Set_NoDup.
  repeat split.
  - apply Sorted_NoDup_strict; [apply sort_Sorted | exact Hnd].
  - exact Hnd.
  - rewrite sort_In, new_Set_In. auto.
  - rewrite sort_In, new_Set_In. auto.
Qed.

(** C3.  A transcript the composite operation resolves with in status
    completed has as speakers the sorted array of the distinct speaker
    labels of its utterances: strictly increasing in the order of
    [sort], and with exactly the labels that occur.  When the labels are
    texts, each speaker comes before the next by its UTF-16 code units.
    Its utterances are the utterances of the payload the poll returned,
    in the order of the payload. *)
Theorem completed_transcript_speakers :
  forall (remote : Remote) (audioFile : Blob) (onProgress : bool)
         (t : DiarizedTranscript.t),
    outcome (transcribeWithDiarization remote audioFile onProgress)
    = Returned t ->
    DiarizedTranscript.status t = Status.completed ->
    let labels :=
      map DiarizedUtterance.speaker (DiarizedTranscript.utterances t) in
    DiarizedTranscript.speakers t = sort (new_Set labels) /\
    Sorted Spec.string_lt (DiarizedTranscript.speakers t) /\
    NoDup (DiarizedTranscript.speakers t) /\
    (forall s, In s (DiarizedTranscript.speakers t) <-> In s labels) /\
    (Forall Spec.text labels ->
     Sorted Spec.code_units_lt (DiarizedTranscript.speakers t)) /\
    exists uploadUrl transcriptId result,
      outcome (uploadAudio remote audioFile) = Returned uploadUrl /\
      outcome (startTranscription remote uploadUrl) = Returned transcriptId /\
      outcome (pollTranscription remote transcriptId) = Returned result /\
      DiarizedTranscript.utterances t
      = map format_utterance
          (match Payload.utterances result with
           | Some us => us
           | None => []
           end) /\
      map DiarizedUtterance.speaker (DiarizedTranscript.utterances t)
      = map RawUtterance.speaker
          (match Payload.utterances result with
           | Some us => us
           | None => []
           end).
Proof.
  intros remote audioFile onProgress t Hrun Hstatus.
  rewrite transcribeWithDiarization_outcome, workflow_outcome in Hrun.
  destruct (outcome (uploadAudio remote audioFile)) as [uploadUrl|e|] eqn:Hu;
    [| injection Hrun as <-; discriminate | discriminate].
  destruct (outcome (startTranscription remote uploadUrl))
    as [transcriptId|e|] eqn:Hs;
    [| injection Hrun as <-; discriminate | discriminate].
  destruct (outcome (pollTranscription remote transcriptId))
    as [result|e|] eqn:Hp;
    [| injection Hrun as <-; discriminate | discriminate].
  injection Hrun as <-.
  destruct (format_result_speakers result) as (H1 & H2 & H3 & H4).
  cbv zeta in H1, H2, H3, H4.
  split; [exact H1|]. split; [exact H2|]. split; [exact H3|].
  split; [exact H4|]. split.
  { intros Ht. apply Sorted_code_units; [exact H2|].
    rewrite Forall_forall in *. intros s Hin. apply Ht, H4, Hin. }
  exists uploadUrl, transcriptId, result.
  repeat split; try assumption.
  unfold format_result. cbn [DiarizedTranscript.utterances].
  rewrite map_map. reflexivity.
Qed.

(** The statement of C4 fails for the status error: the transcript the
    composite operation returns after a failure with the message [boom]
    renders as [Error: boom], not as the message. *)
Lemma error_rendering_has_prefix : ~ Spec.renders_error_message.
Proof.
  intros H.
  specialize (H (failed (new_Error "boom")) "boom" eq_refl eq_refl).
  discriminate H.
Qed.

(** C4, amended.  The rendering of a transcript: in status error, the
    text [Error: ] followed by the error message, and [Error: undefined]
    when the transcript has no error message; in status completed
    without utterances, the full text as it is; otherwise the lines
    [Speaker <label>: <text>] of the utterances, in their order, with an
    empty line between two of them.  The transcript with the utterances
    (A, hi) and (B, bye) renders as [Speaker A: hi], an empty line,
    [Speaker B: bye]. *)
Theorem formatDiarizedTranscript_renders :
  (forall text utterances speakers message,
     formatDiarizedTranscript
       {| DiarizedTranscript.text := text;
          DiarizedTranscript.utterances := utterances;
          DiarizedTranscript.speakers := speakers;
          DiarizedTranscript.status := Status.error;
          DiarizedTranscript.error := Some message |}
     = ("Error: " ++ message)%string) /\
  (forall text utterances speakers,
     formatDiarizedTranscript
       {| DiarizedTranscript.text := text;
          DiarizedTranscript.utterances := utterances;
          DiarizedTranscript.speakers := speakers;
          DiarizedTranscript.status := Status.error;
          DiarizedTranscript.error := None |}
     = "Error: undefined") /\
  (forall text speakers error,
     formatDiarizedTranscript
       {| DiarizedTranscript.text := text;
          DiarizedTranscript.utterances := [];
          DiarizedTranscript.speakers := speakers;
          DiarizedTranscript.status := Status.completed;
          DiarizedTranscript.error := error |}
     = text) /\
  (forall text u us speakers error,
     formatDiarizedTranscript
       {| DiarizedTranscript.text := text;
          DiarizedTranscript.utterances := u :: us;
          DiarizedTranscript.speakers := speakers;
          DiarizedTranscript.status := Status.completed;
          DiarizedTranscript.error := error |}
     = Spec.lines (u :: us)) /\
  (forall text speakers error s1 e1 c1 s2 e2 c2,
     formatDiarizedTranscript
       {| DiarizedTranscript.text := text;
          DiarizedTranscript.utterances :=
            [ {| DiarizedUtterance.speaker := "A";
                 DiarizedUtterance.text := "hi";
                 DiarizedUtterance.start := s1;
                 DiarizedUtterance.end_ := e1;
                 DiarizedUtterance.confidence := c1 |};
              {| DiarizedUtterance.speaker := "B";
                 DiarizedUtterance.text := "bye";
                 DiarizedUtterance.start := s2;
                 DiarizedUtterance.end_ := e2;
                 DiarizedUtterance.confidence := c2 |} ];
          DiarizedTranscript.speakers := speakers;
          DiarizedTranscript.status := Status.completed;
          DiarizedTranscript.error := error |}
     = ("Speaker A: hi" ++ newline ++ newline ++ "Speaker B: bye")%string).
Proof.
  repeat split; try reflexivity.
  intros text u us speakers error.
  unfold formatDiarizedTranscript.
  cbn [DiarizedTranscript.status DiarizedTranscript.utterances
       List.length Nat.eqb].
  generalize u. induction us as [|u' us IH]; intros u0; [reflexivity|].
  cbn [map join Spec.lines] in *. rewrite <- IH.
  unfold utterance_line. cbn [append].
  rewrite !append_assoc. reflexivity.
Qed.

End Speakers.

(* ===================================================================== *)
(** * Properties of the realtime session *)
(* ===================================================================== *)

Section Messages.

Import Js Async Realtime.

Lemma is_string_true (v : option JSON) (s : string) :
  is_string v s = true -> v = Some (JString s).
Proof.
  destruct v as [[| | |s'| |]|]; simpl; try discriminate.
  intros E. apply String.eqb_eq in E. now subst.
Qed.

Lemma truthy_some (v : option JSON) :
  truthy v = true -> exists text, v = Some text.
Proof. destruct v as [text|]; [eauto | discriminate]. Qed.

(** The handler on a parsed object. *)
Lemma onmessage_object (fields : list (string * JSON)) :
  onmessage (inl (JObject fields))
  = let message_type := field fields "message_type" in
    let text := field fields "text" in
    if is_string message_type "FinalTranscript" && truthy text then
      ([onTranscript text true], Returned tt)
    else if is_string message_type "PartialTranscript" && truthy text then
      ([onTranscript text false], Returned tt)
    else ([], Returned tt).
Proof. reflexivity. Qed.

(** The statement of C7 fails on a final transcript with an empty text:
    the handler does not call back. *)
Lemma empty_final_transcript_ignored : ~ Spec.every_final_transcript_relayed.
Proof.
  intros H.
  specialize (H [("message_type", JString "FinalTranscript");
                 ("text", JString "")] eq_refl).
  vm_compute in H. discriminate.
Qed.

(** C7, amended.  On a message that parses to a value other than null:
    a final transcript whose text is not falsy is passed to the callback
    with isFinal true, a partial transcript whose text is not falsy with
    isFinal false, and every other message, a transcript with an empty
    or absent text among them, is ignored: no callback, no error. *)
Theorem onmessage_relays_transcripts :
  (forall data text,
     Spec.carries "FinalTranscript" text data ->
     onmessage (inl data) = ([onTranscript (Some text) true], Returned tt)) /\
  (forall data text,
     Spec.carries "PartialTranscript" text data ->
     onmessage (inl data) = ([onTranscript (Some text) false], Returned tt)) /\
  (forall data,
     data <> JNull ->
     (forall text, ~ Spec.carries "FinalTranscript" text data) ->
     (forall text, ~ Spec.carries "PartialTranscript" text data) ->
     onmessage (inl data) = ([], Returned tt)).
Proof.
  split; [|split].
  - intros data text (fields & -> & Hm & Ht & Htruthy).
    rewrite onmessage_object. cbv zeta. rewrite Hm, Ht, Htruthy. reflexivity.
  - intros data text (fields & -> & Hm & Ht & Htruthy).
    rewrite onmessage_object. cbv zeta. rewrite Hm, Ht, Htruthy. reflexivity.
  - intros data Hnull Hfinal Hpartial.
    destruct data as [|b|n|s|items|fields];
      [contradiction | reflexivity.. |].
    rewrite onmessage_object. cbv zeta.
    destruct (truthy (field fields "text")) eqn:Ht.
    + destruct (truthy_some _ Ht) as [text Htext].
      destruct (is_string (field fields "message_type") "FinalTranscript")
        eqn:E1.
      { exfalso. apply (Hfinal text). exists fields.
        rewrite <- Htext. auto using is_string_true. }
      destruct (is_string (field fields "message_type") "PartialTranscript")
        eqn:E2.
      { exfalso. apply (Hpartial text). exists fields.
        rewrite <- Htext. auto using is_string_true. }
      reflexivity.
    + rewrite !andb_false_r. reflexivity.
Qed.

End Messages.

Section Stop.

Import Js Async Realtime.

Lemma nth_error_middle {A : Type} (done : list A) (a : A) (rest : list A) :
  nth_error (done ++ a :: rest) (List.length done) = Some a.
Proof. induction done; simpl; auto. Qed.

(** Without faults, stopping the tracks from position [length done] on
    ends each of them, logs one call per track and releases the ones
    that were live. *)
Lemma stop_tracks_run (rest : list TrackState) :
  forall (done : list TrackState) (s : ReadyState) (cs : list Call)
         (ms : list ClientMessage) (rs : list nat) (cl : bool)
         (un : list Error),
    forEach (List.seq (List.length done) (List.length rest))
      (fun track => perform no_faults (track_stop track))
      {| readyState := s; tracks := done ++ rest; calls := cs;
         sent := ms; released := rs; closed := cl; unhandled := un |}
    = ({| readyState := s;
          tracks := done ++ repeat ended (List.length rest);
          calls := cs ++ map track_stop
                          (List.seq (List.length done) (List.length rest));
          sent := ms;
          released := rs ++ Spec.live_from (List.length done) rest;
          closed := cl; unhandled := un |},
       Returned tt).
Proof.
  induction rest as [|t rest IH]; intros done s cs ms rs cl un.
  - simpl. unfold skip. now rewrite !app_nil_r.
  - cbn [List.length List.seq forEach].
    unfold and_then at 1. unfold perform, no_faults, log, effect.
    cbn [tracks readyState calls sent released closed unhandled].
    rewrite nth_error_middle.
    assert (E : forall x : TrackState,
               List.length (done ++ [x]) = S (List.length done))
      by (intros x; rewrite length_app; simpl; lia).
    destruct t.
    + rewrite store_middle.
      replace (done ++ ended :: rest) with ((done ++ [ended]) ++ rest)
        by (rewrite <- app_assoc; reflexivity).
      rewrite <- (E ended), IH, (E ended).
      cbn [map Spec.live_from repeat].
      rewrite <- !app_assoc. reflexivity.
    + replace (done ++ ended :: rest) with ((done ++ [ended]) ++ rest)
        by (rewrite <- app_assoc; reflexivity).
      rewrite <- (E ended), IH, (E ended).
      cbn [map Spec.live_from repeat].
      rewrite <- !app_assoc. reflexivity.
Qed.

Lemma stop_tracks_no_faults (s : ReadyState) (ts : list TrackState)
    (cs : list Call) (ms : list ClientMessage) (rs : list nat)
    (cl : bool) (un : list Error) :
  stop_tracks no_faults
    {| readyState := s; tracks := ts; calls := cs; sent := ms;
       released := rs; closed := cl; unhandled := un |}
  = ({| readyState := s;
        tracks := repeat ended (List.length ts);
        calls := cs ++ map track_stop (List.seq 0 (List.length ts));
        sent := ms;
        released := rs ++ Spec.live_tracks ts;
        closed := cl; unhandled := un |},
     Returned tt).
Proof.
  unfold stop_tracks, getTracks. cbn [tracks].
  exact (stop_tracks_run ts [] s cs ms rs cl un).
Qed.


(** One [stop] without faults, on any browser state. *)
Lemma stop_no_faults (vars : Variables) (b : Browser) :
  stop no_faults vars b
  = ({| readyState :=
          match readyState b with CLOSED => CLOSED | _ => CLOSING end;
        tracks :=
          if stream vars then repeat ended (List.length (tracks b))
          else tracks b;
        calls :=
          calls b
          ++ Spec.stop_calls vars (readyState b) (List.length (tracks b));
        sent :=
          sent b ++ (if is_open (readyState b) then [terminate_session]
                     else []);
        released :=
          released b
          ++ (if stream vars then Spec.live_tracks (tracks b) else []);
        closed := audioContext vars || closed b;
        unhandled :=
          unhandled b ++ Spec.close_failure vars (closed b) |},
     Returned tt).
Proof.
  destruct b as [s ts cs ms rs cl un]. destruct vars as [p so ac st].
  unfold stop, Spec.stop_calls, Spec.close_failure.
  cbn [readyState tracks calls sent released closed unhandled
       processor source audioContext stream].
  destruct s, p, so, ac, st, cl;
    unfold when_open, when, and_then, perform, no_faults, log, effect, skip,
      is_open;
    cbn [readyState tracks calls sent released closed unhandled
         orb andb];
    rewrite ?stop_tracks_no_faults;
    rewrite <- ?app_assoc, ?app_nil_r; reflexivity.
Qed.

End Stop.

Section StopTheorem.

Import Js Async Realtime.



Section Faults.

Variable faults : Call -> option Error.

Lemma skip_ends_at_fault : Spec.ends_at_fault faults skip.
Proof. intros b b' e H. discriminate. Qed.

Lemma and_then_ends_at_fault (c1 c2 : Cmd) :
  Spec.ends_at_fault faults c1 -> Spec.ends_at_fault faults c2 ->
  Spec.ends_at_fault faults (and_then c1 c2).
Proof.
  intros H1 H2 b b' e. unfold and_then.
  destruct (c1 b) as [b1 [[]|e1|]] eqn:E1; intros H.
  - now apply (H2 b1).
  - injection H as <- <-. now apply (H1 b).
  - discriminate.
Qed.

Lemma perform_ends_at_fault (c : Call) :
  (forall m, c <> socket_send m) ->
  Spec.ends_at_fault faults (perform faults c).
Proof.
  intros Hc b b' e. unfold perform.
  destruct (faults c) as [e0|] eqn:Hf.
  - intros H. injection H as <- <-. exists c, (calls b). auto.
  - destruct c as [m| | | | |i]; simpl; try discriminate.
    + now destruct (Hc m).
    + destruct (nth_error (tracks b) i) as [[]|]; discriminate.
Qed.

Lemma send_ends_at_fault (m : ClientMessage) :
  Spec.ends_at_fault faults (when_open (perform faults (socket_send m))).
Proof.
  intros b b' e. unfold when_open.
  destruct (readyState b) eqn:Hs; simpl; try discriminate.
  unfold perform. destruct (faults (socket_send m)) as [e0|] eqn:Hf.
  - intros H. injection H as <- <-. exists (socket_send m), (calls b). auto.
  - simpl. rewrite Hs. discriminate.
Qed.

Lemma forEach_ends_at_fault (tracks : list nat) :
  Spec.ends_at_fault faults
    (forEach tracks (fun track => perform faults (track_stop track))).
Proof.
  induction tracks as [|i tracks IH]; simpl.
  - apply skip_ends_at_fault.
  - apply and_then_ends_at_fault; [|exact IH].
    apply perform_ends_at_fault. discriminate.
Qed.

Lemma stop_ends_at_fault (vars : Variables) :
  Spec.ends_at_fault faults (stop faults vars).
Proof.
  unfold stop.
  repeat apply and_then_ends_at_fault.
  - apply send_ends_at_fault.
  - apply perform_ends_at_fault. discriminate.
  - destruct (processor vars);
      [apply perform_ends_at_fault; discriminate | apply skip_ends_at_fault].
  - destruct (source vars);
      [apply perform_ends_at_fault; discriminate | apply skip_ends_at_fault].
  - destruct (audioContext vars);
      [apply perform_ends_at_fault; discriminate | apply skip_ends_at_fault].
  - destruct (stream vars); [|apply skip_ends_at_fault]. unfold when.
    intros b b' e. unfold stop_tracks. apply forEach_ends_at_fault.
Qed.

End Faults.


End StopTheorem.

(* ===================================================================== *)
(** * Properties of the generative text client *)
(* ===================================================================== *)

Section Transform.

Import Js Async Gemini.

Lemma or_else_present (s fallback : string) :
  s <> "" -> or_else (Some s) fallback = s.
Proof.
  intros H. unfold or_else.
  destruct (String.eqb_spec s ""); [contradiction | reflexivity].
Qed.

(** The fallback does take place for every key that neither map has and
    that is not the name of a member of [Object.prototype], and when the
    option is absent or empty. *)
Lemma fallback_for_plain_keys (options : Options) :
  (forall key,
     tone options = Some key ->
     own_property toneMap key = None ->
     existsb (String.eqb key) Object_prototype = false ->
     toneInstruction options
     = Some (Own "Use a professional, business-appropriate tone.")) /\
  (forall key,
     language options = Some key ->
     own_property languageMap key = None ->
     existsb (String.eqb key) Object_prototype = false ->
     languageInstruction options
     = Some (Own "Write the output in English.")) /\
  (tone options = None \/ tone options = Some "" ->
   toneInstruction options
   = Some (Own "Use a professional, business-appropriate tone.")) /\
  (language options = None \/ language options = Some "" ->
   languageInstruction options = Some (Own "Write the output in English.")).
Proof.
  repeat split.
  - intros key Hk Hown Hproto. unfold toneInstruction. rewrite Hk.
    destruct (String.eqb_spec key "") as [-> | Hne].
    + reflexivity.
    + rewrite (or_else_present key _ Hne).
      unfold get_property at 1. rewrite Hown, Hproto. reflexivity.
  - intros key Hk Hown Hproto. unfold languageInstruction. rewrite Hk.
    destruct (String.eqb_spec key "") as [-> | Hne].
    + reflexivity.
    + rewrite (or_else_present key _ Hne).
      unfold get_property at 1. rewrite Hown, Hproto. reflexivity.
  - unfold toneInstruction. intros [-> | ->]; reflexivity.
  - unfold languageInstruction. intros [-> | ->]; reflexivity.
Qed.

(** C8, at the failing input.  The tone key [constructor] and the
    language key [toString] are outside the recognized sets, and yet
    the instructions are not the professional and the English ones:
    the property reads find the members of [Object.prototype] of those
    names, which are truthy, so the fallback is not taken, and the
    request that follows carries the text of those two built-in functions
    in its system instruction.  The key [sarcastic] of the specification
    does fall back. *)
Theorem inherited_key_defeats_fallback :
  forall summaryLength customPrompt styleGuide,
    let options :=
      {| Gemini.summaryLength := summaryLength;
         Gemini.customPrompt := customPrompt;
         tone := Some "constructor";
         language := Some "toString";
         Gemini.styleGuide := styleGuide |} in
    own_property toneMap "constructor" = None /\
    own_property languageMap "toString" = None /\
    toneInstruction options = Some (Inherited "constructor") /\
    languageInstruction options = Some (Inherited "toString") /\
    toneInstruction options
    <> Some (Own "Use a professional, business-appropriate tone.") /\
    languageInstruction options <> Some (Own "Write the output in English.") /\
    toneInstruction (Examples.options (Some "sarcastic") (Some "xx"))
    = Some (Own "Use a professional, business-appropriate tone.") /\
    languageInstruction (Examples.options (Some "sarcastic") (Some "xx"))
    = Some (Own "Write the output in English.") /\
    forall provider native meeting action_items process_env text apiKey,
      hd_error
        (events
           (transformContentStream provider native meeting action_items
              process_env text "SOCIAL"
              (Examples.options (Some "constructor") (Some "toString"))
              apiKey))
      = Some
          (GenerateContent
             (or_else apiKey (or_else (getApiKey process_env) ""))
             "gemini-2.0-flash" [textPart text]
             (Some ("You are an expert content shaper. "
                    ++ native "constructor" ++ " " ++ native "toString"
                    ++ " IMPORTANT: Output plain text only. Never use markdown formatting like **, ##, *, or any other markdown syntax. "
                    ++ "Create a social media post for LinkedIn/X. Use plain text with emojis for visual appeal. ONLY use information from the input - do NOT add assumptions or elaborate. Keep it under 280 characters. NO asterisks, NO markdown.")%string)).
Proof.
  intros. repeat split; try reflexivity; try discriminate.
  intros provider native meeting action_items process_env text apiKey.
  assert (E : (systemInstruction native
                 (Examples.options (Some "constructor") (Some "toString"))
               ++ formatInstruction meeting action_items "SOCIAL"
                    (Examples.options (Some "constructor") (Some "toString"))
               = "You are an expert content shaper. "
                 ++ native "constructor" ++ " " ++ native "toString"
                 ++ " IMPORTANT: Output plain text only. Never use markdown formatting like **, ##, *, or any other markdown syntax. "
                 ++ "Create a social media post for LinkedIn/X. Use plain text with emojis for visual appeal. ONLY use information from the input - do NOT add assumptions or elaborate. Keep it under 280 characters. NO asterisks, NO markdown.")%string).
  { unfold systemInstruction. rewrite !append_assoc. reflexivity. }
  unfold transformContentStream, generateContentStream, bind.
  cbv zeta. rewrite E. cbn [fst snd].
  match goal with
  | |- context [provider ?k ?m ?p ?i] => destruct (provider k m p i)
  end; [|reflexivity..].
  match goal with
  | |- context [let (t', r) := ?m in _] => destruct m
  end.
  reflexivity.
Qed.

(** C9.  The single-shot transcription makes one request, for the model
    gemini-2.0-flash, whose parts are the inline audio payload with its
    MIME type and the fixed instruction.  When the provider answers, the
    operation returns the text of the answer, or the literal
    [Transcription failed.] when that text is absent or empty; it does
    not throw then. *)
Theorem transcribeAudioFile_fallback :
  forall (provider : Provider) (process_env : option (option string))
         (base64Data mimeType : string) (apiKey : option string),
    let key := or_else apiKey (or_else (getApiKey process_env) "") in
    let parts :=
      [ inlineData mimeType base64Data;
        textPart "Please provide a highly accurate word-for-word transcript of this audio. No summary, just text." ] in
    let run :=
      transcribeAudioFile provider process_env base64Data mimeType apiKey in
    events run = [GenerateContent key "gemini-2.0-flash" parts None] /\
    forall response,
      provider key "gemini-2.0-flash" parts None = Returned response ->
      (GenerateContentResponse.text response = None \/
       GenerateContentResponse.text response = Some "" ->
       outcome run = Returned "Transcription failed.") /\
      (forall t, GenerateContentResponse.text response = Some t -> t <> "" ->
                 outcome run = Returned t).
Proof.
  intros provider process_env base64Data mimeType apiKey key parts run.
  unfold run, transcribeAudioFile, generateContent. fold key. fold parts.
  split.
  - unfold bind. destruct (provider key "gemini-2.0-flash" parts None);
      reflexivity.
  - intros response Hr. unfold bind. rewrite Hr. cbn.
    split.
    + intros [-> | ->]; reflexivity.
    + intros t -> Ht. now rewrite or_else_present.
Qed.

End Transform.

(* ===================================================================== *)
(** * The theorems at concrete inputs *)
(* ===================================================================== *)

Section Witnesses.

Import Js Async Assembly.

Lemma queued_is_waiting (status : string) :
  String.eqb status "completed" = false ->
  String.eqb status "error" = false ->
  Spec.waiting (Examples.reply status).
Proof.
  intros Hc He. exists (Examples.payload status).
  repeat split; assumption.
Defined.

(** The recovery at a refused upload, at an unreachable job start and at
    a job that reports an error at the second poll. *)
Lemma transcribeWithDiarization_recovers_witness :
  (exists t,
     outcome (transcribeWithDiarization Examples.refusing "audio" true)
     = Returned t /\
     DiarizedTranscript.status t = Status.error /\
     DiarizedTranscript.error t = Some "quota exceeded" /\
     DiarizedTranscript.utterances t = []) /\
  (exists t,
     outcome (transcribeWithDiarization Examples.unreachable "audio" true)
     = Returned t /\
     DiarizedTranscript.status t = Status.error /\
     DiarizedTranscript.error t = Some "Failed to fetch" /\
     DiarizedTranscript.utterances t = []) /\
  (exists t,
     outcome (transcribeWithDiarization Examples.failing "audio" false)
     = Returned t /\
     DiarizedTranscript.status t = Status.error /\
     DiarizedTranscript.error t
     = Some "Transcription failed: audio too short" /\
     DiarizedTranscript.utterances t = []).
Proof.
  split; [|split].
  - apply (proj1 (proj2
             (transcribeWithDiarization_recovers
                Examples.refusing "audio" true))
             (new_Error "quota exceeded")).
    reflexivity.
  - apply (proj1 (proj2 (proj2
             (transcribeWithDiarization_recovers
                Examples.unreachable "audio" true)))
             (Some "https://cdn.example/upload/1")
             (new_Error "Failed to fetch")); reflexivity.
  - apply (proj2 (proj2 (proj2 (proj2
             (transcribeWithDiarization_recovers
                Examples.failing "audio" false))))
             (Some "https://cdn.example/upload/1") (Some "job-42")
             [Examples.reply "queued"] Examples.failure []);
      try reflexivity.
    constructor; [|constructor].
    apply queued_is_waiting; reflexivity.
Defined.

(** The speakers of the transcript of the job that completes: B, A, B
    talk in turn, and the speakers are A, B.  The speakers of the job
    with the labels U+FF21 and U+1F600 are in the order of the code
    units, D83D before FF21. *)
Lemma completed_transcript_speakers_witness :
  let t := format_result (Examples.payload "completed") in
  let wide := format_result Examples.wide_labels in
  outcome (transcribeWithDiarization Examples.completing "audio" true)
  = Returned t /\
  DiarizedTranscript.speakers t = ["A"; "B"] /\
  map DiarizedUtterance.speaker (DiarizedTranscript.utterances t)
  = ["B"; "A"; "B"] /\
  outcome (transcribeWithDiarization Examples.completing_wide "audio" true)
  = Returned wide /\
  DiarizedTranscript.speakers wide = ["😀"; "Ａ"] /\
  Sorted Spec.code_units_lt ["😀"; "Ａ"].
Proof.
  intros t wide.
  assert (T : Forall Spec.text ["Ａ"; "😀"]).
  { constructor; [exists [65313] | constructor; [exists [128512] | constructor]];
      (split; [repeat constructor; unfold Spec.character; lia | reflexivity]). }
  pose proof (completed_transcript_speakers
                Examples.completing "audio" true t eq_refl eq_refl) as H.
  pose proof (completed_transcript_speakers
                Examples.completing_wide "audio" true wide eq_refl eq_refl)
    as W.
  split; [reflexivity|].
  split; [exact (proj1 H)|].
  split; [reflexivity|].
  split; [reflexivity|].
  destruct W as (Ws & _ & _ & _ & Wt & _).
  split; [rewrite Ws; reflexivity|].
  exact (Wt T).
Defined.

(** The poll on processing, processing, completed, and on queued, error. *)
Lemma pollTranscription_polls_until_terminal_witness :
  outcome (pollTranscription Examples.completing (Some "job-42"))
  = Returned (Examples.payload "completed") /\
  Spec.delays (events (pollTranscription Examples.completing (Some "job-42")))
  = [3000; 3000] /\
  outcome (pollTranscription Examples.failing (Some "job-42"))
  = Threw (new_Error "Transcription failed: audio too short").
Proof.
  assert (W2 : Forall Spec.waiting
                 [Examples.reply "processing"; Examples.reply "processing"]).
  { repeat constructor; apply queued_is_waiting; reflexivity. }
  assert (W1 : Forall Spec.waiting [Examples.reply "queued"]).
  { repeat constructor; apply queued_is_waiting; reflexivity. }
  pose proof (pollTranscription_polls_until_terminal
                Examples.completing (Some "job-42") _ W2) as Hc.
  pose proof (pollTranscription_polls_until_terminal
                Examples.failing (Some "job-42") _ W1) as Hf.
  cbv zeta in Hc, Hf.
  destruct Hc as (_ & Hc & _ & Hthree).
  destruct Hf as (_ & _ & Hf & _).
  destruct (Hc (Examples.payload "completed") [] eq_refl eq_refl)
    as (Hrun & Hdelays & _).
  destruct (Hf Examples.failure [] eq_refl eq_refl) as (Hfail & _).
  destruct (Hthree (Examples.payload "processing")
              (Examples.payload "processing")
              (Examples.payload "completed")
              eq_refl eq_refl eq_refl eq_refl) as (_ & Htwo).
  split; [now rewrite Hrun|].
  split; [exact Htwo|].
  now rewrite Hfail.
Defined.

End Witnesses.

Section RealtimeWitnesses.

Import Js Async Realtime.


(** The handler on a final transcript, on a partial one and on the
    message that opens a session. *)
Lemma onmessage_relays_transcripts_witness :
  onmessage (inl (Examples.final_transcript "hello"))
  = ([onTranscript (Some (JString "hello")) true], Returned tt) /\
  onmessage
    (inl (JObject [("message_type", JString "PartialTranscript");
                   ("text", JString "hel")]))
  = ([onTranscript (Some (JString "hel")) false], Returned tt) /\
  onmessage (inl Examples.session_begins) = ([], Returned tt).
Proof.
  destruct onmessage_relays_transcripts as (Hfinal & Hpartial & Hother).
  split; [|split].
  - apply Hfinal. eexists. repeat split; reflexivity.
  - apply Hpartial. eexists. repeat split; reflexivity.
  - apply Hother.
    + discriminate.
    + intros text (fields & E & Hm & _). injection E as <-. discriminate.
    + intros text (fields & E & Hm & _). injection E as <-. discriminate.
Defined.

End RealtimeWitnesses.

Section GeminiWitnesses.

Import Js Async Gemini.

(** The single-shot transcription with a provider that answers with an
    empty text. *)
Lemma transcribeAudioFile_fallback_witness :
  outcome (transcribeAudioFile Examples.silent None "UklGRg==" "audio/wav"
             (Some "key"))
  = Returned "Transcription failed.".
Proof.
  pose proof (transcribeAudioFile_fallback Examples.silent None
                "UklGRg==" "audio/wav" (Some "key")) as H.
  cbv zeta in H. destruct H as (_ & H).
  destruct (H {| GenerateContentResponse.text := Some "" |} eq_refl)
    as (Hempty & _).
  apply Hempty. now right.
Defined.

End GeminiWitnesses.

(* ===================================================================== *)
(** * Further properties of the two sample encoders *)
(* ===================================================================== *)

Section EncoderOrder.

Import Js.

Lemma inject_Z_lt_one (a b : Z) : (inject_Z a < inject_Z b + (1 # 1))%Q -> a <= b.
Proof.
  intros H.
  assert (H' : (inject_Z a < inject_Z (b + 1))%Q).
  { rewrite inject_Z_plus. change (inject_Z 1) with (1 # 1). exact H. }
  rewrite <- Zlt_Qlt in H'. lia.
Qed.

(** Rounding towards zero is monotone. *)
Lemma truncate_mono (a b : Q) : (a <= b)%Q -> truncate a <= truncate b.
Proof.
  intros Hab.
  destruct (truncate_sign a) as [Pa Na]. destruct (truncate_sign b) as [Pb Nb].
  destruct (Qlt_le_dec a 0) as [Ha | Ha]; destruct (Qlt_le_dec b 0) as [Hb | Hb].
  - destruct (truncate_nonpos a) as [A1 A2]; [lra|].
    destruct (truncate_nonpos b) as [B1 B2]; [lra|].
    apply inject_Z_lt_one. lra.
  - specialize (Na ltac:(lra)). specialize (Pb Hb). lia.
  - lra.
  - destruct (truncate_nonneg a Ha) as [A1 A2].
    destruct (truncate_nonneg b Hb) as [B1 B2].
    apply inject_Z_lt_one. lra.
Qed.

(** Rounding towards zero does not depend on the fraction chosen. *)
Lemma truncate_Qeq (a b : Q) : (a == b)%Q -> truncate a = truncate b.
Proof.
  intros E.
  assert (truncate a <= truncate b) by (apply truncate_mono; lra).
  assert (truncate b <= truncate a) by (apply truncate_mono; lra).
  lia.
Qed.

Lemma truncate_opp (q : Q) : truncate (- q) = - truncate q.
Proof.
  destruct q as [n d]. unfold truncate. simpl.
  apply Z.quot_opp_l. discriminate.
Qed.

(** Each hypothesis on the cases of a clamp is applied where its
    premises follow by linear arithmetic. *)
Ltac settle H :=
  first [ specialize (H ltac:(lra) ltac:(lra))
        | specialize (H ltac:(lra))
        | clear H ].

(** X1.  The encoder of [createPcmBlob] never stores -32768: its values
    lie between -32767 and 32767, and negating a sample negates the
    stored value. *)
Theorem pcm_sample_symmetric :
  forall x : number,
    -32767 <= Gemini.pcm_sample x <= 32767 /\
    Gemini.pcm_sample (Props.negate x) = - Gemini.pcm_sample x.
Proof.
  intros [q| | |]; [|split; [vm_compute; split; discriminate | reflexivity]..].
  destruct (pcm_sample_Fin q) as (c & Hs & Clo & Chi & C1 & C2 & C3).
  split.
  - rewrite Hs. apply truncate_between; [lia| |].
    + change (inject_Z (-32767)) with (-32767 # 1). lra.
    + change (inject_Z 32767) with (32767 # 1). lra.
  - cbn [Props.negate].
    destruct (pcm_sample_Fin (- q)) as (d & Hd & Dlo & Dhi & D1 & D2 & D3).
    rewrite Hs, Hd, <- truncate_opp. apply truncate_Qeq.
    destruct (Qlt_le_dec q (-1 # 1)); [|destruct (Qlt_le_dec (1 # 1) q)].
    + settle C1. settle D2. lra.
    + settle C2. settle D1. lra.
    + settle C3. settle D3. lra.
Qed.

(** X2.  Both encoders preserve the order of samples: a larger sample
    never gets a smaller 16-bit value. *)
Theorem encoders_monotone :
  forall a b : Q,
    (a <= b)%Q ->
    Gemini.pcm_sample (Fin a) <= Gemini.pcm_sample (Fin b) /\
    Realtime.frame_sample (Fin a) <= Realtime.frame_sample (Fin b).
Proof.
  intros a b Hab. split.
  - destruct (pcm_sample_Fin a) as (c & -> & Clo & Chi & C1 & C2 & C3).
    destruct (pcm_sample_Fin b) as (d & -> & Dlo & Dhi & D1 & D2 & D3).
    apply truncate_mono.
    destruct (Qlt_le_dec a (-1 # 1)); [|destruct (Qlt_le_dec (1 # 1) a)];
      (destruct (Qlt_le_dec b (-1 # 1)); [|destruct (Qlt_le_dec (1 # 1) b)]);
      settle C1; settle C2; settle C3; settle D1; settle D2; settle D3; lra.
  - destruct (frame_sample_Fin a) as (c & -> & Clo & Chi & C1 & C2 & C3).
    destruct (frame_sample_Fin b) as (d & -> & Dlo & Dhi & D1 & D2 & D3).
    apply truncate_mono.
    destruct (Qlt_le_dec (a * (32768 # 1)) (-32768 # 1));
      [|destruct (Qlt_le_dec (32767 # 1) (a * (32768 # 1)))];
      (destruct (Qlt_le_dec (b * (32768 # 1)) (-32768 # 1));
        [|destruct (Qlt_le_dec (32767 # 1) (b * (32768 # 1)))]);
      settle C1; settle C2; settle C3; settle D1; settle D2; settle D3; lra.
Qed.

Lemma encoders_monotone_witness :
  Gemini.pcm_sample (Fin (1 # 4)) <= Gemini.pcm_sample (Fin (1 # 2)) /\
  Realtime.frame_sample (Fin (1 # 4)) <= Realtime.frame_sample (Fin (1 # 2)).
Proof.
  apply (encoders_monotone (1 # 4) (1 # 2)). unfold Qle. simpl. lia.
Defined.

End EncoderOrder.

Section FrameEncoder.

Import Js Async Realtime.

Lemma scale_clamp_Fin (q : Q) :
  exists c,
    Props.scale_clamp (Fin q) = Some c /\
    ((q * (32768 # 1) <= -32768 # 1)%Q -> (c == -32768 # 1)%Q) /\
    ((32767 # 1 <= q * (32768 # 1))%Q -> (c == 32767 # 1)%Q) /\
    ((-32768 # 1 <= q * (32768 # 1))%Q -> (q * (32768 # 1) <= 32767 # 1)%Q ->
     (c == q * (32768 # 1))%Q).
Proof.
  unfold Props.scale_clamp. eexists. split; [reflexivity|].
  destruct (Qle_bool (q * (32768 # 1)) (-32768 # 1)) eqn:E1.
  - apply Qle_bool_iff in E1. repeat split; intros; lra.
  - assert (H1 : (-32768 # 1 < q * (32768 # 1))%Q)
      by (apply Qnot_le_lt; rewrite <- Qle_bool_iff; congruence).
    destruct (Qle_bool (32767 # 1) (q * (32768 # 1))) eqn:E2.
    + apply Qle_bool_iff in E2. repeat split; intros; lra.
    + assert (H2 : (q * (32768 # 1) < 32767 # 1)%Q)
        by (apply Qnot_le_lt; rewrite <- Qle_bool_iff; congruence).
      repeat split; intros; lra.
Qed.

Lemma frame_sample_close (x : number) :
  Props.frame_within_one_lsb x (frame_sample x) /\
  Spec.int16_range (frame_sample x).
Proof.
  destruct x as [q| | |].
  - destruct (frame_sample_Fin q) as (a & Hs & Alo & Ahi & A1 & A2 & A3).
    destruct (scale_clamp_Fin q) as (c & Hc & C1 & C2 & C3).
    assert (Hac : (a == c)%Q).
    { destruct (Qlt_le_dec (q * (32768 # 1)) (-32768 # 1));
        [|destruct (Qlt_le_dec (32767 # 1) (q * (32768 # 1)))].
      - specialize (A1 ltac:(lra)). specialize (C1 ltac:(lra)). lra.
      - specialize (A2 ltac:(lra)). specialize (C2 ltac:(lra)). lra.
      - specialize (A3 ltac:(lra) ltac:(lra)).
        specialize (C3 ltac:(lra) ltac:(lra)). lra. }
    split.
    + unfold Props.frame_within_one_lsb. rewrite Hc, Hs.
      pose proof (truncate_close a) as T.
      apply Qabs_Qle_condition in T. apply Qabs_Qle_condition. lra.
    + rewrite Hs. apply truncate_between; [lia| |].
      * change (inject_Z (-32768)) with (-32768 # 1). lra.
      * change (inject_Z 32767) with (32767 # 1). lra.
  - split; [|vm_compute; split; discriminate].
    unfold Props.frame_within_one_lsb. cbn [Props.scale_clamp].
    apply Qle_bool_iff. reflexivity.
  - split; [|vm_compute; split; discriminate].
    unfold Props.frame_within_one_lsb. cbn [Props.scale_clamp].
    apply Qle_bool_iff. reflexivity.
  - split; [reflexivity|vm_compute; split; discriminate].
Qed.

(** X3.  The frame handler sends nothing and calls nothing unless the
    socket is open.  On an open socket it sends exactly one message,
    whose base64 text decodes to as many 16-bit little-endian samples as
    the frame holds, each within one of the sample times 32768 clamped
    to the 16-bit range (a NaN sample is sent as 0). *)
Theorem onaudioprocess_sends_frame :
  forall (inputData : list number) (b : Browser),
    let after := onaudioprocess no_faults inputData b in
    (is_open (readyState b) = false -> after = (b, Returned tt)) /\
    (is_open (readyState b) = true ->
     snd after = Returned tt /\
     sent (fst after) = sent b ++ [audio_data (frame_base64 inputData)] /\
     calls (fst after)
     = calls b ++ [socket_send (audio_data (frame_base64 inputData))] /\
     tracks (fst after) = tracks b /\
     readyState (fst after) = readyState b) /\
    exists samples : list Z,
      Base64.decode_pcm16le (frame_base64 inputData) = Some samples /\
      List.length samples = List.length inputData /\
      Forall2 Props.frame_within_one_lsb inputData samples /\
      Forall Spec.int16_range samples.
Proof.
  intros inputData b after. unfold after, onaudioprocess, when_open.
  split; [|split].
  - intros ->. reflexivity.
  - intros Hopen. rewrite Hopen.
    destruct b as [s ts cs ms rs cl un]. simpl in Hopen.
    destruct s; try discriminate. repeat split.
  - exists (map frame_sample inputData).
    assert (R : Forall Spec.int16_range (map frame_sample inputData)).
    { apply Forall_map, Forall_forall. intros x _. apply frame_sample_close. }
    repeat split.
    + rewrite frame_base64_data. unfold Base64.decode_pcm16le.
      rewrite decode_btoa. now apply int16_of_bytes_buffer.
    + apply length_map.
    + clear R. induction inputData as [|x l IH]; constructor; auto.
      apply frame_sample_close.
    + exact R.
Qed.

Lemma onaudioprocess_sends_frame_witness :
  sent (fst (onaudioprocess no_faults [Fin (1 # 2); Fin (-1 # 1)]
               Examples.streaming))
  = [audio_data "AEAAgA=="] /\
  onaudioprocess no_faults [Fin (1 # 2)]
    (fst (stop no_faults Examples.assigned Examples.streaming))
  = (fst (stop no_faults Examples.assigned Examples.streaming), Returned tt).
Proof.
  split.
  - destruct (onaudioprocess_sends_frame [Fin (1 # 2); Fin (-1 # 1)]
                Examples.streaming) as (_ & H & _).
    destruct (H eq_refl) as (_ & Hsent & _). rewrite Hsent. reflexivity.
  - destruct (onaudioprocess_sends_frame [Fin (1 # 2)]
                (fst (stop no_faults Examples.assigned Examples.streaming)))
      as (H & _).
    apply H. reflexivity.
Defined.

End FrameEncoder.

(* ===================================================================== *)
(** * Further properties of the batch workflow *)
(* ===================================================================== *)

Section Stages.

Import Js Async Async.Notations Assembly.

Lemma events_bind {A B : Type} (m : M A) (k : A -> M B) :
  events (bind m k)
  = events m ++ match outcome m with
                | Returned a => events (k a)
                | _ => []
                end.
Proof.
  destruct m as [t [a|e|]]; simpl; [|now rewrite app_nil_r..].
  destruct (k a); reflexivity.
Qed.

Lemma events_try_catch_ret {A : Type} (m : M A) (h : Error -> A) :
  events (try_catch m (fun e => ret (h e))) = events m.
Proof.
  destruct m as [t [a|e|]]; simpl; try reflexivity. apply app_nil_r.
Qed.

(** A reply is either rejected or accepted, never both. *)
Lemma rejected_or_accepted (fallback : string) (r : Reply) :
  (exists e, Props.rejection fallback r = Some e /\ Props.accepted r = None) \/
  (exists body, Props.accepted r = Some body /\
                Props.rejection fallback r = None /\
                r = Spec.reply_with body).
Proof.
  destruct r as [e | [o [body | e]]]; simpl.
  - left. eauto.
  - destruct o; [right | left]; eauto.
  - left. eauto.
Qed.

(** One request to an endpoint, on a given reply. *)
Lemma fetch_then (url method : string) (body : RequestBody) (r : Reply)
    (fallback : string) (field : Payload.t -> option string) :
  (response <- fetch url method body (Some r) ;;
   if negb (ok response) then
     error <- await (json response) ;;
     throw (new_Error (or_else (Payload.error error) fallback))
   else
     data <- await (json response) ;;
     ret (field data))%type
  = ([Fetch url method body],
     match Props.rejection fallback r with
     | Some e => Threw e
     | None =>
         match Props.accepted r with
         | Some data => Returned (field data)
         | None => Pending
         end
     end).
Proof.
  destruct r as [e | [o [data | e]]]; try reflexivity; destruct o; reflexivity.
Qed.

Lemma uploadAudio_run (remote : Remote) (audioBlob : Blob) :
  uploadAudio remote audioBlob
  = ([Fetch "/api/assembly-upload" "POST" (Raw audioBlob)],
     match upload remote with
     | [] => Pending
     | r :: _ =>
         match Props.rejection "Upload failed" r with
         | Some e => Threw e
         | None =>
             match Props.accepted r with
             | Some data => Returned (Payload.upload_url data)
             | None => Pending
             end
         end
     end).
Proof.
  unfold uploadAudio. destruct (upload remote) as [|r rest]; [reflexivity|].
  cbn [hd_error]. apply fetch_then.
Qed.

Lemma startTranscription_run (remote : Remote) (audioUrl : option string) :
  startTranscription remote audioUrl
  = ([Fetch "/api/assembly-transcribe" "POST" (audio_url_body audioUrl)],
     match transcribe remote with
     | [] => Pending
     | r :: _ =>
         match Props.rejection "Transcription start failed" r with
         | Some e => Threw e
         | None =>
             match Props.accepted r with
             | Some data => Returned (Payload.id data)
             | None => Pending
             end
         end
     end).
Proof.
  unfold startTranscription.
  destruct (transcribe remote) as [|r rest]; [reflexivity|].
  cbn [hd_error]. apply fetch_then.
Qed.

(** X4.  The upload and the job start each make exactly one request,
    whatever the reply.  On a network error they throw it; on a body that
    does not parse they throw the parse error; on an error status they
    throw the error text of the body, or their own message (Upload
    failed, Transcription start failed) when that text is absent or
    empty; on a success they return the [upload_url] and the [id] of the
    body, present or not; without a reply they stay pending. *)
Theorem upload_and_start_outcomes :
  forall (remote : Remote) (audioBlob : Blob) (audioUrl : option string),
    events (uploadAudio remote audioBlob)
    = [Fetch "/api/assembly-upload" "POST" (Raw audioBlob)] /\
    events (startTranscription remote audioUrl)
    = [Fetch "/api/assembly-transcribe" "POST" (audio_url_body audioUrl)] /\
    (upload remote = [] ->
     outcome (uploadAudio remote audioBlob) = Pending) /\
    (transcribe remote = [] ->
     outcome (startTranscription remote audioUrl) = Pending) /\
    (forall r rest,
       upload remote = r :: rest ->
       (forall e, Props.rejection "Upload failed" r = Some e ->
                  outcome (uploadAudio remote audioBlob) = Threw e) /\
       (forall data, Props.accepted r = Some data ->
                     outcome (uploadAudio remote audioBlob)
                     = Returned (Payload.upload_url data))) /\
    (forall r rest,
       transcribe remote = r :: rest ->
       (forall e, Props.rejection "Transcription start failed" r = Some e ->
                  outcome (startTranscription remote audioUrl) = Threw e) /\
       (forall data, Props.accepted r = Some data ->
                     outcome (startTranscription remote audioUrl)
                     = Returned (Payload.id data))).
Proof.
  intros remote audioBlob audioUrl.
  rewrite uploadAudio_run, startTranscription_run. cbn [events outcome fst snd].
  split; [reflexivity|]. split; [reflexivity|].
  split; [now intros ->|]. split; [now intros ->|].
  split; intros r rest ->; split.
  - now intros e ->.
  - intros data Ha.
    destruct (rejected_or_accepted "Upload failed" r)
      as [(e & _ & Hn) | (body & _ & -> & _)]; [congruence|].
    now rewrite Ha.
  - now intros e ->.
  - intros data Ha.
    destruct (rejected_or_accepted "Transcription start failed" r)
      as [(e & _ & Hn) | (body & _ & -> & _)]; [congruence|].
    now rewrite Ha.
Qed.

Lemma upload_and_start_outcomes_witness :
  outcome (uploadAudio Examples.refusing "audio")
  = Threw (new_Error "quota exceeded") /\
  outcome (startTranscription Examples.unreachable (Some "u"))
  = Threw (new_Error "Failed to fetch") /\
  outcome (uploadAudio Examples.completing "audio")
  = Returned (Some "https://cdn.example/upload/1") /\
  outcome (startTranscription Examples.refusing (Some "u")) = Pending.
Proof.
  destruct (upload_and_start_outcomes Examples.refusing "audio" (Some "u"))
    as (_ & _ & _ & Hp & Hu & _).
  destruct (upload_and_start_outcomes Examples.unreachable "audio" (Some "u"))
    as (_ & _ & _ & _ & _ & Hs).
  destruct (upload_and_start_outcomes Examples.completing "audio" (Some "u"))
    as (_ & _ & _ & _ & Hok & _).
  split; [|split; [|split]].
  - apply (proj1 (Hu _ _ eq_refl)). reflexivity.
  - apply (proj1 (Hs _ _ eq_refl)). reflexivity.
  - apply (proj2 (Hok _ _ eq_refl) (Examples.payload "uploaded")). reflexivity.
  - apply Hp. reflexivity.
Defined.

Lemma poll_loop_rejected (url : string) (r : Reply) (later : list Reply)
    (e : Error) :
  Props.rejection "Polling failed" r = Some e ->
  poll_loop url (r :: later) = ([Fetch url "GET" NoBody], Threw e).
Proof.
  destruct r as [e' | [o [data | e']]]; simpl.
  - intros [= ->]. reflexivity.
  - destruct o; [discriminate|]. intros [= <-]. reflexivity.
  - intros [= ->]. destruct o; reflexivity.
Qed.

(** X5.  A poll that meets, after any number of replies that are not
    terminal, a network error, a body that does not parse or an error
    status stops there: it throws that error (for an error status the
    error text of the body, or Polling failed) without a further delay
    or request. *)
Theorem pollTranscription_stops_at_rejection :
  forall (remote : Remote) (transcriptId : option string)
         (before : list Reply) (r : Reply) (later : list Reply) (e : Error),
    Forall Spec.waiting before ->
    poll remote = before ++ r :: later ->
    Props.rejection "Polling failed" r = Some e ->
    pollTranscription remote transcriptId
    = (Spec.rounds (status_url transcriptId) (List.length before), Threw e) /\
    Spec.delays (events (pollTranscription remote transcriptId))
    = repeat 3000 (List.length before) /\
    List.length (Spec.fetches (events (pollTranscription remote transcriptId)))
    = S (List.length before).
Proof.
  intros remote transcriptId before r later e Hw Hpoll Hr.
  unfold pollTranscription. rewrite Hpoll.
  rewrite (poll_loop_through _ before _ _ Hw
             (poll_loop_rejected _ r later e Hr)).
  cbn [events fst]. rewrite delays_rounds, fetches_rounds, repeat_length.
  auto.
Qed.

Lemma pollTranscription_stops_at_rejection_witness :
  pollTranscription
    {| upload := []; transcribe := [];
       poll := [Examples.reply "queued"; Examples.rejected "gone";
                Examples.reply "completed"] |}
    (Some "job-42")
  = ([Fetch "/api/assembly-status?id=job-42" "GET" NoBody; Delay 3000;
      Fetch "/api/assembly-status?id=job-42" "GET" NoBody],
     Threw (new_Error "gone")).
Proof.
  apply (fun Hw Hp Hr => proj1 (pollTranscription_stops_at_rejection
           {| upload := []; transcribe := [];
              poll := [Examples.reply "queued"; Examples.rejected "gone";
                       Examples.reply "completed"] |}
           (Some "job-42") [Examples.reply "queued"]
           (Examples.rejected "gone") [Examples.reply "completed"]
           (new_Error "gone") Hw Hp Hr)).
  - repeat constructor. apply queued_is_waiting; reflexivity.
  - reflexivity.
  - reflexivity.
Defined.

End Stages.

Section WorkflowTrace.

Import Js Async Async.Notations Assembly.

Lemma events_report (onProgress : bool) (status : string) :
  events (report onProgress status) = Props.reported onProgress status.
Proof. destruct onProgress; reflexivity. Qed.

(** The trace of the [try] block, stage by stage. *)
Lemma workflow_events (remote : Remote) (audioFile : Blob)
    (onProgress : bool) :
  events (transcribeWithDiarization remote audioFile onProgress)
  = Props.reported onProgress "Uploading audio..."
    ++ events (uploadAudio remote audioFile)
    ++ match outcome (uploadAudio remote audioFile) with
       | Returned uploadUrl =>
           Props.reported onProgress "Starting speaker detection..."
           ++ events (startTranscription remote uploadUrl)
           ++ match outcome (startTranscription remote uploadUrl) with
              | Returned transcriptId =>
                  Props.reported onProgress
                    "Processing audio (this may take a moment)..."
                  ++ events (pollTranscription remote transcriptId)
              | _ => []
              end
       | _ => []
       end.
Proof.
  unfold transcribeWithDiarization. rewrite events_try_catch_ret.
  unfold workflow.
  rewrite events_bind, events_report, outcome_report, events_bind.
  destruct (outcome (uploadAudio remote audioFile)) as [uploadUrl|e|];
    [|reflexivity..].
  rewrite events_bind, events_report, outcome_report, events_bind.
  destruct (outcome (startTranscription remote uploadUrl))
    as [transcriptId|e|]; [|reflexivity..].
  rewrite events_bind, events_report, outcome_report, events_bind.
  destruct (outcome (pollTranscription remote transcriptId));
    cbn [events ret fst]; now rewrite ?app_nil_r.
Qed.

(** X6.  In a run that completes, the reference the upload returned is
    the [audio_url] of the job start, and the identifier the job start
    returned is the one every poll asks for; each stage is announced to
    the progress callback just before its first request, and nothing
    else is requested. *)
Theorem completed_run_trace :
  forall (remote : Remote) (audioFile : Blob) (onProgress : bool)
         (uploaded started : Payload.t) (rest1 rest2 : list Reply)
         (before : list Reply) (data : Payload.t) (later : list Reply),
    upload remote = Spec.reply_with uploaded :: rest1 ->
    transcribe remote = Spec.reply_with started :: rest2 ->
    poll remote = before ++ Spec.reply_with data :: later ->
    Forall Spec.waiting before ->
    Payload.status data = Some "completed" ->
    transcribeWithDiarization remote audioFile onProgress
    = (Props.reported onProgress "Uploading audio..."
       ++ [Fetch "/api/assembly-upload" "POST" (Raw audioFile)]
       ++ Props.reported onProgress "Starting speaker detection..."
       ++ [Fetch "/api/assembly-transcribe" "POST"
             (audio_url_body (Payload.upload_url uploaded))]
       ++ Props.reported onProgress
            "Processing audio (this may take a moment)..."
       ++ Spec.rounds (status_url (Payload.id started)) (List.length before),
       Returned (format_result data)).
Proof.
  intros remote audioFile onProgress uploaded started rest1 rest2 before
    data later Hu Hs Hp Hw Hc.
  assert (Hpoll : pollTranscription remote (Payload.id started)
                  = (Spec.rounds (status_url (Payload.id started))
                       (List.length before), Returned data)).
  { unfold pollTranscription. rewrite Hp.
    apply (poll_loop_through _ before _ _ Hw).
    now apply poll_loop_completed. }
  apply injective_projections.
  - change (fst ?m) with (events m) at 1.
    rewrite workflow_events, uploadAudio_run, Hu.
    cbn [events outcome fst snd Props.rejection Props.accepted
         Spec.reply_with json ok].
    rewrite startTranscription_run, Hs.
    cbn [events outcome fst snd Props.rejection Props.accepted
         Spec.reply_with json ok].
    rewrite Hpoll. reflexivity.
  - change (snd ?m) with (outcome m) at 1.
    rewrite transcribeWithDiarization_outcome, workflow_outcome.
    rewrite uploadAudio_run, Hu.
    cbn [outcome snd Props.rejection Props.accepted Spec.reply_with json ok].
    rewrite startTranscription_run, Hs.
    cbn [outcome snd Props.rejection Props.accepted Spec.reply_with json ok].
    rewrite Hpoll. reflexivity.
Qed.

Lemma completed_run_trace_witness :
  events (transcribeWithDiarization Examples.completing "audio" true)
  = [ Progress "Uploading audio...";
      Fetch "/api/assembly-upload" "POST" (Raw "audio");
      Progress "Starting speaker detection...";
      Fetch "/api/assembly-transcribe" "POST"
        (JsonBody [("audio_url", "https://cdn.example/upload/1")]);
      Progress "Processing audio (this may take a moment)...";
      Fetch "/api/assembly-status?id=job-42" "GET" NoBody; Delay 3000;
      Fetch "/api/assembly-status?id=job-42" "GET" NoBody; Delay 3000;
      Fetch "/api/assembly-status?id=job-42" "GET" NoBody ].
Proof.
  rewrite (completed_run_trace Examples.completing "audio" true
             (Examples.payload "uploaded") (Examples.payload "queued") [] []
             [Examples.reply "processing"; Examples.reply "processing"]
             (Examples.payload "completed") []); try reflexivity.
  repeat constructor; apply queued_is_waiting; reflexivity.
Defined.

(** X7.  A stage that fails ends the requests: after a failed upload
    the job is not started and nothing is polled, after a failed job
    start nothing is polled, and the progress callback hears of no later
    stage. *)
Theorem failed_stage_ends_requests :
  forall (remote : Remote) (audioFile : Blob) (onProgress : bool),
    let run := transcribeWithDiarization remote audioFile onProgress in
    (forall e,
       outcome (uploadAudio remote audioFile) = Threw e ->
       Spec.fetches (events run) = ["/api/assembly-upload"] /\
       Props.reports (events run)
       = (if onProgress then ["Uploading audio..."] else []) /\
       Spec.delays (events run) = []) /\
    (forall uploadUrl e,
       outcome (uploadAudio remote audioFile) = Returned uploadUrl ->
       outcome (startTranscription remote uploadUrl) = Threw e ->
       Spec.fetches (events run)
       = ["/api/assembly-upload"; "/api/assembly-transcribe"] /\
       Props.reports (events run)
       = (if onProgress
          then ["Uploading audio..."; "Starting speaker detection..."]
          else []) /\
       Spec.delays (events run) = []).
Proof.
  intros remote audioFile onProgress run. unfold run.
  rewrite workflow_events. split.
  - intros e Hu. rewrite Hu. rewrite uploadAudio_run. cbn [events fst].
    destruct onProgress; repeat split; reflexivity.
  - intros uploadUrl e Hu Hs. rewrite Hu, Hs.
    rewrite uploadAudio_run, startTranscription_run. cbn [events fst].
    destruct onProgress; repeat split; reflexivity.
Qed.

Lemma failed_stage_ends_requests_witness :
  Spec.fetches
    (events (transcribeWithDiarization Examples.refusing "audio" true))
  = ["/api/assembly-upload"] /\
  Spec.fetches
    (events (transcribeWithDiarization Examples.unreachable "audio" true))
  = ["/api/assembly-upload"; "/api/assembly-transcribe"].
Proof.
  split.
  - apply (proj1 (failed_stage_ends_requests Examples.refusing "audio" true)
             (new_Error "quota exceeded")).
    reflexivity.
  - apply (proj2 (failed_stage_ends_requests Examples.unreachable "audio" true)
             (Some "https://cdn.example/upload/1")
             (new_Error "Failed to fetch")); reflexivity.
Defined.

(** X8.  A success reply that lacks the expected property is not
    detected.  When the upload reply has no [upload_url] and the job
    reply no [id], the job is started with an empty JSON body, the polls
    ask for the job [undefined], and the run completes all the same when
    the status endpoint reports a completed job. *)
Theorem missing_reference_not_detected :
  forall (remote : Remote) (audioFile : Blob)
         (uploaded started : Payload.t) (rest1 rest2 : list Reply)
         (data : Payload.t) (later : list Reply),
    upload remote = Spec.reply_with uploaded :: rest1 ->
    transcribe remote = Spec.reply_with started :: rest2 ->
    poll remote = Spec.reply_with data :: later ->
    Payload.upload_url uploaded = None ->
    Payload.id started = None ->
    Payload.status data = Some "completed" ->
    transcribeWithDiarization remote audioFile false
    = ([ Fetch "/api/assembly-upload" "POST" (Raw audioFile);
         Fetch "/api/assembly-transcribe" "POST" (JsonBody []);
         Fetch "/api/assembly-status?id=undefined" "GET" NoBody ],
       Returned (format_result data)).
Proof.
  intros remote audioFile uploaded started rest1 rest2 data later
    Hu Hs Hp Hurl Hid Hc.
  assert (Hpoll : pollTranscription remote None
                  = ([Fetch "/api/assembly-status?id=undefined" "GET" NoBody],
                     Returned data)).
  { unfold pollTranscription. rewrite Hp.
    now apply poll_loop_completed. }
  apply injective_projections.
  - change (fst ?m) with (events m) at 1.
    rewrite workflow_events, uploadAudio_run, Hu.
    cbn [events outcome fst snd Props.rejection Props.accepted
         Spec.reply_with json ok].
    rewrite Hurl, startTranscription_run, Hs.
    cbn [events outcome fst snd Props.rejection Props.accepted
         Spec.reply_with json ok].
    rewrite Hid, Hpoll. reflexivity.
  - change (snd ?m) with (outcome m) at 1.
    rewrite transcribeWithDiarization_outcome, workflow_outcome.
    rewrite uploadAudio_run, Hu.
    cbn [outcome snd Props.rejection Props.accepted Spec.reply_with json ok].
    rewrite Hurl, startTranscription_run, Hs.
    cbn [outcome snd Props.rejection Props.accepted Spec.reply_with json ok].
    rewrite Hid, Hpoll. reflexivity.
Qed.

Lemma missing_reference_not_detected_witness :
  transcribeWithDiarization Cases.careless "audio" false
  = ([ Fetch "/api/assembly-upload" "POST" (Raw "audio");
       Fetch "/api/assembly-transcribe" "POST" (JsonBody []);
       Fetch "/api/assembly-status?id=undefined" "GET" NoBody ],
     Returned (format_result Cases.done)).
Proof.
  apply (missing_reference_not_detected Cases.careless "audio"
           Cases.bare Cases.bare [] [] Cases.done []); reflexivity.
Defined.

End WorkflowTrace.

Section ResultInvariant.

Import Js Async Assembly.

Lemma join_lines (u : DiarizedUtterance.t) (us : list DiarizedUtterance.t) :
  join (newline ++ newline) (map utterance_line (u :: us))
  = Spec.lines (u :: us).
Proof.
  revert u. induction us as [|u' us IH]; intros u; [reflexivity|].
  cbn [map join Spec.lines] in *. rewrite <- IH.
  unfold utterance_line. cbn [append].
  rewrite !append_assoc. reflexivity.
Qed.

Lemma speakers_bounded (result : Payload.t) :
  (List.length (DiarizedTranscript.speakers (format_result result))
   <= List.length (DiarizedTranscript.utterances (format_result result)))%nat.
Proof.
  destruct (format_result_speakers result) as (_ & _ & Hnd & Hin).
  cbv zeta in Hin.
  rewrite <- (length_map DiarizedUtterance.speaker
                (DiarizedTranscript.utterances (format_result result))).
  apply NoDup_incl_length; [exact Hnd|].
  intros s Hs. now apply Hin.
Qed.

Lemma format_completed (t : DiarizedTranscript.t) :
  DiarizedTranscript.status t = Status.completed ->
  formatDiarizedTranscript t
  = match DiarizedTranscript.utterances t with
    | [] => DiarizedTranscript.text t
    | us => Spec.lines us
    end.
Proof.
  intros Hs. unfold formatDiarizedTranscript. rewrite Hs.
  destruct (DiarizedTranscript.utterances t) as [|u us]; [reflexivity|].
  cbn [List.length Nat.eqb]. apply join_lines.
Qed.

(** X9.  Whatever the remote service does, a transcript the composite
    operation resolves with is of one of two shapes.  In status error it
    has an error message, no text, no utterances and no speakers, and
    renders as [Error: ] followed by that message.  In status completed
    it has no error message and no more speakers than utterances, and
    renders as its full text when it has no utterance and as the lines
    of its utterances otherwise. *)
Theorem resolved_transcript_shape :
  forall (remote : Remote) (audioFile : Blob) (onProgress : bool)
         (t : DiarizedTranscript.t),
    outcome (transcribeWithDiarization remote audioFile onProgress)
    = Returned t ->
    (DiarizedTranscript.status t = Status.error /\
     DiarizedTranscript.text t = "" /\
     DiarizedTranscript.utterances t = [] /\
     DiarizedTranscript.speakers t = [] /\
     exists message,
       DiarizedTranscript.error t = Some message /\
       formatDiarizedTranscript t = ("Error: " ++ message)%string) \/
    (DiarizedTranscript.status t = Status.completed /\
     DiarizedTranscript.error t = None /\
     (List.length (DiarizedTranscript.speakers t)
      <= List.length (DiarizedTranscript.utterances t))%nat /\
     formatDiarizedTranscript t
     = match DiarizedTranscript.utterances t with
       | [] => DiarizedTranscript.text t
       | us => Spec.lines us
       end).
Proof.
  intros remote audioFile onProgress t Hrun.
  rewrite transcribeWithDiarization_outcome, workflow_outcome in Hrun.
  assert (Herr : forall e, Returned (failed e) = Returned t ->
                           DiarizedTranscript.status t = Status.error /\
                           DiarizedTranscript.text t = "" /\
                           DiarizedTranscript.utterances t = [] /\
                           DiarizedTranscript.speakers t = [] /\
                           exists message,
                             DiarizedTranscript.error t = Some message /\
                             formatDiarizedTranscript t
                             = ("Error: " ++ message)%string).
  { intros e [= <-]. repeat split. exists (message e). split; reflexivity. }
  destruct (outcome (uploadAudio remote audioFile)) as [uploadUrl|e|];
    [| left; now apply (Herr e) | discriminate].
  destruct (outcome (startTranscription remote uploadUrl))
    as [transcriptId|e|]; [| left; now apply (Herr e) | discriminate].
  destruct (outcome (pollTranscription remote transcriptId))
    as [result|e|]; [| left; now apply (Herr e) | discriminate].
  injection Hrun as <-. right.
  split; [reflexivity|]. split; [reflexivity|].
  split; [apply speakers_bounded|].
  now apply format_completed.
Qed.

Lemma resolved_transcript_shape_witness :
  formatDiarizedTranscript (failed (new_Error "quota exceeded"))
  = "Error: quota exceeded" /\
  formatDiarizedTranscript (format_result Cases.done) = "one voice only".
Proof.
  split.
  - destruct (resolved_transcript_shape Examples.refusing "audio" true
                (failed (new_Error "quota exceeded")) eq_refl)
      as [(_ & _ & _ & _ & m & Hm & Hf) | (Hs & _)]; [|discriminate].
    injection Hm as <-. exact Hf.
  - destruct (resolved_transcript_shape Cases.careless "audio" true
                (format_result Cases.done) eq_refl)
      as [(Hs & _) | (_ & _ & _ & Hf)]; [discriminate|].
    exact Hf.
Defined.

End ResultInvariant.

Section SpeakerSet.

Import Js Async Assembly.

Lemma HdRel_all (a : string) (l : list string) :
  Sorted Spec.string_lt l -> HdRel Spec.string_lt a l ->
  forall s, In s l -> Spec.string_lt a s.
Proof.
  induction 1 as [|b l Hl IH Hb]; intros Ha s; [intros []|].
  inversion Ha as [|? ? Hab]; subst.
  intros [<- | Hs]; [assumption|].
  apply IH; [|assumption].
  destruct Hb; constructor. eapply string_lt_trans; eassumption.
Qed.

(** Two strictly increasing lists with the same members are equal. *)
Lemma sorted_unique (l1 : list string) :
  forall l2,
    Sorted Spec.string_lt l1 -> Sorted Spec.string_lt l2 ->
    (forall s, In s l1 <-> In s l2) -> l1 = l2.
Proof.
  induction l1 as [|a l1 IH]; intros [|b l2] S1 S2 Hin.
  - reflexivity.
  - destruct (proj2 (Hin b)); now left.
  - destruct (proj1 (Hin a)); now left.
  - inversion S1 as [|? ? S1' H1]; inversion S2 as [|? ? S2' H2]; subst.
    pose proof (HdRel_all a l1 S1' H1) as A.
    pose proof (HdRel_all b l2 S2' H2) as B.
    assert (a = b).
    { destruct (proj1 (Hin a) (or_introl eq_refl)) as [E | Ha]; [auto|].
      destruct (proj2 (Hin b) (or_introl eq_refl)) as [E | Hb]; [auto|].
      exfalso. apply (string_lt_irrefl a).
      apply (string_lt_trans a b a); auto. }
    subst b. f_equal. apply IH; try assumption.
    intros s. split; intros Hs.
    + destruct (proj1 (Hin s) (or_intror Hs)) as [<- | H]; [|exact H].
      exfalso. apply (string_lt_irrefl a). now apply A.
    + destruct (proj2 (Hin s) (or_intror Hs)) as [<- | H]; [|exact H].
      exfalso. apply (string_lt_irrefl a). now apply B.
Qed.

(** X10.  The speakers of a transcript depend only on which labels
    occur in the payload: two payloads whose utterances carry the same
    labels, in whatever order and however often, give the same speakers.
    A payload without utterances gives none. *)
Theorem speakers_depend_on_labels_only :
  forall r1 r2 : Payload.t,
    (forall s, In s (Props.labels r1) <-> In s (Props.labels r2)) ->
    DiarizedTranscript.speakers (format_result r1)
    = DiarizedTranscript.speakers (format_result r2) /\
    (Props.labels r1 = [] ->
     DiarizedTranscript.speakers (format_result r1) = []).
Proof.
  intros r1 r2 Hsame.
  assert (L : forall r,
             map DiarizedUtterance.speaker
               (DiarizedTranscript.utterances (format_result r))
             = Props.labels r).
  { intros r. unfold format_result, Props.labels.
    cbn [DiarizedTranscript.utterances]. now rewrite map_map. }
  destruct (format_result_speakers r1) as (E1 & S1 & _ & I1).
  destruct (format_result_speakers r2) as (_ & S2 & _ & I2).
  cbv zeta in *. rewrite L in *. split.
  - apply sorted_unique; try assumption.
    intros s. now rewrite I1, I2.
  - intros Hnil. rewrite E1, Hnil. reflexivity.
Qed.

Lemma speakers_depend_on_labels_only_witness :
  DiarizedTranscript.speakers (format_result (Examples.payload "completed"))
  = DiarizedTranscript.speakers
      (format_result
         {| Payload.error := None; Payload.upload_url := None;
            Payload.id := None; Payload.status := Some "completed";
            Payload.text := "";
            Payload.utterances :=
              Some [Examples.utterance "A" "there";
                    Examples.utterance "B" "hello"] |}).
Proof.
  apply speakers_depend_on_labels_only.
  intros s. simpl. tauto.
Defined.

End SpeakerSet.

(* ===================================================================== *)
(** * Further properties of the realtime client *)
(* ===================================================================== *)

Section TokenAndStart.

Import Js Async Async.Notations Session.

(** X11.  The availability check makes one request to the token endpoint
    and never throws: it returns the success flag of the response
    without reading the body, returns false when the request fails, and
    stays pending while there is no reply. *)
Theorem checkAssemblyAvailable_never_throws :
  forall reply : option Reply,
    events (checkAssemblyAvailable reply)
    = [Fetch "/api/assembly-token" "POST" NoBody] /\
    outcome (checkAssemblyAvailable reply)
    = match reply with
      | None => Pending
      | Some (NetworkError _) => Returned false
      | Some (Http response) => Returned (ok response)
      end /\
    forall e, outcome (checkAssemblyAvailable reply) <> Threw e.
Proof.
  intros [[e | response]|]; repeat split; discriminate.
Qed.

Lemma getRealtimeToken_run (reply : option Reply) :
  getRealtimeToken reply
  = ([Fetch "/api/assembly-token" "POST" NoBody],
     match reply with
     | None => Pending
     | Some (NetworkError e) => Threw e
     | Some (Http response) =>
         match json response with
         | inr e => Threw e
         | inl body =>
             if ok response then Returned (TokenBody.token body)
             else Threw (new_Error
                           (or_else (TokenBody.error body)
                              "Failed to get realtime token"))
         end
     end).
Proof.
  destruct reply as [[e | [o [body | e]]]|]; try reflexivity;
    destruct o; reflexivity.
Qed.

Lemma start_run (reply : option Reply) (WebSocket : string -> option Error) :
  startRealtimeTranscription reply WebSocket
  = let settled :=
      match outcome (getRealtimeToken reply) with
      | Returned token =>
          let url :=
            (ASSEMBLY_REALTIME_URL ++ "?sample_rate=16000&token="
             ++ template token)%string in
          match WebSocket url with
          | Some e => Threw e
          | None => Returned {| socket := url |}
          end
      | Threw e => Threw e
      | Pending => Pending
      end in
    (match settled with
     | Threw e => [Realtime.onError (message e)]
     | _ => []
     end,
     ([Fetch "/api/assembly-token" "POST" NoBody], settled)).
Proof.
  unfold startRealtimeTranscription. rewrite getRealtimeToken_run.
  cbn [outcome snd].
  destruct reply as [[e | [o [body | e]]]|]; cbn [json ok bind];
    try reflexivity.
  destruct o; cbn [bind]; [|reflexivity].
  cbv zeta. destruct (WebSocket _); reflexivity.
Qed.

(** X12.  Starting a realtime session asks for a token once.  Unlike the
    batch workflow it does not recover: when the token request or the
    socket constructor fails it reports the message through [onError]
    exactly once and rejects with the same error, and [onError] is
    called in no other case.  When the token request fails the result
    does not depend on the socket: none is opened.  On success the
    socket URL carries the sample rate and the token of the reply, or
    the text [undefined] when the reply has no token. *)
Theorem startRealtimeTranscription_reports_and_rethrows :
  forall (reply : option Reply) (WebSocket : string -> option Error),
    let reported := fst (startRealtimeTranscription reply WebSocket) in
    let run := snd (startRealtimeTranscription reply WebSocket) in
    events run = [Fetch "/api/assembly-token" "POST" NoBody] /\
    (forall e, outcome run = Threw e ->
               reported = [Realtime.onError (message e)]) /\
    ((forall e, outcome run <> Threw e) -> reported = []) /\
    (forall e, outcome (getRealtimeToken reply) = Threw e ->
               forall WebSocket',
                 startRealtimeTranscription reply WebSocket'
                 = ([Realtime.onError (message e)],
                    ([Fetch "/api/assembly-token" "POST" NoBody], Threw e))) /\
    (forall token,
       outcome (getRealtimeToken reply) = Returned token ->
       let url :=
         ("wss://api.assemblyai.com/v2/realtime/ws?sample_rate=16000&token="
          ++ template token)%string in
       outcome run = match WebSocket url with
                     | Some e => Threw e
                     | None => Returned {| socket := url |}
                     end).
Proof.
  intros reply WebSocket reported run.
  unfold reported, run. rewrite start_run. cbn [fst snd events outcome].
  split; [reflexivity|]. split; [|split; [|split]].
  - intros e ->. reflexivity.
  - intros H.
    destruct (outcome (getRealtimeToken reply)) as [token|e|];
      [|now destruct (H e) | reflexivity].
    destruct (WebSocket _) as [e|]; [now destruct (H e) | reflexivity].
  - intros e He WebSocket'. rewrite start_run, He. reflexivity.
  - intros token ->. reflexivity.
Qed.

Lemma startRealtimeTranscription_reports_and_rethrows_witness :
  startRealtimeTranscription
    (Some (Cases.token_reply false (Some "no credits") None)) (fun _ => None)
  = ([Realtime.onError "no credits"],
     ([Fetch "/api/assembly-token" "POST" NoBody],
      Threw (new_Error "no credits"))) /\
  outcome
    (snd (startRealtimeTranscription
            (Some (Cases.token_reply true None (Some "t0k"))) (fun _ => None)))
  = Returned
      {| socket :=
           "wss://api.assemblyai.com/v2/realtime/ws?sample_rate=16000&token=t0k" |}.
Proof.
  split.
  - destruct (startRealtimeTranscription_reports_and_rethrows
                (Some (Cases.token_reply false (Some "no credits") None))
                (fun _ => None)) as (_ & _ & _ & H & _).
    apply (H (new_Error "no credits")). reflexivity.
  - destruct (startRealtimeTranscription_reports_and_rethrows
                (Some (Cases.token_reply true None (Some "t0k")))
                (fun _ => None)) as (_ & _ & _ & _ & H).
    apply (H (Some "t0k")). reflexivity.
Defined.

End TokenAndStart.

Section Microphone.

Import Js Async Realtime Session.

Lemma live_from_live (n : nat) :
  forall k, Spec.live_from k (repeat live n) = List.seq k n.
Proof.
  induction n as [|n IH]; intros k; simpl; [reflexivity|]. now rewrite IH.
Qed.

(** The handler once the microphone is granted: the stream is assigned
    and the tracks are live, whatever fails afterwards. *)
Lemma onopen_granted (faults : SetupStep -> option Error) (granted : nat)
    (b : Browser) :
  faults getUserMedia = None ->
  exists vars opened reported,
    onopen faults granted unassigned b = (vars, opened, reported) /\
    (readyState opened = readyState b /\ sent opened = sent b /\
     calls opened = calls b /\ released opened = released b /\
     tracks opened = repeat live granted) /\
    stream vars = true /\
    ((reported = [] /\ vars = Examples.assigned /\
      forall step, faults step = None) \/
     exists step e,
       faults step = Some e /\
       reported = [onError ("Microphone access failed: " ++ message e)]).
Proof.
  intros F1. unfold onopen. rewrite F1.
  destruct (faults new_AudioContext) as [e|] eqn:F2;
    [do 3 eexists; split; [reflexivity|]; split; [now repeat split|];
     split; [reflexivity|]; eauto|].
  destruct (faults createMediaStreamSource) as [e|] eqn:F3;
    [do 3 eexists; split; [reflexivity|]; split; [now repeat split|];
     split; [reflexivity|]; eauto|].
  destruct (faults createScriptProcessor) as [e|] eqn:F4;
    [do 3 eexists; split; [reflexivity|]; split; [now repeat split|];
     split; [reflexivity|]; eauto|].
  destruct (faults source_connect) as [e|] eqn:F5;
    [do 3 eexists; split; [reflexivity|]; split; [now repeat split|];
     split; [reflexivity|]; eauto|].
  destruct (faults processor_connect) as [e|] eqn:F6;
    [do 3 eexists; split; [reflexivity|]; split; [now repeat split|];
     split; [reflexivity|]; eauto|].
  do 3 eexists; split; [reflexivity|]; split; [now repeat split|];
    split; [reflexivity|].
  left. repeat split. intros []; assumption.
Qed.

(** X13.  Whichever step of the [onopen] handler fails, the handler
    does not touch the socket, reports at most one error, a microphone
    failure carrying the message of the step that failed, and leaves the
    stream assigned as soon as the microphone was granted: a later
    [stop] then ends every track that was granted and releases each
    once.  When the microphone is refused nothing is assigned. *)
Theorem onopen_failure_leaves_stream_stoppable :
  forall (faults : SetupStep -> option Error) (granted : nat) (b : Browser),
    let setup := onopen faults granted unassigned b in
    let vars := fst (fst setup) in
    let opened := snd (fst setup) in
    let reported := snd setup in
    (readyState opened = readyState b /\ sent opened = sent b /\
     calls opened = calls b /\ released opened = released b) /\
    ((forall step, faults step = None) -> reported = [] /\
       vars = Examples.assigned) /\
    (forall m, In m reported ->
       exists step e,
         faults step = Some e /\
         m = onError ("Microphone access failed: " ++ message e)) /\
    (List.length reported <= 1)%nat /\
    (forall e, faults getUserMedia = Some e ->
               vars = unassigned /\ opened = b) /\
    (faults getUserMedia = None ->
     let stopped := stop no_faults vars opened in
     snd stopped = Returned tt /\
     tracks (fst stopped) = repeat ended granted /\
     released (fst stopped) = released b ++ List.seq 0 granted).
Proof.
  intros faults granted b setup vars opened reported.
  unfold reported, opened, vars, setup.
  destruct (faults getUserMedia) as [e1|] eqn:F1.
  - unfold onopen. rewrite F1.
    cbn [fst snd microphone_failed List.length In].
    split; [auto|]. split; [intros H; rewrite H in F1; discriminate|].
    split; [intros m [<- | []]; eauto|]. split; [lia|].
    split; [auto | discriminate].
  - destruct (onopen_granted faults granted b F1)
      as (vs & op & rep & -> & (Hs & Hm & Hc & Hr & Ht) & Hstream & Hrep).
    cbn [fst snd].
    split; [auto|]. split; [|split; [|split; [|split]]].
    + intros Hnone.
      destruct Hrep as [(-> & -> & _) | (step & e & Hstep & _)]; [auto|].
      rewrite Hnone in Hstep. discriminate.
    + intros m Hin.
      destruct Hrep as [(-> & _) | (step & e & Hstep & ->)]; [destruct Hin|].
      destruct Hin as [<- | []]. eauto.
    + destruct Hrep as [(-> & _) | (step & e & _ & ->)]; simpl; lia.
    + discriminate.
    + intros _. cbv zeta. rewrite stop_no_faults.
      cbn [fst snd tracks released]. rewrite Hstream, Ht, Hr, repeat_length.
      unfold Spec.live_tracks. rewrite live_from_live. auto.
Qed.

Lemma onopen_failure_leaves_stream_stoppable_witness :
  let setup := onopen Cases.no_processor 2 unassigned Examples.streaming in
  snd setup = [onError "Microphone access failed: NotSupportedError"] /\
  tracks (fst (stop no_faults (fst (fst setup)) (snd (fst setup))))
  = [ended; ended].
Proof.
  intros setup.
  destruct (onopen_failure_leaves_stream_stoppable
              Cases.no_processor 2 Examples.streaming)
    as (_ & _ & _ & _ & _ & H).
  destruct (H eq_refl) as (_ & Ht & _).
  split; [reflexivity | exact Ht].
Defined.

(** X14.  [stop] called while the microphone request is still pending
    finds nothing to release: it closes the socket and returns.  When
    the microphone is then granted the handler goes on, assigns the
    stream and builds the graph without reporting anything: the tracks
    stay live although the session was stopped, no frame is sent any
    more, and only another call of [stop] releases them. *)
Theorem stop_before_grant_leaves_microphone_live :
  forall (granted : nat) (b : Browser) (inputData : list number),
    readyState b = OPEN ->
    let stopped := fst (stop no_faults unassigned b) in
    let setup := onopen Cases.no_setup_faults granted unassigned stopped in
    let vars := fst (fst setup) in
    let opened := snd (fst setup) in
    sent stopped = sent b ++ [terminate_session] /\
    snd setup = [] /\
    tracks opened = repeat live granted /\
    released opened = released b /\
    onaudioprocess no_faults inputData opened = (opened, Returned tt) /\
    released (fst (stop no_faults vars opened))
    = released b ++ List.seq 0 granted.
Proof.
  intros granted b inputData Hopen stopped setup vars opened.
  unfold opened, vars, setup, stopped. rewrite stop_no_faults.
  cbn [fst snd onopen Cases.no_setup_faults grant create_context readyState
       sent tracks calls released closed unhandled stream unassigned].
  rewrite Hopen. cbn [is_open]. rewrite app_nil_r.
  repeat split.
  rewrite stop_no_faults.
  cbn [fst snd tracks released stream assign_stream assign_audioContext
       assign_source assign_processor unassigned grant create_context].
  unfold Spec.live_tracks. now rewrite live_from_live.
Qed.

Lemma stop_before_grant_leaves_microphone_live_witness :
  tracks
    (snd (fst (onopen Cases.no_setup_faults 1 unassigned
                 (fst (stop no_faults unassigned Examples.streaming)))))
  = [live].
Proof.
  destruct (stop_before_grant_leaves_microphone_live 1 Examples.streaming []
              eq_refl) as (_ & _ & H & _).
  exact H.
Defined.

End Microphone.

Section MessageHandler.

Import Js Async Realtime.

(** The three ways the handler ends. *)
Lemma onmessage_shape (parsed : JSON + Error) :
  (exists text final,
     onmessage parsed = ([onTranscript text final], Returned tt) /\
     ~ (parsed = inl JNull \/ exists e, parsed = inr e)) \/
  (onmessage parsed = ([], Returned tt) /\
   ~ (parsed = inl JNull \/ exists e, parsed = inr e)) \/
  (exists e,
     onmessage parsed = ([], Threw e) /\
     (parsed = inl JNull \/ exists e', parsed = inr e')).
Proof.
  assert (N : forall data : JSON,
             data <> JNull ->
             ~ (@inl JSON Error data = inl JNull \/
                exists e, @inl JSON Error data = inr e)).
  { intros data Hd [[= H] | (e & H)]; [contradiction | discriminate]. }
  destruct parsed as [data | e].
  - destruct data as [|bl|n|s|items|fields].
    + right. right. eexists. split; [reflexivity | now left].
    + right. left. split; [reflexivity | apply N; discriminate].
    + right. left. split; [reflexivity | apply N; discriminate].
    + right. left. split; [reflexivity | apply N; discriminate].
    + right. left. split; [reflexivity | apply N; discriminate].
    + rewrite onmessage_object. cbv zeta.
      destruct (is_string (field fields "message_type") "FinalTranscript"
                && truthy (field fields "text"));
        [|destruct (is_string (field fields "message_type")
                      "PartialTranscript"
                    && truthy (field fields "text"))].
      * left. do 2 eexists. split; [reflexivity | apply N; discriminate].
      * left. do 2 eexists. split; [reflexivity | apply N; discriminate].
      * right. left. split; [reflexivity | apply N; discriminate].
  - right. right. exists e. split; [reflexivity | eauto].
Qed.

(** X15.  The message handler calls [onTranscript] at most once and
    never calls [onError].  It throws, without calling back, exactly on
    a message that is not JSON and on the JSON value null; on every
    other message it returns. *)
Theorem onmessage_calls_back_at_most_once :
  forall parsed : JSON + Error,
    let handled := onmessage parsed in
    (List.length (fst handled) <= 1)%nat /\
    (forall m, ~ In (onError m) (fst handled)) /\
    ((exists e, snd handled = Threw e) <->
     (parsed = inl JNull \/ exists e, parsed = inr e)) /\
    ((exists e, snd handled = Threw e) -> fst handled = []) /\
    ((forall e, snd handled <> Threw e) -> snd handled = Returned tt).
Proof.
  intros parsed handled. unfold handled.
  destruct (onmessage_shape parsed)
    as [(text & final & -> & Hok) | [(-> & Hok) | (e & -> & Hbad)]];
    cbn [fst snd List.length In].
  - split; [lia|]. split; [intros m [H | []]; discriminate|].
    split; [|split; [|reflexivity]].
    + split; [intros (e & He); discriminate | intros H; now destruct Hok].
    + intros (e & He). discriminate.
  - split; [lia|]. split; [tauto|].
    split; [|split; [|reflexivity]].
    + split; [intros (e & He); discriminate | intros H; now destruct Hok].
    + intros (e & He). discriminate.
  - split; [lia|]. split; [tauto|].
    split; [|split; [reflexivity|]].
    + split; [intros _; exact Hbad | eauto].
    + intros H. now destruct (H e).
Qed.

Lemma onmessage_calls_back_at_most_once_witness :
  fst (onmessage (inl JNull)) = [] /\
  snd (onmessage (inl Examples.session_begins)) = Returned tt.
Proof.
  split.
  - apply (proj1 (proj2 (proj2 (proj2
             (onmessage_calls_back_at_most_once (inl JNull)))))).
    exists (new_Error "Cannot read properties of null"). reflexivity.
  - apply (proj2 (proj2 (proj2 (proj2
             (onmessage_calls_back_at_most_once
                (inl Examples.session_begins)))))).
    intros e. discriminate.
Defined.

End MessageHandler.

(* ===================================================================== *)
(** * Further properties of the generative text client and of the app *)
(* ===================================================================== *)

Section Stream.

Import Js Async Async.Notations Gemini.

Lemma yield_chunks_run (chunks : list GenerateContentResponse.t) :
  yield_chunks chunks
  = (map (fun chunk => Yield (or_else (GenerateContentResponse.text chunk) ""))
       chunks,
     Returned tt).
Proof.
  induction chunks as [|chunk chunks IH]; [reflexivity|].
  cbn [yield_chunks map]. rewrite IH. reflexivity.
Qed.

Lemma fragments_yields (chunks : list GenerateContentResponse.t) :
  App.fragments
    (map (fun chunk => Yield (or_else (GenerateContentResponse.text chunk) ""))
       chunks)
  = map (fun chunk => or_else (GenerateContentResponse.text chunk) "") chunks.
Proof.
  induction chunks as [|chunk chunks IH]; [reflexivity|].
  cbn [map App.fragments]. now rewrite IH.
Qed.

(** The run of the transformation, from the answer of the provider. *)
Lemma transform_run (provider : StreamProvider) (native : string -> string)
    (meeting action_items : string) (process_env : option (option string))
    (text format : string) (options : Options) (apiKey : option string) :
  let key := or_else apiKey (or_else (getApiKey process_env) "") in
  let instruction :=
    (systemInstruction native options
     ++ formatInstruction meeting action_items format options)%string in
  transformContentStream provider native meeting action_items process_env
    text format options apiKey
  = (GenerateContent key "gemini-2.0-flash" [textPart text] (Some instruction)
     :: match provider key "gemini-2.0-flash" [textPart text]
                (Some instruction) with
        | Returned (chunks, _) =>
            map (fun chunk =>
                   Yield (or_else (GenerateContentResponse.text chunk) ""))
              chunks
        | _ => []
        end,
     match provider key "gemini-2.0-flash" [textPart text]
             (Some instruction) with
     | Returned (_, Some e) => Threw e
     | Returned (_, None) => Returned tt
     | Threw e => Threw e
     | Pending => Pending
     end).
Proof.
  cbv zeta. unfold transformContentStream, generateContentStream.
  cbv zeta.
  destruct (provider _ _ _ _) as [[chunks ending]|e|]; [|reflexivity..].
  unfold bind at 1. cbn [fst snd].
  rewrite yield_chunks_run. unfold bind.
  destruct ending; cbn; now rewrite ?app_nil_r.
Qed.

(** X16.  The transformation makes one request, with the transcript as
    its only part and the composed instruction.  The consumer receives
    one fragment per chunk of the stream, in the order of the chunks, a
    chunk without text as the empty fragment.  A stream that breaks has
    delivered the fragments of the chunks before the error, which is
    then thrown; a request that fails delivers none. *)
Theorem transformContentStream_fragments :
  forall (provider : StreamProvider) (native : string -> string)
         (meeting action_items : string)
         (process_env : option (option string))
         (text format : string) (options : Options) (apiKey : option string),
    let key := or_else apiKey (or_else (getApiKey process_env) "") in
    let instruction :=
      (systemInstruction native options
       ++ formatInstruction meeting action_items format options)%string in
    let answer :=
      provider key "gemini-2.0-flash" [textPart text] (Some instruction) in
    let run :=
      transformContentStream provider native meeting action_items process_env
        text format options apiKey in
    (forall chunks ending,
       answer = Returned (chunks, ending) ->
       events run
       = GenerateContent key "gemini-2.0-flash" [textPart text]
           (Some instruction)
         :: map Yield (App.fragments (events run)) /\
       App.fragments (events run)
       = map (fun chunk => or_else (GenerateContentResponse.text chunk) "")
           chunks /\
       outcome run = match ending with
                     | Some e => Threw e
                     | None => Returned tt
                     end) /\
    (forall e,
       answer = Threw e ->
       App.fragments (events run) = [] /\ outcome run = Threw e).
Proof.
  intros provider native meeting action_items process_env text format
    options apiKey key instruction answer run.
  unfold run. rewrite transform_run. fold key instruction answer.
  split.
  - intros chunks ending ->. cbn [events outcome fst snd App.fragments].
    rewrite fragments_yields. split; [|split].
    + now rewrite map_map.
    + reflexivity.
    + now destruct ending.
  - intros e ->. split; reflexivity.
Qed.

Lemma transformContentStream_fragments_witness :
  App.fragments
    (events (transformContentStream Cases.cut_stream (fun _ => "") "" ""
               None "hey team" "EMAIL" (Examples.options None None) None))
  = ["Dear "; ""; "team"] /\
  outcome (transformContentStream Cases.cut_stream (fun _ => "") "" ""
             None "hey team" "EMAIL" (Examples.options None None) None)
  = Threw (new_Error "stream reset").
Proof.
  destruct (transformContentStream_fragments Cases.cut_stream (fun _ => "")
              "" "" None "hey team" "EMAIL" (Examples.options None None) None)
    as (H & _).
  destruct (H _ _ eq_refl) as (_ & Hf & Ho).
  split; [exact Hf | exact Ho].
Defined.

(** X17.  The single-shot transcription never returns the empty string,
    and it does not recover from a failure of the provider: the error
    is thrown to the caller unchanged. *)
Theorem transcribeAudioFile_never_empty :
  forall (provider : Provider) (process_env : option (option string))
         (base64Data mimeType : string) (apiKey : option string),
    let run :=
      transcribeAudioFile provider process_env base64Data mimeType apiKey in
    (forall s, outcome run = Returned s -> s <> "") /\
    (forall e,
       provider (or_else apiKey (or_else (getApiKey process_env) ""))
         "gemini-2.0-flash"
         [ inlineData mimeType base64Data;
           textPart "Please provide a highly accurate word-for-word transcript of this audio. No summary, just text." ]
         None
       = Threw e ->
       outcome run = Threw e).
Proof.
  intros provider process_env base64Data mimeType apiKey run.
  unfold run, transcribeAudioFile, generateContent. cbv zeta. unfold bind.
  destruct (provider _ _ _ _) as [response|e|]; cbn [outcome snd ret].
  - split; [|discriminate].
    intros s [= <-]. unfold or_else.
    destruct (GenerateContentResponse.text response) as [t|]; [|discriminate].
    destruct (String.eqb_spec t ""); [discriminate | assumption].
  - split; [intros s H; discriminate H | intros e0 [= ->]; reflexivity].
  - split; [intros s H | intros e H]; discriminate H.
Qed.

Lemma transcribeAudioFile_never_empty_witness :
  "Transcription failed." <> "".
Proof.
  apply (proj1 (transcribeAudioFile_never_empty Examples.silent None
                  "UklGRg==" "audio/wav" (Some "key"))).
  reflexivity.
Defined.

End Stream.

Section Handler.

Import Js Async Gemini.

Lemma fold_output (frags : list string) (s : App.State) :
  fold_left
    (fun s chunk => App.set_output (App.transformedOutput s ++ chunk)%string s)
    frags s
  = App.set_output
      (App.transformedOutput s ++ fold_right append "" frags)%string s.
Proof.
  revert s. induction frags as [|f frags IH]; intros s.
  - cbn [fold_left fold_right]. rewrite append_empty_r. now destruct s.
  - cbn [fold_left fold_right]. rewrite IH. destruct s; cbn.
    now rewrite append_assoc.
Qed.

(** X18.  The transform handler does nothing on an empty transcript.
    Otherwise it asks with the key of the app, whatever the environment
    holds, and leaves as output the texts of the chunks received, joined
    in their order, in place of the older output.  When the request or
    the stream fails, the output keeps what arrived before the failure
    and the error is the fixed message; when the stream ends, the error
    is empty.  In both cases the handler is no longer transforming, and
    the transcript and the settings are as before. *)
Theorem handleTransform_outcomes :
  forall (provider : StreamProvider) (native : string -> string)
         (meeting action_items : string)
         (process_env : option (option string)) (apiKey : string)
         (s : App.State),
    let result :=
      fst (App.handleTransform provider native meeting action_items
             process_env apiKey s) in
    let trace :=
      snd (App.handleTransform provider native meeting action_items
             process_env apiKey s) in
    let options :=
      {| summaryLength := App.summaryLength s; customPrompt := None;
         tone := App.tone s; language := App.language s;
         styleGuide := App.styleGuide s |} in
    let answer :=
      provider apiKey "gemini-2.0-flash" [textPart (App.transcript s)]
        (Some (systemInstruction native options
               ++ formatInstruction meeting action_items
                    (App.outputFormat s) options)%string) in
    (App.transcript s = "" -> result = s /\ trace = []) /\
    (App.transcript s <> "" -> apiKey <> "" ->
     App.transcript result = App.transcript s /\
     App.outputFormat result = App.outputFormat s /\
     App.summaryLength result = App.summaryLength s /\
     App.tone result = App.tone s /\
     App.language result = App.language s /\
     App.styleGuide result = App.styleGuide s /\
     (forall chunks ending,
        answer = Returned (chunks, ending) ->
        App.transformedOutput result
        = fold_right append ""
            (map (fun chunk =>
                    or_else (GenerateContentResponse.text chunk) "") chunks) /\
        App.error result
        = match ending with
          | Some _ => "Failed to transform content."
          | None => ""
          end /\
        App.isTransforming result = false) /\
     (forall e,
        answer = Threw e ->
        App.transformedOutput result = "" /\
        App.error result = "Failed to transform content." /\
        App.isTransforming result = false)).
Proof.
  intros provider native meeting action_items process_env apiKey s
    result trace options answer.
  split.
  - intros E. unfold result, trace, App.handleTransform. rewrite E.
    split; reflexivity.
  - intros Ht Hk.
    assert (Ekey : or_else (Some apiKey) (or_else (getApiKey process_env) "")
                   = apiKey).
    { unfold or_else at 1. destruct (String.eqb_spec apiKey ""); congruence. }
    unfold result, App.handleTransform.
    destruct (String.eqb_spec (App.transcript s) "") as [E|_]; [congruence|].
    cbv zeta. unfold App.stream_of.
    rewrite transform_run. rewrite Ekey.
    cbn [events outcome fst snd App.fragments
         App.transcript App.outputFormat App.summaryLength App.tone
         App.language App.styleGuide App.transformedOutput App.error
         App.isTransforming App.set_output App.set_error
         App.set_transforming].
    fold options. fold answer.
    rewrite fold_output.
    cbn [App.transcript App.outputFormat App.summaryLength App.tone
         App.language App.styleGuide App.transformedOutput App.error
         App.isTransforming App.set_output App.set_error
         App.set_transforming append].
    destruct answer as [[chunks ending]|e|].
    + rewrite fragments_yields.
      destruct ending as [e|]; cbn; repeat (split; [reflexivity|]);
        (split; [|intros e0 H; discriminate H]);
        intros chunks' ending' [= <- <-]; repeat split; reflexivity.
    + cbn. repeat (split; [reflexivity|]).
      split; [intros chunks ending H; discriminate H|].
      intros e0 _. repeat split; reflexivity.
    + cbn. repeat (split; [reflexivity|]).
      split; [intros chunks ending H | intros e H]; discriminate H.
Qed.

Lemma handleTransform_outcomes_witness :
  App.transformedOutput
    (fst (App.handleTransform Cases.cut_stream (fun _ => "") "" ""
            (Some (Some "another key")) "app key" Cases.editing))
  = "Dear team" /\
  App.error
    (fst (App.handleTransform Cases.cut_stream (fun _ => "") "" ""
            (Some (Some "another key")) "app key" Cases.editing))
  = "Failed to transform content." /\
  App.isTransforming
    (fst (App.handleTransform Cases.cut_stream (fun _ => "") "" ""
            (Some (Some "another key")) "app key" Cases.editing))
  = false.
Proof.
  destruct (handleTransform_outcomes Cases.cut_stream (fun _ => "") "" ""
              (Some (Some "another key")) "app key" Cases.editing)
    as (_ & H).
  destruct H as (_ & _ & _ & _ & _ & _ & H & _);
    [discriminate | discriminate |].
  exact (H _ _ eq_refl).
Defined.

End Handler.

Section Clock.

Import App Props.

Lemma split_colon_digits (d : Decimal.uint) (rest : string) :
  split_colon (NilEmpty.string_of_uint d ++ String ":" rest)
  = (NilEmpty.string_of_uint d, Some rest).
Proof.
  induction d; cbn [NilEmpty.string_of_uint append split_colon Ascii.eqb];
    [reflexivity | cbn; rewrite IHd; reflexivity ..].
Qed.

Lemma split_colon_zeros (k : nat) (x : string) :
  split_colon (string_of_list_ascii (repeat "0"%char k) ++ x)
  = (string_of_list_ascii (repeat "0"%char k) ++ fst (split_colon x),
     snd (split_colon x))%string.
Proof.
  induction k as [|k IH]; cbn [repeat string_of_list_ascii append].
  - now destruct (split_colon x).
  - cbn [split_colon]. cbn [Ascii.eqb Bool.eqb]. cbn. rewrite IH. reflexivity.
Qed.

Lemma parse_nat_zeros (k : nat) (d : Decimal.uint) :
  parse_nat (string_of_list_ascii (repeat "0"%char k)
             ++ NilEmpty.string_of_uint d)
  = Some (Nat.of_uint d).
Proof.
  unfold parse_nat. induction k as [|k IH];
    cbn [repeat string_of_list_ascii append].
  - now rewrite NilEmpty.usu.
  - cbn [NilEmpty.uint_of_string].
    destruct (NilEmpty.uint_of_string _) as [u|]; [|discriminate IH].
    cbn in IH |- *. injection IH as IH. f_equal. exact IH.
Qed.

Lemma parse_padStart (n : nat) :
  parse_nat (padStart (toString n) 2 "0") = Some n.
Proof.
  unfold padStart, toString. rewrite parse_nat_zeros.
  now rewrite DecimalNat.Unsigned.of_to.
Qed.

(** X19.  The clock text of the recorder reads back as the number of
    seconds it was made from: minutes before the colon, seconds after
    it.  So two different durations never show the same text. *)
Theorem formatTime_reads_back :
  forall seconds : nat,
    parseTime (formatTime seconds) = Some seconds /\
    forall other : nat,
      formatTime other = formatTime seconds -> other = seconds.
Proof.
  assert (R : forall n, parseTime (formatTime n) = Some n).
  { intros n. unfold parseTime, formatTime. cbv zeta.
    unfold padStart at 1.
    rewrite append_assoc, split_colon_zeros.
    change (toString (n / 60))
      with (NilEmpty.string_of_uint (Nat.to_uint (n / 60))).
    change (":" ++ padStart (toString (n mod 60)) 2 "0")%string
      with (String ":" (padStart (toString (n mod 60)) 2 "0")).
    rewrite split_colon_digits. cbn [fst snd].
    rewrite parse_nat_zeros, parse_padStart.
    rewrite DecimalNat.Unsigned.of_to. f_equal.
    rewrite (Nat.div_mod_eq n 60) at 3. lia. }
  intros seconds. split; [apply R|].
  intros other E. pose proof (R other) as Ro. rewrite E, R in Ro.
  now injection Ro.
Qed.

Lemma formatTime_reads_back_witness :
  formatTime 75 = "01:15" /\ parseTime (formatTime 75) = Some 75%nat /\
  75%nat = 75%nat.
Proof.
  destruct (formatTime_reads_back 75) as [R I].
  split; [reflexivity | split; [exact R | exact (I 75%nat eq_refl)]].
Defined.

Lemma length_append (a b : string) :
  String.length (a ++ b) = (String.length a + String.length b)%nat.
Proof. induction a as [|c a IH]; [reflexivity | cbn; now rewrite IH]. Qed.

Lemma padStart_two_digits (k : nat) :
  (k < 100)%nat -> String.length (padStart (toString k) 2 "0") = 2%nat.
Proof.
  intros Hk.
  assert (A : forallb
                (fun k => Nat.eqb (String.length (padStart (toString k) 2 "0")) 2)
                (List.seq 0 100) = true) by (vm_compute; reflexivity).
  rewrite forallb_forall in A.
  apply Nat.eqb_eq, A, in_seq. lia.
Qed.

(** X20.  Below one hundred minutes the clock text has the fixed shape
    of two characters, a colon and two characters. *)
Theorem formatTime_fixed_width :
  forall seconds : nat,
    (seconds < 100 * 60)%nat ->
    String.length (formatTime seconds) = 5%nat /\
    String.get 2 (formatTime seconds) = Some ":"%char.
Proof.
  intros seconds Hs. unfold formatTime. cbv zeta.
  assert (Hm : (seconds / 60 < 100)%nat)
    by (apply Nat.Div0.div_lt_upper_bound; lia).
  assert (Hr : (seconds mod 60 < 60)%nat) by (apply Nat.mod_upper_bound; lia).
  pose proof (padStart_two_digits (seconds / 60) Hm) as Lm.
  pose proof (padStart_two_digits (seconds mod 60) ltac:(lia)) as Lr.
  split.
  - rewrite !length_append, Lm, Lr. reflexivity.
  - destruct (padStart (toString (seconds / 60)) 2 "0") as [|a [|b [|c t]]];
      try discriminate Lm. reflexivity.
Qed.

Lemma formatTime_fixed_width_witness :
  String.length (formatTime (99 * 60 + 59)) = 5%nat /\
  String.get 2 (formatTime (99 * 60 + 59)) = Some ":"%char.
Proof. apply formatTime_fixed_width. lia. Defined.

End Clock.

(* ===================================================================== *)
(** * Properties of the recorder of the app *)
(* ===================================================================== *)

Section Recording.

Import Js Async Recorder.

Lemma skipn_nth_error {A : Type} (l : list A) :
  forall (i : nat) (a : A),
    nth_error l i = Some a -> skipn i l = a :: skipn (S i) l.
Proof.
  induction l as [|x l IH]; intros [|i] a H; try discriminate H.
  - now injection H as ->.
  - cbn [nth_error] in H. cbn [skipn]. now rewrite (IH i a H).
Qed.

Lemma for_loop_skipn {S A : Type} (l : list A) (step : S -> A -> S) :
  forall (n i : nat) (s : S),
    n = (List.length l - i)%nat ->
    for_loop n i
      (fun i s => match nth_error l i with
                  | Some a => step s a
                  | None => s
                  end) s
    = fold_left step (skipn i l) s.
Proof.
  induction n as [|n IH]; intros i s Hn.
  - rewrite skipn_all2 by lia. reflexivity.
  - cbn [for_loop].
    destruct (nth_error l i) as [a|] eqn:E.
    + rewrite (skipn_nth_error l i a E). cbn [fold_left].
      apply IH. lia.
    + apply nth_error_None in E. lia.
Qed.

Lemma for_loop_pointwise {S : Type} (body body' : nat -> S -> S) :
  (forall i s, body i s = body' i s) ->
  forall (n i : nat) (s : S), for_loop n i body s = for_loop n i body' s.
Proof.
  intros E. induction n as [|n IH]; intros i s; [reflexivity|].
  cbn [for_loop]. now rewrite E, IH.
Qed.

Lemma onresult_fold (l : list SpeechRecognitionResult.t) :
  forall final pending : string,
    fold_left
      (fun (vars : string * string) r =>
         if SpeechRecognitionResult.isFinal r
         then ((fst vars
                ++ (SpeechRecognitionResult.transcript r ++ " "))%string,
               snd vars)
         else (fst vars,
               (snd vars ++ SpeechRecognitionResult.transcript r)%string))
      l (final, pending)
    = ((final
        ++ fold_right append ""
             (map (fun r =>
                     (SpeechRecognitionResult.transcript r ++ " ")%string)
                (filter SpeechRecognitionResult.isFinal l)))%string,
       (pending
        ++ fold_right append ""
             (map SpeechRecognitionResult.transcript
                (filter (fun r => negb (SpeechRecognitionResult.isFinal r))
                   l)))%string).
Proof.
  induction l as [|r l IH]; intros final pending.
  - cbn. now rewrite !append_empty_r.
  - cbn [fold_left filter]. destruct (SpeechRecognitionResult.isFinal r);
      cbn [fst snd negb map fold_right]; rewrite IH;
      now rewrite ?append_assoc.
Qed.

Lemma onresult_run (event : SpeechRecognitionEvent.t) (final : string) :
  onresult event final
  = ((final ++ Props.confirmed event)%string,
     ((final ++ Props.confirmed event) ++ Props.interim event)%string).
Proof.
  unfold onresult. cbv zeta.
  rewrite (for_loop_pointwise _
             (fun i (vars : string * string) =>
                match nth_error (SpeechRecognitionEvent.results event) i with
                | Some r =>
                    if SpeechRecognitionResult.isFinal r
                    then ((fst vars
                           ++ (SpeechRecognitionResult.transcript r
                               ++ " "))%string,
                          snd vars)
                    else (fst vars,
                          (snd vars
                           ++ SpeechRecognitionResult.transcript r)%string)
                | None => vars
                end))
    by (intros i [f p]; destruct (nth_error _ i); reflexivity).
  rewrite (for_loop_skipn (SpeechRecognitionEvent.results event)
             (fun (vars : string * string) r =>
                if SpeechRecognitionResult.isFinal r
                then ((fst vars
                       ++ (SpeechRecognitionResult.transcript r ++ " "))%string,
                      snd vars)
                else (fst vars,
                      (snd vars
                       ++ SpeechRecognitionResult.transcript r)%string))).
  - rewrite onresult_fold. reflexivity.
  - reflexivity.
Qed.

(** X21.  While a recording lasts, the text that stood in the transcript
    when it began is kept in front; behind it come the final results of
    every event, each followed by a space, in the order received; and
    behind those only the interim results of the latest event.  A final
    result that a later event delivers again is added again. *)
Theorem onresult_accumulates :
  forall (events : list SpeechRecognitionEvent.t) (transcript : string),
    fst (listen events transcript transcript)
    = (transcript ++ fold_right append "" (map Props.confirmed events))%string
    /\
    forall earlier latest,
      events = earlier ++ [latest] ->
      snd (listen events transcript transcript)
      = (fst (listen events transcript transcript)
         ++ Props.interim latest)%string.
Proof.
  assert (F : forall evs final shown,
             fst (listen evs final shown)
             = (final
                ++ fold_right append "" (map Props.confirmed evs))%string).
  { intros evs. induction evs as [|event evs IH]; intros final shown.
    - cbn. now rewrite append_empty_r.
    - cbn [listen map fold_right]. rewrite onresult_run, IH.
      now rewrite append_assoc. }
  intros events transcript. split; [apply F|].
  intros earlier latest ->.
  generalize transcript at 2 4 as shown.
  revert transcript.
  induction earlier as [|event earlier IH]; intros final shown.
  - cbn [app listen]. rewrite onresult_run. reflexivity.
  - cbn [app listen]. rewrite onresult_run. apply IH.
Qed.

Lemma onresult_accumulates_witness :
  listen [Cases.first_event; Cases.second_event] "Notes: " "Notes: "
  = ("Notes: hello world ", "Notes: hello world how").
Proof.
  destruct (onresult_accumulates [Cases.first_event; Cases.second_event]
              "Notes: ") as [F L].
  specialize (L [Cases.first_event] Cases.second_event eq_refl).
  destruct (listen _ _ _) as [final shown]. cbn [fst snd] in F, L.
  rewrite L, F. reflexivity.
Defined.

(** X22.  When the promise of the microphone settles, [startRecording]
    ends in one of two states: recording, with no error, the
    recognition referenced and started as its last call; or not
    recording, with an error text that is not empty.  Without a speech
    recognition in the window it asks for no microphone and makes no
    other call. *)
Theorem startRecording_records_or_reports :
  forall (supported : bool) (media : Outcome unit)
         (faults : Call -> option Error) (s : State),
    let s' := startRecording supported media faults s in
    (media <> Pending ->
     (isRecording s' = true /\ error s' = "" /\ recognitionRef s' = true /\
      calls s'
      = calls s ++ [getUserMedia; new_SpeechRecognition; recognition_start])
     \/
     (isRecording s' = false /\ error s' <> "")) /\
    (supported = false ->
     calls s' = calls s /\
     error s' = "Speech recognition not supported. Try Chrome.").
Proof.
  intros supported media faults s s'.
  assert (C : forall err t, isRecording (caught err t) = false /\
                            error (caught err t) <> "").
  { intros err t. split; [reflexivity|]. cbn. unfold or_else.
    destruct (String.eqb_spec (message err) ""); [discriminate | assumption]. }
  split.
  - intros Hm. unfold s', startRecording. cbv zeta.
    destruct supported; cbn [negb].
    + destruct media as [[]|err|]; [|right; apply C | congruence].
      destruct (faults new_SpeechRecognition) as [err|]; [right; apply C|].
      destruct (faults recognition_start) as [err|]; [right; apply C|].
      left. cbn. rewrite <- !app_assoc. repeat split.
    + right. split; [reflexivity | discriminate].
  - intros ->. unfold s', startRecording. cbn. split; reflexivity.
Qed.

Lemma startRecording_records_or_reports_witness :
  isRecording (startRecording true (Returned tt) Cases.start_fails Cases.idle)
  = false /\
  error (startRecording true (Returned tt) Cases.start_fails Cases.idle)
  = "Microphone access denied.".
Proof.
  destruct (startRecording_records_or_reports true (Returned tt)
              Cases.start_fails Cases.idle) as [H _].
  destruct H as [(H & _) | (H & _)]; [discriminate | discriminate H | ].
  split; [exact H | reflexivity].
Defined.

(** X23.  [stopRecording] leaves the recorder not recording and with no
    recognition referenced, and it stops a referenced recognition once:
    stopping again makes no further call.  The error text is as before. *)
Theorem stopRecording_stops_once :
  forall s : State,
    isRecording (stopRecording s) = false /\
    recognitionRef (stopRecording s) = false /\
    error (stopRecording s) = error s /\
    calls (stopRecording s)
    = calls s ++ (if recognitionRef s then [recognition_stop] else []) /\
    stopRecording (stopRecording s) = stopRecording s.
Proof.
  intros [recording text [|] made]; cbn; rewrite ?app_nil_r;
    repeat split; reflexivity.
Qed.

(** X24.  A recognition error during a recording that started ends the
    recording on screen but neither stops nor releases the recognition;
    a later [stopRecording] still stops it.  The error [no-speech]
    leaves no error text, any other error is shown by its name. *)
Theorem recognition_error_keeps_recognition :
  forall (event_error : string) (faults : Call -> option Error) (s : State),
    faults new_SpeechRecognition = None ->
    faults recognition_start = None ->
    let started := startRecording true (Returned tt) faults s in
    let failed := onerror event_error started in
    let stopped := stopRecording failed in
    isRecording failed = false /\
    recognitionRef failed = true /\
    calls failed = calls started /\
    error failed
    = (if String.eqb event_error "no-speech" then ""
       else "Recognition error: " ++ event_error)%string /\
    calls stopped = calls started ++ [recognition_stop] /\
    error stopped = error failed.
Proof.
  intros event_error faults s Hn Hs started failed stopped.
  unfold stopped, failed, started, startRecording, onerror, stopRecording.
  cbv zeta. cbn [negb]. rewrite Hn, Hs.
  destruct (String.eqb event_error "no-speech"); cbn; repeat split.
Qed.

Lemma recognition_error_keeps_recognition_witness :
  error (onerror "network"
           (startRecording true (Returned tt) Cases.starts_well Cases.idle))
  = "Recognition error: network" /\
  calls (stopRecording
           (onerror "network"
              (startRecording true (Returned tt) Cases.starts_well
                 Cases.idle)))
  = [getUserMedia; new_SpeechRecognition; recognition_start;
     recognition_stop].
Proof.
  destruct (recognition_error_keeps_recognition "network" Cases.starts_well
              Cases.idle eq_refl eq_refl) as (_ & _ & _ & E & C & _).
  split; [exact E | exact C].
Defined.

End Recording.

Section Formats.

Import Js Async Gemini.

Lemma strict_eq_other (v : option string) (s : string) :
  v <> Some s -> strict_eq v s = false.
Proof.
  destruct v as [t|]; [|reflexivity]. intros H. cbn.
  destruct (String.eqb_spec t s); [congruence | reflexivity].
Qed.

(** X25.  The summary length changes the instruction of the formats
    EMAIL and SUMMARY only, and never the part of the instruction before
    the format.  A length that is neither SHORT nor MEDIUM, an absent one
    included, gives the instruction of LONG. *)
Theorem formatInstruction_summaryLength :
  forall (native : string -> string) (meeting action_items format : string)
         (options : Options) (len : option string),
    (format <> "EMAIL" -> format <> "SUMMARY" ->
     formatInstruction meeting action_items format
       (Props.with_summaryLength len options)
     = formatInstruction meeting action_items format options) /\
    (len <> Some "SHORT" -> len <> Some "MEDIUM" ->
     formatInstruction meeting action_items format
       (Props.with_summaryLength len options)
     = formatInstruction meeting action_items format
         (Props.with_summaryLength (Some "LONG") options)) /\
    systemInstruction native (Props.with_summaryLength len options)
    = systemInstruction native options.
Proof.
  intros native meeting action_items format options len.
  split; [|split].
  - intros He Hs. unfold formatInstruction.
    destruct (String.eqb_spec format "EMAIL"); [contradiction|].
    destruct (String.eqb_spec format "SUMMARY"); [contradiction|].
    reflexivity.
  - intros Hs Hm. unfold formatInstruction.
    cbn [summaryLength customPrompt Props.with_summaryLength].
    rewrite (strict_eq_other len "SHORT" Hs),
            (strict_eq_other len "MEDIUM" Hm).
    reflexivity.
  - reflexivity.
Qed.

Lemma formatInstruction_summaryLength_witness :
  formatInstruction "" "" "SUMMARY"
    (Props.with_summaryLength (Some "short") (Examples.options None None))
  = "Summarize to one paragraph with key points. Only include what was actually said. Do NOT add assumptions. Plain text only."
  /\
  formatInstruction "" "" "SOCIAL"
    (Props.with_summaryLength (Some "SHORT") (Examples.options None None))
  = formatInstruction "" "" "SOCIAL" (Examples.options None None).
Proof.
  destruct (formatInstruction_summaryLength (fun _ => "") "" "" "SUMMARY"
              (Examples.options None None) (Some "short")) as (_ & L & _).
  destruct (formatInstruction_summaryLength (fun _ => "") "" "" "SOCIAL"
              (Examples.options None None) (Some "SHORT")) as (O & _ & _).
  split.
  - rewrite L by discriminate. reflexivity.
  - apply O; discriminate.
Defined.

Lemma requests_yields (chunks : list GenerateContentResponse.t) :
  Props.requests
    (map (fun chunk => Yield (or_else (GenerateContentResponse.text chunk) ""))
       chunks)
  = [].
Proof. induction chunks as [|chunk chunks IH]; [reflexivity | exact IH]. Qed.

(** X26.  For a transcript that is not empty the transform handler makes
    exactly one request to the model: with the key of the app, the
    transcript as its only part, and the instruction of the format
    chosen.  It passes no custom prompt, so for the format CUSTOM the
    instruction is always the default one. *)
Theorem handleTransform_request :
  forall (provider : StreamProvider) (native : string -> string)
         (meeting action_items : string)
         (process_env : option (option string)) (apiKey : string)
         (s : App.State),
    App.transcript s <> "" ->
    apiKey <> "" ->
    let options :=
      {| summaryLength := App.summaryLength s; customPrompt := None;
         tone := App.tone s; language := App.language s;
         styleGuide := App.styleGuide s |} in
    let instruction :=
      (if String.eqb (App.outputFormat s) "CUSTOM"
       then systemInstruction native options
            ++ "Polish the following text. Output plain text only."
       else systemInstruction native options
            ++ formatInstruction meeting action_items (App.outputFormat s)
                 options)%string in
    Props.requests
      (snd (App.handleTransform provider native meeting action_items
              process_env apiKey s))
    = [GenerateContent apiKey "gemini-2.0-flash"
         [textPart (App.transcript s)] (Some instruction)].
Proof.
  intros provider native meeting action_items process_env apiKey s Ht Hk
    options instruction.
  assert (Ekey : or_else (Some apiKey) (or_else (getApiKey process_env) "")
                 = apiKey).
  { unfold or_else at 1. destruct (String.eqb_spec apiKey ""); congruence. }
  assert (Ei : instruction
               = (systemInstruction native options
                  ++ formatInstruction meeting action_items
                       (App.outputFormat s) options)%string).
  { unfold instruction.
    destruct (String.eqb_spec (App.outputFormat s) "CUSTOM") as [E|_];
      [|reflexivity].
    rewrite E. reflexivity. }
  rewrite Ei. clear Ei instruction.
  unfold App.handleTransform.
  destruct (String.eqb_spec (App.transcript s) "") as [E|_]; [congruence|].
  cbv zeta. unfold App.stream_of. rewrite transform_run, Ekey.
  cbn [events outcome fst snd
       App.transcript App.outputFormat App.summaryLength App.tone
       App.language App.styleGuide App.set_output App.set_error
       App.set_transforming].
  fold options.
  destruct (provider _ _ _ _) as [[chunks [e|]]|e|];
    cbn [snd Props.requests]; rewrite ?requests_yields; reflexivity.
Qed.

Lemma handleTransform_request_witness :
  List.length
    (Props.requests
       (snd (App.handleTransform Cases.cut_stream (fun _ => "") "" ""
               None "app key" Cases.editing)))
  = 1%nat.
Proof.
  rewrite (handleTransform_request Cases.cut_stream (fun _ => "") "" ""
             None "app key" Cases.editing); [reflexivity | | ]; discriminate.
Defined.

End Formats.
